(** * The request-parameter binder of beego's [context] package

    A shallow embedding of [BeegoInput.Bind] and of its helpers ([bind],
    [bindValue], [bindInt], [bindUint], [bindFloat], [bindString],
    [bindBool], [bindSlice], [bindStruct], [bindPoint], [bindMap],
    [Query], [Param]) together with the fragment of Go's [strings],
    [strconv], [net/url] and [reflect] packages that they call.

    Conventions.
    - A Go [int] is a [Z] kept inside the range of the platform's word
      size; arithmetic on it wraps ([Int.wrap]).
    - A Go [string] is a Rocq [string] (a sequence of bytes).
    - A [url.Values] map is the list of its entries {e in the order in
      which a [range] loop visits them}; Go leaves that order unspecified,
      so statements about a form quantify over every order.  The keys of a
      map are pairwise distinct ([url.wf]).
    - A run-time panic is an outcome of its own ([Panicked]); a Go [error]
      result is an ordinary returned value.
    - The parts of the Go library that cannot be written down here
      (floating point parsing and rounding, Unicode case tables) are the
      fields of a [Platform]. *)

From Stdlib Require Import ZArith List String Ascii Bool Lia Permutation.
From Stdlib Require Import Floats.SpecFloat.
Import ListNotations.

Set Implicit Arguments.

Local Open Scope string_scope.
Local Open Scope list_scope.
Local Open Scope Z_scope.

(** ** The platform *)

Inductive IntSize := Bits32 | Bits64.

Definition bits (w : IntSize) : Z :=
  match w with Bits32 => 32 | Bits64 => 64 end.

(** What the binder takes from the Go implementation it runs on. *)
Class Platform : Type := {
(** [strconv.IntSize]: the width of [int] and [uint]. *)
intSize : IntSize;
(** The values of type [float64]. *)
float64 : Type;
float64_zero : float64;
(** [strconv.ParseFloat(s, 64)]: [None] when it returns an error. *)
ParseFloat64 : string -> option float64;
(** The conversion [float64(float32(x))]. *)
to_float32 : float64 -> float64;
(** Go's [==] on [float64]; it is not reflexive (NaN). *)
float64_eqb : float64 -> float64 -> bool;
float64_eqb_sym : forall x y, float64_eqb x y = float64_eqb y x;
float64_eqb_trans : forall x y z,
  float64_eqb x y = true -> float64_eqb y z = true -> float64_eqb x z = true;
(** [strings.Map(unicode.ToLower, s)], used by [strings.ToLower] on a
    string that holds a byte outside ASCII. *)
unicode_lower : string -> string;
(** [strings.TrimFunc(s, unicode.IsSpace)] and
    [strings.TrimRightFunc(s, unicode.IsSpace)], used by
    [strings.TrimSpace] once it meets a byte outside ASCII. *)
unicode_trim : string -> string;
unicode_trim_right : string -> string
}.

(** ** Go's [int] *)

Module Int.
Section WithPlatform.
Context {P : Platform}.

Definition size : Z := bits intSize.
Definition modulus : Z := 2 ^ size.
Definition max : Z := 2 ^ (size - 1) - 1.
Definition min : Z := - 2 ^ (size - 1).

(** Two's complement wrap-around of a [w]-bit signed integer. *)
Definition wrap_bits (w : Z) (z : Z) : Z :=
  (z + 2 ^ (w - 1)) mod 2 ^ w - 2 ^ (w - 1).

Definition wrap (z : Z) : Z := wrap_bits size z.

Definition add (a b : Z) : Z := wrap (a + b).
End WithPlatform.
End Int.

(** ** Package [strings] *)

Module strings.

Definition len (s : string) : Z := Z.of_nat (String.length s).

(** The slice expression [s[lo:hi]].  Every use below is within bounds
    (see [Facts.slices_within_bounds]), where Go does not panic. *)
Definition slice (s : string) (lo hi : Z) : string :=
  substring (Z.to_nat lo) (Z.to_nat (hi - lo)) s.

(** [s[lo:]] *)
Definition slice_from (s : string) (lo : Z) : string := slice s lo (len s).

(** [s[:hi]] *)
Definition slice_to (s : string) (hi : Z) : string := slice s 0 hi.

Definition HasPrefix (s pre : string) : bool := String.prefix pre s.

(** [strings.Index]: the first position of [sub] in [s], or -1. *)
Definition Index (s sub : string) : Z :=
  match String.index 0 sub s with
  | Some i => Z.of_nat i
  | None => -1
  end.

(** [s[len(s)-1]], the last byte of a string that is not empty. *)
Fixpoint last_byte (s : string) : option ascii :=
  match s with
  | EmptyString => None
  | String c EmptyString => Some c
  | String _ s' => last_byte s'
  end.

(** Whether the byte [c] occurs in [s]. *)
Fixpoint has_byte (c : ascii) (s : string) : bool :=
  match s with
  | EmptyString => false
  | String b s' => Ascii.eqb b c || has_byte c s'
  end.

(** [strings.Split(s, sep)] for a separator of one byte, which is what
    every caller in the package passes: the pieces of [s] between the
    occurrences of [sep], one piece more than there are occurrences. *)
Fixpoint Split (s : string) (sep : ascii) : list string :=
  match s with
  | EmptyString => [EmptyString]
  | String c s' =>
      if Ascii.eqb c sep then EmptyString :: Split s' sep
      else match Split s' sep with
           | piece :: pieces => String c piece :: pieces
           | [] => [String c EmptyString]
           end
  end.

(** [strings.Join(a, sep)] *)
Fixpoint Join (a : list string) (sep : string) : string :=
  match a with
  | [] => EmptyString
  | x :: rest =>
      match rest with
      | [] => x
      | _ :: _ => x ++ sep ++ Join rest sep
      end
  end.

(** [strings.Contains(s, substr)] *)
Definition Contains (s substr : string) : bool := 0 <=? Index s substr.

Definition is_ascii_byte (c : ascii) : bool := (nat_of_ascii c <? 128)%nat.

Fixpoint is_ascii (s : string) : bool :=
  match s with
  | EmptyString => true
  | String c s' => is_ascii_byte c && is_ascii s'
  end.

Definition lower_byte (c : ascii) : ascii :=
  let n := nat_of_ascii c in
  if ((65 <=? n) && (n <=? 90))%nat then ascii_of_nat (n + 32) else c.

Fixpoint lower_ascii (s : string) : string :=
  match s with
  | EmptyString => EmptyString
  | String c s' => String (lower_byte c) (lower_ascii s')
  end.

(** The table [asciiSpace]: tab, line feed, vertical tab, form feed,
    carriage return and space. *)
Definition ascii_space (c : ascii) : bool :=
  let n := nat_of_ascii c in
  ((9 <=? n) && (n <=? 13) || (n =? 32))%nat.

Section WithPlatform.
Context {P : Platform}.

(** [strings.ToLower]: byte by byte on an ASCII string, through the
    Unicode tables otherwise. *)
Definition ToLower (s : string) : string :=
  if is_ascii s then lower_ascii s else unicode_lower s.

(** The second loop of [strings.TrimSpace]: drop ASCII space from the
    right of [s], given back to front; a byte outside ASCII hands what is
    left to [strings.TrimRightFunc]. *)
Fixpoint trim_right_rev (r : list ascii) : string :=
  match r with
  | [] => EmptyString
  | c :: r' =>
      if negb (is_ascii_byte c) then
        unicode_trim_right (string_of_list_ascii (rev r))
      else if ascii_space c then trim_right_rev r'
      else string_of_list_ascii (rev r)
  end.

Definition trim_right (s : string) : string :=
  trim_right_rev (rev (list_ascii_of_string s)).

(** [strings.TrimSpace]: the first loop drops ASCII space from the left;
    a byte outside ASCII hands the rest to [strings.TrimFunc]. *)
Fixpoint TrimSpace (s : string) : string :=
  match s with
  | EmptyString => EmptyString
  | String c s' =>
      if negb (is_ascii_byte c) then unicode_trim s
      else if ascii_space c then TrimSpace s'
      else trim_right s
  end.
End WithPlatform.
End strings.

(** ** Package [strconv] (base 10 only) *)

Module strconv.

(** The two errors of a [*strconv.NumError]. *)
Inductive NumError := ErrSyntax | ErrRange.

Definition digit_of (c : ascii) : option Z :=
  let n := nat_of_ascii c in
  if ((48 <=? n) && (n <=? 57))%nat then Some (Z.of_nat n - 48) else None.

Definition maxUint64 : Z := 2 ^ 64 - 1.

(** The loop of [ParseUint] for base 10: [n] is the [uint64] read so
    far, [maxVal] the largest value of the requested size.  A range error
    returns at once, whatever follows in the string. *)
Fixpoint ParseUint_loop (maxVal : Z) (n : Z) (s : string) : Z * option NumError :=
  match s with
  | EmptyString => (n, None)
  | String c s' =>
      match digit_of c with
      | None => (0, Some ErrSyntax)
      | Some d =>
          if maxUint64 / 10 + 1 <=? n then (maxVal, Some ErrRange)
          else
            let n10 := n * 10 in
            let n1 := (n10 + d) mod 2 ^ 64 in
            if (n1 <? n10) || (maxVal <? n1) then (maxVal, Some ErrRange)
            else ParseUint_loop maxVal n1 s'
      end
  end.

(** The end of [ParseInt]: the sign and the range check applied to what
    [ParseUint] returned for the digits ([un] and its error); [cutoff] is
    the magnitude of the least value of the requested size. *)
Definition ParseInt_finish (neg : bool) (cutoff : Z)
    (r : Z * option NumError) : Z * option NumError :=
  match r with
  | (_, Some ErrSyntax) => (0, Some ErrSyntax)
  | (un, _) =>
      if negb neg && (cutoff <=? un) then (cutoff - 1, Some ErrRange)
      else if neg && (cutoff <? un) then (- cutoff, Some ErrRange)
      else (if neg then - un else un, None)
  end.

Section WithPlatform.
Context {P : Platform}.

(** A [bitSize] of 0 stands for the size of [int]. *)
Definition effective_bits (bitSize : Z) : Z :=
  if bitSize =? 0 then Int.size else bitSize.

(** [strconv.ParseUint(s, 10, bitSize)] *)
Definition ParseUint (s : string) (bitSize : Z) : Z * option NumError :=
  match s with
  | EmptyString => (0, Some ErrSyntax)
  | _ => ParseUint_loop (2 ^ effective_bits bitSize - 1) 0 s
  end.

(** [strconv.ParseInt(s, 10, bitSize)] *)
Definition ParseInt (s : string) (bitSize : Z) : Z * option NumError :=
  match s with
  | EmptyString => (0, Some ErrSyntax)
  | String c s' =>
      let neg := Ascii.eqb c "-" in
      let digits := if Ascii.eqb c "+" || neg then s' else s in
      ParseInt_finish neg (2 ^ (effective_bits bitSize - 1)) (ParseUint digits bitSize)
  end.

(** [strconv.Atoi(s)]: [ParseInt(s, 10, 0)] converted to [int] (the fast
    path of newer Go versions computes the same result). *)
Definition Atoi (s : string) : Z * option NumError :=
  let '(i64, err) := ParseInt s 0 in (Int.wrap i64, err).
End WithPlatform.
End strconv.

(** ** Decimal numerals

    What it means for a string to be the decimal representation of a
    number, written without reference to [strconv]: the yardstick for the
    scalar binders. *)

Module Numeral.

(** The number that the digits of [s] denote after the digits read so far
    gave [acc]; [None] when [s] holds a byte that is not a digit. *)
Fixpoint digits_value (acc : Z) (s : string) : option Z :=
  match s with
  | EmptyString => Some acc
  | String c s' =>
      match strconv.digit_of c with
      | Some d => digits_value (acc * 10 + d) s'
      | None => None
      end
  end.

(** One digit or more. *)
Definition unsigned_decimal (s : string) : option Z :=
  match s with
  | EmptyString => None
  | _ => digits_value 0 s
  end.

(** An optional sign, then one digit or more. *)
Definition signed_decimal (s : string) : option Z :=
  match s with
  | EmptyString => None
  | String c s' =>
      if Ascii.eqb c "+" then unsigned_decimal s'
      else if Ascii.eqb c "-" then option_map Z.opp (unsigned_decimal s')
      else unsigned_decimal s
  end.

(** The canonical numeral of a natural number, as [strconv.FormatUint]
    prints it: [fuel] bounds the number of digits. *)
Fixpoint format_digits (fuel : nat) (n : Z) (tail : string) : string :=
  match fuel with
  | O => tail
  | S fuel' =>
      let tail' := String (ascii_of_nat (Z.to_nat (48 + n mod 10))) tail in
      if n <? 10 then tail' else format_digits fuel' (n / 10) tail'
  end.

Definition FormatUint (n : Z) : string :=
  format_digits (S (Z.to_nat (Z.log2 n))) n EmptyString.

(** [strconv.FormatInt(n, 10)] *)
Definition FormatInt (n : Z) : string :=
  if n <? 0 then String "-" (FormatUint (- n)) else FormatUint n.

End Numeral.

(** ** Outcomes: a result or a run-time panic *)

Inductive outcome (A : Type) : Type :=
| Done (a : A)
| Panicked (msg : string).
Arguments Done {A} a.
Arguments Panicked {A} msg.

Definition obind {A B} (o : outcome A) (k : A -> outcome B) : outcome B :=
  match o with
  | Done a => k a
  | Panicked msg => Panicked msg
  end.

(** ** Package [reflect] *)

Module reflect.

Inductive Kind :=
| Invalid | Bool
| Int | Int8 | Int16 | Int32 | Int64
| Uint | Uint8 | Uint16 | Uint32 | Uint64 | Uintptr
| Float32 | Float64 | Complex64 | Complex128
| Array | Chan | Func | Interface | Map | Ptr | Slice | String | Struct
| UnsafePointer.

Definition Kind_eq_dec (a b : Kind) : {a = b} + {a <> b}.
Proof. decide equality. Defined.

(** The widths of the signed integer kinds ([Int] ... [Int64]), of the
    unsigned ones ([Uint] ... [Uint64]) and of the float and complex
    kinds. *)
Inductive IntKind := KInt | KInt8 | KInt16 | KInt32 | KInt64.
Inductive UintKind := KUint | KUint8 | KUint16 | KUint32 | KUint64.
Inductive FloatKind := K32 | K64.

Definition IntKind_eq_dec (a b : IntKind) : {a = b} + {a <> b}.
Proof. decide equality. Defined.
Definition UintKind_eq_dec (a b : UintKind) : {a = b} + {a <> b}.
Proof. decide equality. Defined.
Definition FloatKind_eq_dec (a b : FloatKind) : {a = b} + {a <> b}.
Proof. decide equality. Defined.

(** A field of a struct type: [PkgPath] is empty exactly for an exported
    field.  Embedded fields are outside the model. *)
Record StructField (T : Type) : Type := mkField {
  Name : string;
  PkgPath : string;
  Typ : T
}.
Arguments mkField {T} Name PkgPath Typ.

(** Type descriptors.  Every descriptor carries the type's name, empty
    for a type literal; the predeclared types are named ([int],
    [string], ...).  A descriptor is a finite tree, so recursive types
    are outside the model. *)
#[warnings="-register-all"]
Inductive rtype :=
| TBool (name : string)
| TInt (name : string) (w : IntKind)
| TUint (name : string) (w : UintKind)
| TUintptr (name : string)
| TFloat (name : string) (w : FloatKind)
| TComplex (name : string) (w : FloatKind)
| TString (name : string)
| TUnsafePointer (name : string)
| TArray (name : string) (len : nat) (elem : rtype)
| TChan (name : string) (dir : nat) (elem : rtype)
| TFunc (name : string) (signature : string)
| TInterface (name : string) (methods : list string)
| TMap (name : string) (key elem : rtype)
| TPtr (name : string) (elem : rtype)
| TSlice (name : string) (elem : rtype)
| TStruct (name : string) (fields : list (StructField rtype)).

(** [Type.Name] *)
Definition type_name (t : rtype) : string :=
  match t with
  | TBool n | TInt n _ | TUint n _ | TUintptr n | TFloat n _ | TComplex n _
  | TString n | TUnsafePointer n | TArray n _ _ | TChan n _ _ | TFunc n _
  | TInterface n _ | TMap n _ _ | TPtr n _ | TSlice n _ | TStruct n _ => n
  end.

Definition hasName (t : rtype) : bool :=
  negb (String.eqb (type_name t) "").

(** [Type.Kind] *)
Definition kind_of (t : rtype) : Kind :=
  match t with
  | TBool _ => Bool
  | TInt _ KInt => Int
  | TInt _ KInt8 => Int8
  | TInt _ KInt16 => Int16
  | TInt _ KInt32 => Int32
  | TInt _ KInt64 => Int64
  | TUint _ KUint => Uint
  | TUint _ KUint8 => Uint8
  | TUint _ KUint16 => Uint16
  | TUint _ KUint32 => Uint32
  | TUint _ KUint64 => Uint64
  | TUintptr _ => Uintptr
  | TFloat _ K32 => Float32
  | TFloat _ K64 => Float64
  | TComplex _ K32 => Complex64
  | TComplex _ K64 => Complex128
  | TString _ => String
  | TUnsafePointer _ => UnsafePointer
  | TArray _ _ _ => Array
  | TChan _ _ _ => Chan
  | TFunc _ _ => Func
  | TInterface _ _ => Interface
  | TMap _ _ _ => Map
  | TPtr _ _ => Ptr
  | TSlice _ _ => Slice
  | TStruct _ _ => Struct
  end.

(** The descriptor with its name erased: the underlying type. *)
Definition unnamed (t : rtype) : rtype :=
  match t with
  | TBool _ => TBool ""
  | TInt _ k => TInt "" k
  | TUint _ k => TUint "" k
  | TUintptr _ => TUintptr ""
  | TFloat _ k => TFloat "" k
  | TComplex _ k => TComplex "" k
  | TString _ => TString ""
  | TUnsafePointer _ => TUnsafePointer ""
  | TArray _ n e => TArray "" n e
  | TChan _ d e => TChan "" d e
  | TFunc _ s => TFunc "" s
  | TInterface _ m => TInterface "" m
  | TMap _ k e => TMap "" k e
  | TPtr _ e => TPtr "" e
  | TSlice _ e => TSlice "" e
  | TStruct _ fs => TStruct "" fs
  end.

(** Identity of types is equality of descriptors. *)
Fixpoint rtype_eq_dec (a b : rtype) {struct a} : {a = b} + {a <> b}.
Proof.
  decide equality;
    try apply string_dec; try apply IntKind_eq_dec;
    try apply UintKind_eq_dec; try apply FloatKind_eq_dec;
    try apply Nat.eq_dec;
    try (apply list_eq_dec; apply string_dec).
  apply list_eq_dec. intros x y. decide equality; apply string_dec.
Defined.

Definition rtype_eqb (a b : rtype) : bool :=
  if rtype_eq_dec a b then true else false.

(** The predeclared types. *)
Definition int_type : rtype := TInt "int" KInt.
Definition bool_type : rtype := TBool "bool".
Definition string_type : rtype := TString "string".

(** Induction over descriptors that reaches the fields of a struct. *)
Section Induction.
Variable Q : rtype -> Prop.
Hypothesis HBool : forall n, Q (TBool n).
Hypothesis HInt : forall n k, Q (TInt n k).
Hypothesis HUint : forall n k, Q (TUint n k).
Hypothesis HUintptr : forall n, Q (TUintptr n).
Hypothesis HFloat : forall n k, Q (TFloat n k).
Hypothesis HComplex : forall n k, Q (TComplex n k).
Hypothesis HString : forall n, Q (TString n).
Hypothesis HUnsafe : forall n, Q (TUnsafePointer n).
Hypothesis HArray : forall n len e, Q e -> Q (TArray n len e).
Hypothesis HChan : forall n d e, Q e -> Q (TChan n d e).
Hypothesis HFunc : forall n s, Q (TFunc n s).
Hypothesis HInterface : forall n m, Q (TInterface n m).
Hypothesis HMap : forall n k e, Q k -> Q e -> Q (TMap n k e).
Hypothesis HPtr : forall n e, Q e -> Q (TPtr n e).
Hypothesis HSlice : forall n e, Q e -> Q (TSlice n e).
Hypothesis HStruct :
  forall n fs, Forall (fun f => Q (Typ f)) fs -> Q (TStruct n fs).

Fixpoint rtype_induction (t : rtype) : Q t :=
  match t with
  | TBool n => HBool n
  | TInt n k => HInt n k
  | TUint n k => HUint n k
  | TUintptr n => HUintptr n
  | TFloat n k => HFloat n k
  | TComplex n k => HComplex n k
  | TString n => HString n
  | TUnsafePointer n => HUnsafe n
  | TArray n len e => HArray n len (rtype_induction e)
  | TChan n d e => HChan n d (rtype_induction e)
  | TFunc n s => HFunc n s
  | TInterface n m => HInterface n m
  | TMap n k e => HMap n (rtype_induction k) (rtype_induction e)
  | TPtr n e => HPtr n (rtype_induction e)
  | TSlice n e => HSlice n (rtype_induction e)
  | TStruct n fs =>
      HStruct n
        ((fix all (l : list (StructField rtype))
            : Forall (fun f => Q (Typ f)) l :=
            match l with
            | [] => Forall_nil _
            | f :: l' => @Forall_cons _ _ f l' (rtype_induction (Typ f)) (all l')
            end) fs)
  end.
End Induction.

Section WithPlatform.
Context {P : Platform}.

(** The contents of a variable.  A pointer holds the contents of the
    variable it points to: every pointer this binder makes is the only
    reference to a variable of its own.  A slice holds its elements (its
    capacity is not observable through the binder); [None] is nil. *)
#[warnings="-register-all"]
Inductive data :=
| DBool (b : bool)
| DInt (z : Z)
| DUint (z : Z)
| DFloat (f : float64)
| DComplex (re im : float64)
| DString (s : string)
| DPtr (pointee : option data)
| DSlice (elems : option (list data))
| DMap (entries : option (list (data * data)))
| DStruct (fields : list data)
| DArray (elems : list data)
| DIface (dyn : option (rtype * data))
| DNil.  (* a nil channel, func or unsafe pointer *)

(** Induction on the contents of a value, with the hypothesis for every
    value held inside. *)
Section DataInduction.
Variable Q : data -> Prop.
Hypothesis HBool : forall b, Q (DBool b).
Hypothesis HInt : forall z, Q (DInt z).
Hypothesis HUint : forall z, Q (DUint z).
Hypothesis HFloat : forall f, Q (DFloat f).
Hypothesis HComplex : forall re im, Q (DComplex re im).
Hypothesis HString : forall s, Q (DString s).
Hypothesis HPtrNil : Q (DPtr None).
Hypothesis HPtr : forall d, Q d -> Q (DPtr (Some d)).
Hypothesis HSliceNil : Q (DSlice None).
Hypothesis HSlice : forall l, Forall Q l -> Q (DSlice (Some l)).
Hypothesis HMapNil : Q (DMap None).
Hypothesis HMap :
  forall l, Forall (fun e => Q (fst e) /\ Q (snd e)) l -> Q (DMap (Some l)).
Hypothesis HStruct : forall l, Forall Q l -> Q (DStruct l).
Hypothesis HArray : forall l, Forall Q l -> Q (DArray l).
Hypothesis HIfaceNil : Q (DIface None).
Hypothesis HIface : forall t d, Q d -> Q (DIface (Some (t, d))).
Hypothesis HNil : Q DNil.

Fixpoint data_induction (d : data) : Q d :=
  let all :=
    fix all (l : list data) : Forall Q l :=
      match l with
      | [] => Forall_nil _
      | x :: l' => @Forall_cons _ _ x l' (data_induction x) (all l')
      end in
  match d with
  | DBool b => HBool b
  | DInt z => HInt z
  | DUint z => HUint z
  | DFloat f => HFloat f
  | DComplex re im => HComplex re im
  | DString s => HString s
  | DPtr None => HPtrNil
  | DPtr (Some x) => HPtr (data_induction x)
  | DSlice None => HSliceNil
  | DSlice (Some l) => HSlice (all l)
  | DMap None => HMapNil
  | DMap (Some l) =>
      HMap
        ((fix pairs (l : list (data * data))
            : Forall (fun e => Q (fst e) /\ Q (snd e)) l :=
            match l with
            | [] => Forall_nil _
            | (k, v) :: l' =>
                @Forall_cons _ (fun e => Q (fst e) /\ Q (snd e)) (k, v) l'
                  (conj (data_induction k) (data_induction v)) (pairs l')
            end) l)
  | DStruct l => HStruct (all l)
  | DArray l => HArray (all l)
  | DIface None => HIfaceNil
  | DIface (Some (t, x)) => HIface t (data_induction x)
  | DNil => HNil
  end.
End DataInduction.

(** The zero value of a type. *)
Fixpoint zero (t : rtype) : data :=
  match t with
  | TBool _ => DBool false
  | TInt _ _ => DInt 0
  | TUint _ _ | TUintptr _ => DUint 0
  | TFloat _ _ => DFloat float64_zero
  | TComplex _ _ => DComplex float64_zero float64_zero
  | TString _ => DString ""
  | TUnsafePointer _ | TChan _ _ _ | TFunc _ _ => DNil
  | TArray _ n e => DArray (repeat (zero e) n)
  | TInterface _ _ => DIface None
  | TMap _ _ _ => DMap None
  | TPtr _ _ => DPtr None
  | TSlice _ _ => DSlice None
  | TStruct _ fs => DStruct (map (fun f => zero (Typ f)) fs)
  end.

(** A [reflect.Value]: the zero Value, or a type, the contents and the
    flags [flagAddr] (addressable) and [flagRO] (reached through an
    unexported field). *)
Inductive Value :=
| zeroValue
| mkValue (typ : rtype) (d : data) (flagAddr flagRO : bool).

Definition IsValid (v : Value) : bool :=
  match v with zeroValue => false | mkValue _ _ _ _ => true end.

Definition CanAddr (v : Value) : bool :=
  match v with zeroValue => false | mkValue _ _ a _ => a end.

Definition CanSet (v : Value) : bool :=
  match v with zeroValue => false | mkValue _ _ a ro => a && negb ro end.

Definition Kind_ (v : Value) : Kind :=
  match v with zeroValue => Invalid | mkValue t _ _ _ => kind_of t end.

(** [Value.Type] *)
Definition Type_ (v : Value) : outcome rtype :=
  match v with
  | zeroValue => Panicked "reflect: call of reflect.Value.Type on zero Value"
  | mkValue t _ _ _ => Done t
  end.

Definition data_of (v : Value) : data :=
  match v with zeroValue => DNil | mkValue _ d _ _ => d end.

(** [reflect.Zero]: neither addressable nor settable. *)
Definition Zero (t : rtype) : Value := mkValue t (zero t) false false.

(** [reflect.New(t)]: a pointer to a new zero variable. *)
Definition New (t : rtype) : Value :=
  mkValue (TPtr "" t) (DPtr (Some (zero t))) false false.

(** [reflect.ValueOf] of an interface value; [None] is the nil
    interface. *)
Definition ValueOf (i : option (rtype * data)) : Value :=
  match i with
  | None => zeroValue
  | Some (t, d) => mkValue t d false false
  end.

(** [Value.Elem] of a pointer: the variable pointed to, addressable; the
    zero Value for a nil pointer. *)
Definition Elem (v : Value) : outcome Value :=
  match v with
  | mkValue (TPtr _ e) (DPtr (Some d)) _ ro => Done (mkValue e d true ro)
  | mkValue (TPtr _ _) _ _ _ => Done zeroValue
  | mkValue (TInterface _ _) (DIface (Some (t, d))) _ ro =>
      Done (mkValue t d false ro)
  | mkValue (TInterface _ _) _ _ _ => Done zeroValue
  | _ => Panicked "reflect: call of reflect.Value.Elem on non-pointer Value"
  end.

(** [Value.Addr] *)
Definition Addr (v : Value) : outcome Value :=
  match v with
  | mkValue t d true ro => Done (mkValue (TPtr "" t) (DPtr (Some d)) false ro)
  | _ => Panicked "reflect.Value.Addr of unaddressable value"
  end.

(** *** Assignability *)

Definition BothDir : nat := 3.

Definition chan_assignable (T V : rtype) : bool :=
  match T, V with
  | TChan tn _ te, TChan vn vd ve =>
      Nat.eqb vd BothDir && (String.eqb tn "" || String.eqb vn "")
      && rtype_eqb te ve
  | _, _ => false
  end.

(** [haveIdenticalUnderlyingType(T, V, true)] for two types of one
    kind: nested types are compared by identity; two interface types
    agree here only when both have no method. *)
Definition identical_underlying (T V : rtype) : bool :=
  match T, V with
  | TInterface _ tm, TInterface _ vm =>
      match tm, vm with [], [] => true | _, _ => false end
  | _, _ => rtype_eqb (unnamed T) (unnamed V)
  end.

Definition directlyAssignable (T V : rtype) : bool :=
  if rtype_eqb T V then true
  else if (hasName T && hasName V)
          || negb (if Kind_eq_dec (kind_of T) (kind_of V) then true else false)
  then false
  else if chan_assignable T V then true
  else identical_underlying T V.

(** [implements(T, V)].  The model gives methods to interface types
    only; the one value the binder ever stores in an interface is of
    type [int], which has none. *)
Definition implements (T V : rtype) : bool :=
  match T with
  | TInterface _ [] => true
  | TInterface _ tm =>
      match V with
      | TInterface _ vm =>
          forallb (fun m => existsb (String.eqb m) vm) tm
      | _ => false
      end
  | _ => false
  end.

(** [Value.assignTo]: the contents of [x] as a value of type [dst]. *)
Definition assignTo (context : string) (x : Value) (dst : rtype) : outcome data :=
  match x with
  | zeroValue => Panicked (context ++ ": call on zero Value")
  | mkValue t d _ _ =>
      if directlyAssignable dst t then Done d
      else if implements dst t then
        match t, d with
        | TInterface _ _, DIface None => Done (DIface None)
        | TInterface _ _, DIface (Some dyn) => Done (DIface (Some dyn))
        | _, _ => Done (DIface (Some (t, d)))
        end
      else Panicked (context ++ ": value is not assignable to type")
  end.

(** [flag.mustBeExported] *)
Definition mustBeExported (x : Value) : outcome unit :=
  match x with
  | zeroValue => Panicked "reflect: call on zero Value"
  | mkValue _ _ _ true =>
      Panicked "reflect: use of value obtained using unexported field"
  | mkValue _ _ _ false => Done tt
  end.

(** A value that was not reached through an unexported field. *)
Definition exported (v : Value) : Prop := mustBeExported v = Done tt.

(** [flag.mustBeAssignable] *)
Definition mustBeAssignable (v : Value) : outcome unit :=
  match v with
  | zeroValue => Panicked "reflect: call on zero Value"
  | mkValue _ _ _ true =>
      Panicked "reflect: use of value obtained using unexported field"
  | mkValue _ _ false false => Panicked "reflect: use of unaddressable value"
  | mkValue _ _ true false => Done tt
  end.

(** [v.Set(x)]: the Value [v] after the assignment. *)
Definition Set_ (v x : Value) : outcome Value :=
  obind (mustBeAssignable v) (fun _ =>
  obind (mustBeExported x) (fun _ =>
  match v with
  | zeroValue => Panicked "reflect: call on zero Value"
  | mkValue t _ a ro =>
      obind (assignTo "reflect.Set" x t) (fun d => Done (mkValue t d a ro))
  end)).

(** The width in bits of an integer kind. *)
Definition int_bits (w : IntKind) : Z :=
  match w with
  | KInt => Int.size
  | KInt8 => 8
  | KInt16 => 16
  | KInt32 => 32
  | KInt64 => 64
  end.

Definition uint_bits (w : UintKind) : Z :=
  match w with
  | KUint => Int.size
  | KUint8 => 8
  | KUint16 => 16
  | KUint32 => 32
  | KUint64 => 64
  end.

(** [v.SetInt(x)]: the conversion to the kind's width truncates. *)
Definition SetInt (v : Value) (x : Z) : outcome Value :=
  obind (mustBeAssignable v) (fun _ =>
  match v with
  | zeroValue => Panicked "reflect: call on zero Value"
  | mkValue t _ a ro =>
      let store z := Done (mkValue t (DInt z) a ro) in
      match kind_of t with
      | Int => store (Int.wrap x)
      | Int8 => store (Int.wrap_bits 8 x)
      | Int16 => store (Int.wrap_bits 16 x)
      | Int32 => store (Int.wrap_bits 32 x)
      | Int64 => store (Int.wrap_bits 64 x)
      | _ => Panicked "reflect: call of reflect.Value.SetInt on non-int Value"
      end
  end).

(** [v.SetUint(x)] *)
Definition SetUint (v : Value) (x : Z) : outcome Value :=
  obind (mustBeAssignable v) (fun _ =>
  match v with
  | zeroValue => Panicked "reflect: call on zero Value"
  | mkValue t _ a ro =>
      let store z := Done (mkValue t (DUint z) a ro) in
      match kind_of t with
      | Uint | Uintptr => store (x mod 2 ^ Int.size)
      | Uint8 => store (x mod 2 ^ 8)
      | Uint16 => store (x mod 2 ^ 16)
      | Uint32 => store (x mod 2 ^ 32)
      | Uint64 => store (x mod 2 ^ 64)
      | _ => Panicked "reflect: call of reflect.Value.SetUint on non-uint Value"
      end
  end).

(** [v.SetFloat(x)] *)
Definition SetFloat (v : Value) (x : float64) : outcome Value :=
  obind (mustBeAssignable v) (fun _ =>
  match v with
  | zeroValue => Panicked "reflect: call on zero Value"
  | mkValue t _ a ro =>
      match kind_of t with
      | Float32 => Done (mkValue t (DFloat (to_float32 x)) a ro)
      | Float64 => Done (mkValue t (DFloat x) a ro)
      | _ => Panicked "reflect: call of reflect.Value.SetFloat on non-float Value"
      end
  end).

(** *** Slices *)

(** [reflect.MakeSlice(typ, len, cap)]: [len] zero elements.  Memory is
    taken to be unbounded. *)
Definition MakeSlice (typ : rtype) (len cap : Z) : outcome Value :=
  match typ with
  | TSlice _ e =>
      if len <? 0 then Panicked "reflect.MakeSlice: negative len"
      else if cap <? 0 then Panicked "reflect.MakeSlice: negative cap"
      else if cap <? len then Panicked "reflect.MakeSlice: len > cap"
      else Done (mkValue typ (DSlice (Some (repeat (zero e) (Z.to_nat len)))) false false)
  | _ => Panicked "reflect.MakeSlice of non-slice type"
  end.

Definition slice_elems (d : data) : list data :=
  match d with DSlice (Some l) => l | _ => [] end.

(** [v.Index(i)] on a slice: the element, addressable. *)
Definition Index (v : Value) (i : Z) : outcome Value :=
  match v with
  | mkValue (TSlice _ e) d _ ro =>
      if (0 <=? i) && (i <? Z.of_nat (List.length (slice_elems d))) then
        match nth_error (slice_elems d) (Z.to_nat i) with
        | Some x => Done (mkValue e x true ro)
        | None => Panicked "reflect: slice index out of range"
        end
      else Panicked "reflect: slice index out of range"
  | _ => Panicked "reflect: call of reflect.Value.Index on non-slice Value"
  end.

Fixpoint list_set {A} (l : list A) (n : nat) (x : A) : list A :=
  match l, n with
  | [], _ => []
  | _ :: l', O => x :: l'
  | y :: l', S n' => y :: list_set l' n' x
  end.

(** [v.Index(i).Set(x)]: the element is a location of the slice's
    array, so the assignment shows in [v]; the slice after it. *)
Definition Index_Set (v : Value) (i : Z) (x : Value) : outcome Value :=
  obind (Index v i) (fun e =>
  obind (Set_ e x) (fun e' =>
  match v with
  | mkValue t d a ro =>
      Done (mkValue t (DSlice (Some (list_set (slice_elems d) (Z.to_nat i) (data_of e')))) a ro)
  | zeroValue => Panicked "reflect: call on zero Value"
  end)).

(** [reflect.Append(s, x)]: [x] must be assignable to the element
    type. *)
Definition Append (s x : Value) : outcome Value :=
  match s with
  | mkValue (TSlice n e) d _ _ =>
      obind (mustBeExported s) (fun _ =>
      obind (mustBeExported x) (fun _ =>
      obind (assignTo "reflect.Set" x e) (fun dx =>
      Done (mkValue (TSlice n e) (DSlice (Some (slice_elems d ++ [dx]))) false false))))
  | _ => Panicked "reflect: call of reflect.Append on non-slice Value"
  end.

(** *** Structs *)

(** The first field called [name]; the empty name finds nothing. *)
Fixpoint find_field (fs : list (StructField rtype)) (name : string) (i : nat)
    : option (nat * StructField rtype) :=
  match fs with
  | [] => None
  | f :: fs' =>
      if String.eqb (Name f) name then Some (i, f)
      else find_field fs' name (S i)
  end.

Definition field_by_name (fs : list (StructField rtype)) (name : string)
    : option (nat * StructField rtype) :=
  if String.eqb name "" then None else find_field fs name 0.

Definition struct_fields (d : data) : list data :=
  match d with DStruct l => l | _ => [] end.

(** [v.FieldByName(name)]: the field as a location of [v] (addressable
    when [v] is), read-only when the field is not exported; the zero
    Value when there is no such field. *)
Definition FieldByName (v : Value) (name : string) : outcome Value :=
  match v with
  | mkValue (TStruct _ fs) d a ro =>
      match field_by_name fs name with
      | None => Done zeroValue
      | Some (i, f) =>
          Done (mkValue (Typ f) (nth i (struct_fields d) (zero (Typ f))) a
                  (ro || negb (String.eqb (PkgPath f) "")))
      end
  | _ => Panicked "reflect: call of reflect.Value.FieldByName on non-struct Value"
  end.

(** [v.FieldByName(name).Set(x)]: the struct after the assignment to
    its field. *)
Definition FieldByName_Set (v : Value) (name : string) (x : Value) : outcome Value :=
  obind (FieldByName v name) (fun fv =>
  obind (Set_ fv x) (fun fv' =>
  match v with
  | mkValue (TStruct n fs) d a ro =>
      match field_by_name fs name with
      | Some (i, _) =>
          Done (mkValue (TStruct n fs) (DStruct (list_set (struct_fields d) i (data_of fv'))) a ro)
      | None => Panicked "reflect: call on zero Value"
      end
  | _ => Panicked "reflect: call of reflect.Value.FieldByName on non-struct Value"
  end)).

(** *** Maps *)

Definition list_eqb {A} (eqb : A -> A -> bool) : list A -> list A -> bool :=
  fix go (l1 l2 : list A) : bool :=
    match l1, l2 with
    | [], [] => true
    | x :: l1', y :: l2' => eqb x y && go l1' l2'
    | _, _ => false
    end.

(** Go's [==] on the values a map key can hold.  Two pointers are equal
    when both are nil: every other pointer the binder makes points to a
    variable of its own. *)
Fixpoint data_eqb (a b : data) {struct a} : bool :=
  match a, b with
  | DBool x, DBool y => Bool.eqb x y
  | DInt x, DInt y => x =? y
  | DUint x, DUint y => x =? y
  | DFloat x, DFloat y => float64_eqb x y
  | DComplex r i, DComplex r' i' => float64_eqb r r' && float64_eqb i i'
  | DString x, DString y => String.eqb x y
  | DPtr None, DPtr None => true
  | DStruct xs, DStruct ys => list_eqb data_eqb xs ys
  | DArray xs, DArray ys => list_eqb data_eqb xs ys
  | DIface None, DIface None => true
  | DIface (Some (t, x)), DIface (Some (t', y)) => rtype_eqb t t' && data_eqb x y
  | DNil, DNil => true
  | _, _ => false
  end.

(** [reflect.MakeMap(typ)]: an empty map that is not nil. *)
Definition MakeMap (typ : rtype) : outcome Value :=
  match typ with
  | TMap _ _ _ => Done (mkValue typ (DMap (Some [])) false false)
  | _ => Panicked "reflect.MakeMap of non-map type"
  end.

(** The assignment [m[k] = v] on the entries of a map.  An entry whose
    key is [==] to [k] takes the value and the key too: the runtime
    writes the key again for the types of keys in which two keys can be
    [==] and differ ([+0] and [-0] in a float, a complex, an interface),
    and for the others the old key and [k] are the same. *)
Fixpoint map_assign (m : list (data * data)) (k v : data) : list (data * data) :=
  match m with
  | [] => [(k, v)]
  | (k0, v0) :: m' =>
      if data_eqb k0 k then (k, v) :: m' else (k0, v0) :: map_assign m' k v
  end.

Definition map_delete (m : list (data * data)) (k : data) : list (data * data) :=
  filter (fun e => negb (data_eqb (fst e) k)) m.

(** The index expression [m[k]]. *)
Fixpoint map_lookup (m : list (data * data)) (k : data) : option data :=
  match m with
  | [] => None
  | (k0, v0) :: m' => if data_eqb k0 k then Some v0 else map_lookup m' k
  end.

Definition map_entries (d : data) : list (data * data) :=
  match d with DMap (Some m) => m | _ => [] end.

(** [v.SetMapIndex(key, elem)]: the map after the call.  (A key the
    binder makes never holds an interface with an unhashable dynamic
    type, the one case in which the insertion itself panics.) *)
Definition SetMapIndex (v key elem : Value) : outcome Value :=
  match v with
  | mkValue (TMap n kt et) d a ro =>
      obind (mustBeExported v) (fun _ =>
      obind (mustBeExported key) (fun _ =>
      obind (assignTo "reflect.Value.SetMapIndex" key kt) (fun dk =>
      match elem with
      | zeroValue =>
          Done (mkValue (TMap n kt et)
                  (match d with DMap (Some m) => DMap (Some (map_delete m dk)) | _ => d end)
                  a ro)
      | _ =>
          obind (mustBeExported elem) (fun _ =>
          obind (assignTo "reflect.Value.SetMapIndex" elem et) (fun de =>
          match d with
          | DMap (Some m) =>
              Done (mkValue (TMap n kt et) (DMap (Some (map_assign m dk de))) a ro)
          | _ => Panicked "assignment to entry in nil map"
          end))
      end)))
  | _ => Panicked "reflect: call of reflect.Value.SetMapIndex on non-map Value"
  end.
End WithPlatform.
End reflect.

(** ** Package [net/url]: [Values] *)

Module url.

(** A [map[string][]string], as the list of its entries in the order a
    [range] loop visits them. *)
Definition Values := list (string * list string).

(** The keys of a map are pairwise distinct. *)
Definition wf (v : Values) : Prop := NoDup (map fst v).

(** The index expression [v[key]]. *)
Fixpoint lookup (v : Values) (key : string) : option (list string) :=
  match v with
  | [] => None
  | (k, vs) :: v' => if String.eqb k key then Some vs else lookup v' key
  end.

(** The entries whose key starts with [pre], in the order of the map. *)
Definition with_prefix (pre : string) (v : Values) : Values :=
  filter (fun e => strings.HasPrefix (fst e) pre) v.

(** [Values.Get]: the first value under [key], or the empty string. *)
Definition Get (v : Values) (key : string) : string :=
  match lookup v key with
  | Some (x :: _) => x
  | _ => ""
  end.
End url.

(** ** The request and the input *)

(** What [Bind] reads of an [http.Request]: the field [Form], [None]
    while it is nil, and the values that [Request.ParseForm] decodes from
    the URL and the body when it is called. *)
Record Request : Type := mkRequest {
  Form : option url.Values;
  decoded : url.Values
}.

(** [Request.ParseForm]: fills [Form] unless it is already there. *)
Definition ParseForm (r : Request) : Request :=
  match Form r with
  | Some _ => r
  | None => {| Form := Some (decoded r); decoded := decoded r |}
  end.

(** [BeegoInput], without the fields [Bind] never touches (the session,
    [Data], the raw body, the controller's type and method). *)
Record BeegoInput : Type := mkInput {
  Params : list (string * string);
  Request_ : Request
}.

(** ** The monad of the binder: the input is state, a panic ends the run *)

Definition M (A : Type) : Type := BeegoInput -> BeegoInput * outcome A.

Definition ret {A} (a : A) : M A := fun input => (input, Done a).

Definition panic {A} (msg : string) : M A := fun input => (input, Panicked msg).

Definition lift {A} (o : outcome A) : M A := fun input => (input, o).

Definition mbind {A B} (m : M A) (k : A -> M B) : M B :=
  fun input =>
    match m input with
    | (input', Done a) => k a input'
    | (input', Panicked msg) => (input', Panicked msg)
    end.

Declare Scope binder_scope.
Delimit Scope binder_scope with binder.
Notation "x <- m ;; k" := (mbind m (fun x => k))
  (at level 61, m at next level, right associativity) : binder_scope.
Local Open Scope binder_scope.

(** A [for ... range] loop over [l] whose body updates the loop's
    variables [a]. *)
Fixpoint foldM {A B} (body : A -> B -> M A) (l : list B) (a : A) : M A :=
  match l with
  | [] => ret a
  | x :: l' => a' <- body a x ;; foldM body l' a'
  end.

(** The loop [for _, x := range l] that binds every [x] and collects the
    results in order. *)
Fixpoint mapM {A B} (f : A -> M B) (l : list A) : M (list B) :=
  match l with
  | [] => ret []
  | x :: l' => y <- f x ;; ys <- mapM f l' ;; ret (y :: ys)
  end.

(** ** The binder *)

Module Binder.
Import reflect.

Section WithPlatform.
Context {P : Platform}.

(** [input.Param(key)] *)
Fixpoint lookup_param (ps : list (string * string)) (key : string) : option string :=
  match ps with
  | [] => None
  | (k, v) :: ps' => if String.eqb k key then Some v else lookup_param ps' key
  end.

Definition Param (input : BeegoInput) (key : string) : string :=
  match lookup_param (Params input) key with
  | Some v => v
  | None => ""
  end.

(** [input.Query(key)]: the route parameter when it is not empty,
    otherwise the first form value, after parsing the form when
    [Request.Form] is still nil. *)
Definition Query (key : string) : M string :=
  fun input =>
    let val := Param input key in
    if negb (String.eqb val "") then (input, Done val)
    else
      let input' :=
        match Form (Request_ input) with
        | None => {| Params := Params input; Request_ := ParseForm (Request_ input) |}
        | Some _ => input
        end in
      (input', Done (url.Get (match Form (Request_ input') with
                              | Some f => f
                              | None => []
                              end) key)).

(** [&input.Request.Form], read where a [range] loop starts; a nil map
    has no entry. *)
Definition Request_Form : M url.Values :=
  fun input =>
    (input, Done (match Form (Request_ input) with Some f => f | None => [] end)).

(** The index expression [vals[0]]. *)
Definition index0 (vals : list string) : M string :=
  match vals with
  | v :: _ => ret v
  | [] => panic "runtime error: index out of range"
  end.

(** [reflect.Zero(reflect.TypeOf(0))], the value [bind] and [bindValue]
    start from. *)
Definition rv0 : Value := Zero int_type.

(** *** The scalar binders *)

Definition bindInt (val : string) (typ : rtype) : M Value :=
  match strconv.ParseInt val 64 with
  | (_, Some _) => ret (Zero typ)
  | (intValue, None) =>
      pValue <- ret (New typ) ;;
      e <- lift (Elem pValue) ;;
      lift (SetInt e intValue)
  end.

Definition bindUint (val : string) (typ : rtype) : M Value :=
  match strconv.ParseUint val 64 with
  | (_, Some _) => ret (Zero typ)
  | (uintValue, None) =>
      pValue <- ret (New typ) ;;
      e <- lift (Elem pValue) ;;
      lift (SetUint e uintValue)
  end.

Definition bindFloat (val : string) (typ : rtype) : M Value :=
  match ParseFloat64 val with
  | None => ret (Zero typ)
  | Some floatValue =>
      pValue <- ret (New typ) ;;
      e <- lift (Elem pValue) ;;
      lift (SetFloat e floatValue)
  end.

Definition bindString (val : string) (typ : rtype) : M Value :=
  ret (ValueOf (Some (string_type, DString val))).

Definition is_true_literal (val : string) : bool :=
  String.eqb val "true" || String.eqb val "on" || String.eqb val "1".

Definition bindBool (val : string) (typ : rtype) : M Value :=
  let val := strings.TrimSpace (strings.ToLower val) in
  if is_true_literal val
  then ret (ValueOf (Some (bool_type, DBool true)))
  else ret (ValueOf (Some (bool_type, DBool false))).

(** *** The composite binders, over the binders of their components *)

(** [index] is -1 when the brackets held no index. *)
Record sliceValue : Type := mkSliceValue {
  index : Z;
  value : Value
}.

(** The variables of [bindSlice]'s first loop. *)
Record sliceScan : Type := mkScan {
  maxIndex : Z;
  numNoIndex : Z;
  sliceValues : list sliceValue
}.

Section Slice.
(** [input.bind(_, typ.Elem())] and [input.bindValue(_, typ.Elem())] *)
Variables bindElem bindValueElem : string -> M Value.

(** The position of the closing bracket, [rightBracket]. *)
Definition rightBracket (key reqKey : string) : Z :=
  strings.Index (strings.slice_from reqKey (strings.len key)) "]" + strings.len key.

(** The index between the brackets: -1 when there is nothing between
    them (or no closing bracket), otherwise what [strconv.Atoi]
    returns, its error dropped. *)
Definition bracketIndex (key reqKey : string) : Z :=
  let leftBracket := strings.len key in
  if leftBracket + 1 <? rightBracket key reqKey
  then fst (strconv.Atoi (strings.slice reqKey (leftBracket + 1) (rightBracket key reqKey)))
  else -1.

(** One round of the first loop of [bindSlice]. *)
Definition bindSlice_entry (key : string) (acc : sliceScan)
    (entry : string * list string) : M sliceScan :=
  let '(reqKey, vals) := entry in
  if negb (strings.HasPrefix reqKey (key ++ "[")) then ret acc
  else
    let index := bracketIndex key reqKey in
    let subKeyIndex := rightBracket key reqKey + 1 in
    if -1 <? index then
      let maxIndex' := if maxIndex acc <? index then index else maxIndex acc in
      v <- bindElem (strings.slice_to reqKey subKeyIndex) ;;
      ret {| maxIndex := maxIndex';
             numNoIndex := numNoIndex acc;
             sliceValues := sliceValues acc ++ [mkSliceValue index v] |}
    else
      svs <- foldM (fun svs val =>
                      v <- bindValueElem val ;;
                      ret (svs ++ [mkSliceValue (-1) v]))
                   vals (sliceValues acc) ;;
      ret {| maxIndex := maxIndex acc;
             numNoIndex := Int.add (numNoIndex acc) (Z.of_nat (List.length vals));
             sliceValues := svs |}.

(** One round of the second loop. *)
Definition bindSlice_place (resultArray : Value) (sv : sliceValue) : M Value :=
  if negb (index sv =? -1)
  then lift (Index_Set resultArray (index sv) (value sv))
  else lift (Append resultArray (value sv)).

Definition bindSlice_with (params : url.Values) (key : string) (typ : rtype)
    : M Value :=
  scan <- foldM (bindSlice_entry key) params (mkScan (-1) 0 []) ;;
  resultArray <- lift (MakeSlice typ (Int.add (maxIndex scan) 1)
                         (Int.add (Int.add (maxIndex scan) 1) (numNoIndex scan))) ;;
  foldM bindSlice_place (sliceValues scan) resultArray.
End Slice.

(** The variables of [bindStruct]'s loop: [result] and the keys of
    [fieldValues]. *)
Record structScan : Type := mkStructScan {
  result : Value;
  fieldValues : list string
}.

Section Struct.
(** [input.bindValue(_, t)] for the type [t] of a field, given the
    field's position. *)
Variable bindValueField : nat -> string -> M Value.

Definition field_position (typ : rtype) (fieldName : string) : nat :=
  match typ with
  | TStruct _ fs =>
      match field_by_name fs fieldName with
      | Some (i, _) => i
      | None => 0%nat
      end
  | _ => 0%nat
  end.

(** One round of the loop of [bindStruct]. *)
Definition bindStruct_entry (key : string) (typ : rtype) (acc : structScan)
    (entry : string * list string) : M structScan :=
  let '(reqKey, val) := entry in
  if negb (strings.HasPrefix reqKey (key ++ ".")) then ret acc
  else
    let fieldName := strings.slice_from reqKey (strings.len key + 1) in
    if existsb (String.eqb fieldName) (fieldValues acc) then ret acc
    else
      fieldValue <- lift (FieldByName (result acc) fieldName) ;;
      if negb (IsValid fieldValue) then ret acc
      else if negb (CanSet fieldValue) then ret acc
      else
        val0 <- index0 val ;;
        boundVal <- bindValueField (field_position typ fieldName) val0 ;;
        result' <- lift (FieldByName_Set (result acc) fieldName boundVal) ;;
        ret {| result := result'; fieldValues := fieldName :: fieldValues acc |}.

Definition bindStruct_with (params : url.Values) (key : string) (typ : rtype)
    : M Value :=
  result0 <- lift (Elem (New typ)) ;;
  scan <- foldM (bindStruct_entry key typ) params (mkStructScan result0 []) ;;
  ret (result scan).
End Struct.

Section Pointer.
(** [input.bind(_, typ.Elem())] *)
Variable bindElem : string -> M Value.

Definition bindPoint_with (key : string) : M Value :=
  v <- bindElem key ;;
  lift (Addr v).
End Pointer.

Section Map.
(** [input.bindValue(_, typ.Key())] and [input.bindValue(_, typ.Elem())] *)
Variables bindValueKey bindValueElem : string -> M Value.

Definition ends_with_bracket (paramName : string) : bool :=
  match strings.last_byte paramName with
  | Some c => Ascii.eqb c "]"
  | None => false
  end.

(** One round of the loop of [bindMap]. *)
Definition bindMap_entry (key : string) (result : Value)
    (entry : string * list string) : M Value :=
  let '(paramName, values) := entry in
  if negb (strings.HasPrefix paramName (key ++ "["))
     || negb (ends_with_bracket paramName)
  then ret result
  else
    let key' := strings.slice paramName (strings.len key + 1)
                  (strings.len paramName - 1) in
    k <- bindValueKey key' ;;
    v0 <- index0 values ;;
    v <- bindValueElem v0 ;;
    lift (SetMapIndex result k v).

Definition bindMap_with (params : url.Values) (key : string) (typ : rtype)
    : M Value :=
  result0 <- lift (MakeMap typ) ;;
  foldM (bindMap_entry key) params result0.
End Map.

(** *** The dispatchers

    [bind] and [bindValue] switch on [typ.Kind()]; the kinds of one case
    are the kinds of one constructor of [rtype].  Both recur on the
    types of elements, keys and fields only. *)

Definition field_binders (bindValue : string -> rtype -> M Value)
    (fs : list (StructField rtype)) (i : nat) (val : string) : M Value :=
  nth i (map (fun f val => bindValue val (Typ f)) fs) (fun _ => ret rv0) val.

Fixpoint bind (key : string) (typ : rtype) {struct typ} : M Value :=
  let rv := rv0 in
  match typ with
  | TInt _ _ =>
      val <- Query key ;;
      if strings.len val =? 0 then ret rv else bindInt val typ
  | TUint _ _ =>
      val <- Query key ;;
      if strings.len val =? 0 then ret rv else bindUint val typ
  | TFloat _ _ =>
      val <- Query key ;;
      if strings.len val =? 0 then ret rv else bindFloat val typ
  | TString _ =>
      val <- Query key ;;
      if strings.len val =? 0 then ret rv else bindString val typ
  | TBool _ =>
      val <- Query key ;;
      if strings.len val =? 0 then ret rv else bindBool val typ
  | TSlice _ e =>
      params <- Request_Form ;;
      bindSlice_with (fun k => bind k e) (fun v => bindValue v e) params key typ
  | TStruct _ fs =>
      params <- Request_Form ;;
      bindStruct_with
        (fun i v => nth i (map (fun f v => bindValue v (Typ f)) fs) (fun _ => ret rv0) v)
        params key typ
  | TPtr _ e => bindPoint_with (fun k => bind k e) key
  | TMap _ k e =>
      params <- Request_Form ;;
      bindMap_with (fun v => bindValue v k) (fun v => bindValue v e) params key typ
  | _ => ret rv
  end

with bindValue (val : string) (typ : rtype) {struct typ} : M Value :=
  let rv := rv0 in
  match typ with
  | TInt _ _ => bindInt val typ
  | TUint _ _ => bindUint val typ
  | TFloat _ _ => bindFloat val typ
  | TString _ => bindString val typ
  | TBool _ => bindBool val typ
  | TSlice _ e =>
      bindSlice_with (fun k => bind k e) (fun v => bindValue v e)
        [("", [val])] "" typ
  | TStruct _ fs =>
      bindStruct_with
        (fun i v => nth i (map (fun f v => bindValue v (Typ f)) fs) (fun _ => ret rv0) v)
        [("", [val])] "" typ
  | TPtr _ e => bindPoint_with (fun k => bind k e) val
  | TMap _ k e =>
      bindMap_with (fun v => bindValue v k) (fun v => bindValue v e)
        [("", [val])] "" typ
  | _ => ret rv
  end.

(** The kinds of the first five cases of the switch: the scalars, which
    [bind] reads with [Query]. *)
Definition scalar (typ : rtype) : bool :=
  match typ with
  | TInt _ _ | TUint _ _ | TFloat _ _ | TString _ | TBool _ => true
  | _ => false
  end.

(** The kinds the switch has a case for. *)
Definition bindable (typ : rtype) : bool :=
  match typ with
  | TSlice _ _ | TStruct _ _ | TPtr _ _ | TMap _ _ _ => true
  | _ => scalar typ
  end.

(** *** The composite binders, as the source names them *)

Definition bindSlice (params : url.Values) (key : string) (typ : rtype) : M Value :=
  match typ with
  | TSlice _ e =>
      bindSlice_with (fun k => bind k e) (fun v => bindValue v e) params key typ
  | _ => panic "reflect: Elem of invalid type"
  end.

Definition bindStruct (params : url.Values) (key : string) (typ : rtype) : M Value :=
  match typ with
  | TStruct _ fs => bindStruct_with (field_binders bindValue fs) params key typ
  | _ => panic "reflect: call of reflect.Value.FieldByName on non-struct Value"
  end.

Definition bindPoint (key : string) (typ : rtype) : M Value :=
  match typ with
  | TPtr _ e => bindPoint_with (fun k => bind k e) key
  | _ => panic "reflect: Elem of invalid type"
  end.

Definition bindMap (params : url.Values) (key : string) (typ : rtype) : M Value :=
  match typ with
  | TMap _ k e =>
      bindMap_with (fun v => bindValue v k) (fun v => bindValue v e) params key typ
  | _ => panic "reflect.MakeMap of non-map type"
  end.

(** *** The entry point *)

(** A Go [error]: [None] is nil. *)
Definition error := option string.

(** The argument [dest], an [interface{}]: [None] is nil, otherwise a
    dynamic type and a value; a pointer value holds the contents of the
    variable it points to. *)
Definition iface := option (rtype * data).

(** [dest] after the variable it points to was assigned [d]. *)
Definition assign_pointee (dest : iface) (d : data) : iface :=
  match dest with
  | Some (t, DPtr (Some _)) => Some (t, DPtr (Some d))
  | _ => dest
  end.

(** [input.Bind(dest, key)]: the error returned, and [dest] after the
    call. *)
Definition Bind (dest : iface) (key : string) : M (error * iface) :=
  let value := ValueOf dest in
  if negb (if Kind_eq_dec (Kind_ value) Ptr then true else false) then
    ret (Some ("beego: non-pointer passed to Bind: " ++ key)%string, dest)
  else
    value <- lift (Elem value) ;;
    if negb (CanSet value) then
      ret (Some ("beego: non-settable variable passed to Bind: " ++ key)%string, dest)
    else
      typ <- lift (Type_ value) ;;
      rv <- bind key typ ;;
      if negb (IsValid rv) then
        ret (Some "beego: reflect value is empty", dest)
      else
        value' <- lift (Set_ value rv) ;;
        ret (None, assign_pointee dest (data_of value')).
End WithPlatform.
End Binder.

(** ** A platform: Go 1.3 on amd64

    The instance at which the closed examples below are evaluated.  Floats
    are IEEE 754 binary64 numbers ([spec_float]); [strconv.ParseFloat] is
    the decimal grammar of Go 1.3 with correct rounding; the Unicode
    tables are cut down to the blocks named at [to_lower_rune]. *)

Module Go13.

(** *** [strconv.ParseFloat] *)

(** The variables of [readFloat]'s loop over the mantissa: the digits
    read so far as a number, how many of them follow the point, and the
    flags [sawdot] and [sawdigits]. *)
Record floatScan : Type := mkFloatScan {
  mant : Z;
  frac : Z;
  sawdot : bool;
  sawdigits : bool
}.

(** Digits with at most one point; the scan and what follows it. *)
Fixpoint readMantissa (s : string) (acc : floatScan) : option (floatScan * string) :=
  match s with
  | EmptyString => Some (acc, s)
  | String c s' =>
      if Ascii.eqb c "." then
        if sawdot acc then None
        else readMantissa s' (mkFloatScan (mant acc) (frac acc) true (sawdigits acc))
      else
        match strconv.digit_of c with
        | Some d =>
            readMantissa s'
              (mkFloatScan (mant acc * 10 + d)
                 (if sawdot acc then frac acc + 1 else frac acc) (sawdot acc) true)
        | None => Some (acc, s)
        end
  end.

(** The digits of the exponent; it stops growing at 10000. *)
Fixpoint readExponent (s : string) (e : Z) : option Z :=
  match s with
  | EmptyString => Some e
  | String c s' =>
      match strconv.digit_of c with
      | Some d => readExponent s' (if e <? 10000 then e * 10 + d else e)
      | None => None
      end
  end.

Definition strip_sign (s : string) : bool * string :=
  match s with
  | String c s' =>
      if Ascii.eqb c "+" then (false, s')
      else if Ascii.eqb c "-" then (true, s')
      else (false, s)
  | EmptyString => (false, s)
  end.

(** [readFloat]: the sign, the mantissa and the decimal exponent of a
    well-formed literal. *)
Definition readFloat (s : string) : option (bool * Z * Z) :=
  let '(neg, s1) := strip_sign s in
  match readMantissa s1 (mkFloatScan 0 0 false false) with
  | None => None
  | Some (sc, rest) =>
      if negb (sawdigits sc) then None
      else
        match rest with
        | EmptyString => Some (neg, mant sc, - frac sc)
        | String c rest' =>
            if Ascii.eqb c "e" || Ascii.eqb c "E" then
              let '(eneg, digits) := strip_sign rest' in
              match digits with
              | EmptyString => None
              | _ =>
                  match readExponent digits 0 with
                  | Some e => Some (neg, mant sc, (if eneg then - e else e) - frac sc)
                  | None => None
                  end
              end
            else None
        end
  end.

(** The binary64 number nearest to [m * 10 ^ e10], ties to even. *)
Definition round64 (m e10 : Z) : spec_float :=
  match m with
  | Zpos p =>
      if 0 <=? e10 then binary_normalize 53 1024 (m * 10 ^ e10) 0 false
      else
        match 10 ^ (- e10) with
        | Zpos q => SFdiv 53 1024 (S754_finite false p 0) (S754_finite false q 0)
        | _ => S754_nan
        end
  | _ => S754_zero false
  end.

(** [special]: the infinities and NaN, whatever the case of the letters. *)
Definition special (s : string) : option spec_float :=
  let l := strings.lower_ascii s in
  if String.eqb l "inf" || String.eqb l "+inf"
     || String.eqb l "infinity" || String.eqb l "+infinity"
  then Some (S754_infinity false)
  else if String.eqb l "-inf" || String.eqb l "-infinity"
  then Some (S754_infinity true)
  else if String.eqb l "nan" then Some S754_nan
  else None.

(** [strconv.ParseFloat(s, 64)]: [None] on a syntax error and on a range
    error (a literal that rounds to an infinity). *)
Definition ParseFloat (s : string) : option spec_float :=
  match special s with
  | Some f => Some f
  | None =>
      match readFloat s with
      | None => None
      | Some (neg, m, e10) =>
          match (if neg then SFopp (round64 m e10) else round64 m e10) with
          | S754_infinity _ => None
          | f => Some f
          end
      end
  end.

(** [float64(float32(x))]: rounding to 24 bits of precision. *)
Definition round32 (x : spec_float) : spec_float :=
  match x with
  | S754_finite s m e => binary_round 24 128 s m e
  | _ => x
  end.

(** *** UTF-8 and the Unicode tables *)

Definition RuneError : Z := 65533.

Definition cont (c : ascii) : option Z :=
  let n := Z.of_nat (nat_of_ascii c) in
  if (128 <=? n) && (n <=? 191) then Some (n - 128) else None.

Definition in_range (c : ascii) (lo hi : Z) : bool :=
  let n := Z.of_nat (nat_of_ascii c) in (lo <=? n) && (n <=? hi).

(** [utf8.DecodeRuneInString]: the first rune of [s] and its width in
    bytes; an ill-formed sequence is [RuneError] of width 1. *)
Definition DecodeRune (s : string) : Z * nat :=
  match s with
  | EmptyString => (RuneError, 0%nat)
  | String b0 s1 =>
      let n0 := Z.of_nat (nat_of_ascii b0) in
      if n0 <? 128 then (n0, 1%nat)
      else
        match s1 with
        | String b1 s2 =>
            if (194 <=? n0) && (n0 <=? 223) then
              match cont b1 with
              | Some c1 => ((n0 - 192) * 64 + c1, 2%nat)
              | None => (RuneError, 1%nat)
              end
            else
              match s2 with
              | String b2 s3 =>
                  if (224 <=? n0) && (n0 <=? 239) then
                    if in_range b1 (if n0 =? 224 then 160 else 128)
                                   (if n0 =? 237 then 159 else 191) then
                      match cont b1, cont b2 with
                      | Some c1, Some c2 =>
                          ((n0 - 224) * 4096 + c1 * 64 + c2, 3%nat)
                      | _, _ => (RuneError, 1%nat)
                      end
                    else (RuneError, 1%nat)
                  else
                    match s3 with
                    | String b3 _ =>
                        if (240 <=? n0) && (n0 <=? 244)
                           && in_range b1 (if n0 =? 240 then 144 else 128)
                                          (if n0 =? 244 then 143 else 191) then
                          match cont b1, cont b2, cont b3 with
                          | Some c1, Some c2, Some c3 =>
                              ((n0 - 240) * 262144 + c1 * 4096 + c2 * 64 + c3, 4%nat)
                          | _, _, _ => (RuneError, 1%nat)
                          end
                        else (RuneError, 1%nat)
                    | EmptyString => (RuneError, 1%nat)
                    end
              | EmptyString => (RuneError, 1%nat)
              end
        | EmptyString => (RuneError, 1%nat)
        end
  end.

Definition byte (n : Z) : ascii := ascii_of_nat (Z.to_nat n).

(** [utf8.EncodeRune] *)
Definition EncodeRune (r : Z) : string :=
  if r <? 128 then String (byte r) EmptyString
  else if r <? 2048 then
    String (byte (192 + r / 64)) (String (byte (128 + r mod 64)) EmptyString)
  else if r <? 65536 then
    String (byte (224 + r / 4096))
      (String (byte (128 + (r / 64) mod 64))
         (String (byte (128 + r mod 64)) EmptyString))
  else
    String (byte (240 + r / 262144))
      (String (byte (128 + (r / 4096) mod 64))
         (String (byte (128 + (r / 64) mod 64))
            (String (byte (128 + r mod 64)) EmptyString))).

(** The runes of a string, each with the bytes that spell it. *)
Fixpoint runes_fuel (fuel : nat) (s : string) : list (Z * string) :=
  match fuel, s with
  | O, _ | _, EmptyString => []
  | S fuel', _ =>
      let '(r, w) := DecodeRune s in
      (r, substring 0 w s) :: runes_fuel fuel' (substring w (String.length s - w) s)
  end.

Definition runes (s : string) : list (Z * string) :=
  runes_fuel (String.length s) s.

(** [unicode.IsSpace] *)
Definition IsSpace (r : Z) : bool :=
  ((9 <=? r) && (r <=? 13)) || (r =? 32) || (r =? 133) || (r =? 160)
  || (r =? 5760) || ((8192 <=? r) && (r <=? 8202))
  || (r =? 8232) || (r =? 8233) || (r =? 8239) || (r =? 8287) || (r =? 12288).

(** [unicode.ToLower], with the case table cut down to ASCII, Latin-1,
    Greek, Cyrillic and the Kelvin, Angstrom and Ohm signs. *)
Definition to_lower_rune (r : Z) : Z :=
  if (65 <=? r) && (r <=? 90) then r + 32
  else if (192 <=? r) && (r <=? 222) && negb (r =? 215) then r + 32
  else if (913 <=? r) && (r <=? 939) && negb (r =? 930) then r + 32
  else if (1024 <=? r) && (r <=? 1039) then r + 80
  else if (1040 <=? r) && (r <=? 1071) then r + 32
  else if r =? 8490 then 107
  else if r =? 8491 then 229
  else if r =? 8486 then 969
  else r.

Definition concat_bytes (l : list (Z * string)) : string :=
  fold_right (fun x acc => (snd x ++ acc)%string) EmptyString l.

(** [strings.Map(unicode.ToLower, s)]: an ill-formed byte comes out as
    the encoding of [RuneError]. *)
Definition Map_ToLower (s : string) : string :=
  fold_right
    (fun x acc =>
       let r' := to_lower_rune (fst x) in
       let bytes :=
         if (r' =? fst x) && negb (fst x =? RuneError) then snd x
         else EncodeRune r' in
       (bytes ++ acc)%string)
    EmptyString (runes s).

Fixpoint drop_space (l : list (Z * string)) : list (Z * string) :=
  match l with
  | x :: l' => if IsSpace (fst x) then drop_space l' else l
  | [] => []
  end.

(** [strings.TrimRightFunc(s, unicode.IsSpace)], the string decoded front
    to back. *)
Definition TrimRightFunc_IsSpace (s : string) : string :=
  concat_bytes (rev (drop_space (rev (runes s)))).

(** [strings.TrimFunc(s, unicode.IsSpace)] *)
Definition TrimFunc_IsSpace (s : string) : string :=
  concat_bytes (rev (drop_space (rev (drop_space (runes s))))).

(** *** Go's [==] on [float64] *)

Lemma SFeqb_finite s1 m1 e1 s2 m2 e2 :
  SFeqb (S754_finite s1 m1 e1) (S754_finite s2 m2 e2) = true ->
  s1 = s2 /\ m1 = m2 /\ e1 = e2.
Proof.
  unfold SFeqb, SFcompare.
  destruct s1, s2; try discriminate;
    destruct (Z.compare_spec e1 e2); try discriminate;
    destruct (Pos.compare_cont Eq m1 m2) eqn:Hm; try discriminate;
    intros _; apply Pos.compare_eq in Hm; auto.
Qed.

Lemma SFeqb_sym x y : SFeqb x y = SFeqb y x.
Proof.
  destruct x as [s1| s1| |s1 m1 e1], y as [s2| s2| |s2 m2 e2];
    try reflexivity; try (destruct s1, s2; reflexivity).
  unfold SFeqb, SFcompare.
  rewrite (Z.compare_antisym e1 e2).
  change (Pos.compare_cont Eq m2 m1) with (Pos.compare m2 m1).
  change (Pos.compare_cont Eq m1 m2) with (Pos.compare m1 m2).
  rewrite (Pos.compare_antisym m1 m2).
  destruct s1, s2; try reflexivity;
    destruct (e1 ?= e2); simpl; try reflexivity;
    destruct (Pos.compare m1 m2); reflexivity.
Qed.

Lemma SFeqb_trans x y z : SFeqb x y = true -> SFeqb y z = true -> SFeqb x z = true.
Proof.
  destruct x as [s1| s1| |s1 m1 e1], y as [s2| s2| |s2 m2 e2],
    z as [s3| s3| |s3 m3 e3]; try discriminate; try reflexivity;
    try (destruct s1, s2, s3; (discriminate || reflexivity));
    try (destruct s1; discriminate); try (destruct s2; discriminate).
  intros H1 H2. apply SFeqb_finite in H1 as (-> & -> & ->). exact H2.
Qed.

#[export] Instance platform : Platform := {|
  intSize := Bits64;
  float64 := spec_float;
  float64_zero := S754_zero false;
  ParseFloat64 := ParseFloat;
  to_float32 := round32;
  float64_eqb := SFeqb;
  float64_eqb_sym := SFeqb_sym;
  float64_eqb_trans := SFeqb_trans;
  unicode_lower := Map_ToLower;
  unicode_trim := TrimFunc_IsSpace;
  unicode_trim_right := TrimRightFunc_IsSpace
|}.

End Go13.

(** ** The request of the documentation

    [/?id=123&isok=true&ft=1.2&ol[0]=1&ol[1]=2&ul[]=str&ul[]=array&user.Name=astaxie],
    from the comment above [Bind], with a few more parameters, already
    parsed and with no route parameter. *)

Module Doc.
Import reflect Binder Go13.

Definition form : url.Values :=
  [ ("id", ["123"]); ("isok", ["true"]); ("ft", ["1.2"]);
    ("ol[0]", ["1"]); ("ol[1]", ["2"]); ("ul[]", ["str"; "array"]);
    ("user.Name", ["astaxie"]); ("user.name", ["lower"]); ("user.Age", ["x7"]);
    ("a[0]", ["x"]); ("a[]", ["y"]);
    ("m[a]", ["1"]); ("m[b]", ["2"]);
    ("s[0].Name", ["v"]); ("t[x]", ["w"]) ].

Definition input : BeegoInput := mkInput [] (mkRequest (Some form) form).

(** A variable of type [t] holding [d], and the pointer to it that a
    caller passes to [Bind]. *)
Definition pointer_to (t : rtype) (d : data) : iface :=
  Some (TPtr "" t, DPtr (Some d)).

Definition int8_type : rtype := TInt "int8" KInt8.
Definition complex128_type : rtype := TComplex "complex128" K64.
Definition any_type : rtype := TInterface "" [].



End Doc.

(** * The rest of [BeegoInput]: the accessors of the request

    [Protocol], [Uri], [Url], [Site], [Scheme], [Domain], [Host],
    [Method], [Is] and its seven instances, [IsAjax], [IsSecure],
    [IsWebsocket], [IsUpload], [IP], [Proxy], [Referer], [Refer],
    [SubDomains], [Port], [UserAgent], [Header], [GetData], [SetData] and
    [NewInput].  ([Cookie], [Session], [CopyBody] and
    [ParseFormOrMulitForm] do nothing but call the cookie parser, the
    session store, the reader of the body and the multipart parser, which
    are not part of the package.) *)

(** ** Package [net/http]: the fields of a request that the accessors read *)

Module http.

(** A [http.Header], a [map[string][]string] whose keys are in canonical
    form. *)
Definition Header := list (string * list string).

Definition is_lower (c : ascii) : bool :=
  ((97 <=? nat_of_ascii c) && (nat_of_ascii c <=? 122))%nat.

Definition is_upper (c : ascii) : bool :=
  ((65 <=? nat_of_ascii c) && (nat_of_ascii c <=? 90))%nat.

(** The loop at the head of [textproto.CanonicalMIMEHeaderKey]: a key
    whose first letter and every letter after a hyphen is no lower-case
    letter, and whose other letters are no upper-case letters, is
    returned as it is. *)
Fixpoint canonical_from (upper : bool) (s : string) : bool :=
  match s with
  | EmptyString => true
  | String c s' =>
      if upper && is_lower c then false
      else if negb upper && is_upper c then false
      else canonical_from (Ascii.eqb c "-") s'
  end.

Definition is_canonical (s : string) : bool := canonical_from true s.

(** [textproto.CanonicalMIMEHeaderKey], of which the accessors need one
    fact: it returns a key in canonical form as it is. *)
Class TextProto : Type := {
CanonicalMIMEHeaderKey : string -> string;
canonical_key : forall s, is_canonical s = true -> CanonicalMIMEHeaderKey s = s
}.

(** [Header.Get]: the first value under the canonical form of [key], or
    the empty string. *)
Definition Get {T : TextProto} (h : Header) (key : string) : string :=
  match url.lookup h (CanonicalMIMEHeaderKey key) with
  | Some (v :: _) => v
  | _ => EmptyString
  end.

(** [TLS] tells whether the field [TLS] is not nil. *)
Record Request : Type := mkHttp {
  Method : string;
  Proto : string;
  RequestURI : string;
  URL_Path : string;
  URL_Scheme : string;
  TLS : bool;
  Host : string;
  RemoteAddr : string;
  Header_ : Header
}.

End http.

(** ** [net/textproto] of Go 1.3

    The instance at which the closed examples of the accessors are
    evaluated. *)

Module Go13net.

(** [canonicalMIMEHeaderKey]: a space becomes a hyphen, the first letter
    and every letter after a hyphen is put in upper case, every other
    letter in lower case. *)
Fixpoint canonicalize (upper : bool) (s : string) : string :=
  match s with
  | EmptyString => EmptyString
  | String c s' =>
      let c' :=
        if Ascii.eqb c " " then "-"%char
        else if upper && http.is_lower c then ascii_of_nat (nat_of_ascii c - 32)
        else if negb upper && http.is_upper c then ascii_of_nat (nat_of_ascii c + 32)
        else c in
      String c' (canonicalize (Ascii.eqb c' "-") s')
  end.

Definition CanonicalMIMEHeaderKey (s : string) : string :=
  if http.is_canonical s then s else canonicalize true s.

Lemma canonical_key s :
  http.is_canonical s = true -> CanonicalMIMEHeaderKey s = s.
Proof. intros H. unfold CanonicalMIMEHeaderKey. rewrite H. reflexivity. Qed.

#[export] Instance textproto : http.TextProto := {
  http.CanonicalMIMEHeaderKey := CanonicalMIMEHeaderKey;
  http.canonical_key := canonical_key
}.

End Go13net.

(** ** The accessors

    Each takes [input.Request], the one field of the input it reads. *)

Module Accessors.
Section WithPlatform.
Context {P : Platform} {T : http.TextProto}.

Definition Protocol (r : http.Request) : string := http.Proto r.

Definition Uri (r : http.Request) : string := http.RequestURI r.

Definition Url (r : http.Request) : string := http.URL_Path r.

Definition Scheme (r : http.Request) : string :=
  if negb (String.eqb (http.URL_Scheme r) "") then http.URL_Scheme r
  else if negb (http.TLS r) then "http"
  else "https".

(** The element [a[i]] of a slice of strings that has one: every index
    expression of the accessors is within bounds (see
    [Facts.Split_not_empty]). *)
Definition at_index (a : list string) (i : nat) : string := nth i a EmptyString.

Definition Host (r : http.Request) : string :=
  if negb (String.eqb (http.Host r) "") then
    let hostParts := strings.Split (http.Host r) ":" in
    if (0 <? List.length hostParts)%nat then at_index hostParts 0
    else http.Host r
  else "localhost".

Definition Domain (r : http.Request) : string := Host r.

Definition Site (r : http.Request) : string :=
  (Scheme r ++ "://" ++ Domain r)%string.

Definition Method (r : http.Request) : string := http.Method r.

Definition Is (r : http.Request) (method : string) : bool :=
  String.eqb (Method r) method.

Definition IsGet (r : http.Request) : bool := Is r "GET".
Definition IsPost (r : http.Request) : bool := Is r "POST".
Definition IsHead (r : http.Request) : bool := Is r "HEAD".
Definition IsOptions (r : http.Request) : bool := Is r "OPTIONS".
Definition IsPut (r : http.Request) : bool := Is r "PUT".
Definition IsDelete (r : http.Request) : bool := Is r "DELETE".
Definition IsPatch (r : http.Request) : bool := Is r "PATCH".

Definition Header (r : http.Request) (key : string) : string :=
  http.Get (http.Header_ r) key.

Definition IsAjax (r : http.Request) : bool :=
  String.eqb (Header r "X-Requested-With") "XMLHttpRequest".

Definition IsSecure (r : http.Request) : bool := String.eqb (Scheme r) "https".

Definition IsWebsocket (r : http.Request) : bool :=
  String.eqb (Header r "Upgrade") "websocket".

Definition IsUpload (r : http.Request) : bool :=
  strings.Contains (Header r "Content-Type") "multipart/form-data".

Definition Proxy (r : http.Request) : list string :=
  let ips := Header r "X-Forwarded-For" in
  if negb (String.eqb ips "") then strings.Split ips "," else [].

Definition IP (r : http.Request) : string :=
  let ips := Proxy r in
  if (0 <? List.length ips)%nat && negb (String.eqb (at_index ips 0) "") then
    let rip := strings.Split (at_index ips 0) ":" in
    at_index rip 0
  else
    let ip := strings.Split (http.RemoteAddr r) ":" in
    if (0 <? List.length ip)%nat then
      if negb (String.eqb (at_index ip 0) "[") then at_index ip 0
      else "127.0.0.1"
    else "127.0.0.1".

Definition Referer (r : http.Request) : string := Header r "Referer".

Definition Refer (r : http.Request) : string := Referer r.

Definition SubDomains (r : http.Request) : string :=
  let parts := strings.Split (Host r) "." in
  if (3 <=? List.length parts)%nat
  then strings.Join (firstn (List.length parts - 2) parts) "."
  else EmptyString.

Definition Port (r : http.Request) : Z :=
  let parts := strings.Split (http.Host r) ":" in
  if (List.length parts =? 2)%nat then fst (strconv.Atoi (at_index parts 1))
  else 80.

Definition UserAgent (r : http.Request) : string := Header r "User-Agent".

(** [NewInput(req)]: no route parameter yet. *)
Definition NewInput (req : Request) : BeegoInput := mkInput [] req.

End WithPlatform.
End Accessors.

(** ** The field [Data]

    A [map[interface{}]interface{}]: the entries in the order in which
    their keys were first assigned.  What Go's [==] says of two keys and
    which keys can be hashed is the runtime's; the map takes both as
    given.  A value is an [iface]; [None] is nil. *)

Module DataStore.
Section WithKeys.
Context {P : Platform}.
Variable Key : Type.
(** [==] on two keys that can be hashed; it need not be reflexive (a key
    holding a NaN). *)
Variable key_eqb : Key -> Key -> bool.
(** Whether the dynamic type of a key can be hashed: a key holding a
    slice, a map or a function cannot, and indexing the map with it
    panics. *)
Variable hashable : Key -> bool.

Definition Data := list (Key * Binder.iface).

Fixpoint lookup (m : Data) (key : Key) : option Binder.iface :=
  match m with
  | [] => None
  | (k, v) :: m' => if key_eqb k key then Some v else lookup m' key
  end.

Fixpoint assign (m : Data) (key : Key) (val : Binder.iface) : Data :=
  match m with
  | [] => [(key, val)]
  | (k, v) :: m' =>
      if key_eqb k key then (k, val) :: m' else (k, v) :: assign m' key val
  end.

(** [input.GetData(key)] *)
Definition GetData (m : Data) (key : Key) : outcome Binder.iface :=
  if negb (hashable key) then Panicked "runtime error: hash of unhashable type"
  else match lookup m key with
       | Some v => Done v
       | None => Done None
       end.

(** [input.SetData(key, val)]: the map after the call. *)
Definition SetData (m : Data) (key : Key) (val : Binder.iface) : outcome Data :=
  if negb (hashable key) then Panicked "runtime error: hash of unhashable type"
  else Done (assign m key val).

End WithKeys.
End DataStore.

(** ** What [Bind] may do to the input *)

Module Effects.

(** The input after [Request.ParseForm]. *)
Definition parsed (input : BeegoInput) : BeegoInput :=
  {| Params := Params input; Request_ := ParseForm (Request_ input) |}.

(** A computation that leaves the input as it was, or parses a form that
    was not parsed yet, and does nothing else to it. *)
Definition only_parses {A} (m : M A) : Prop :=
  forall input,
    fst (m input) = input
    \/ (Form (Request_ input) = None /\ fst (m input) = parsed input).

End Effects.

(** * Properties of the binder *)

Unset Implicit Arguments.

Module Facts.
Import reflect Binder.

Section WithPlatform.
Context {P : Platform}.

(** ** The monad *)

Lemma mbind_done {A B} (m : M A) (k : A -> M B) input input' a :
  m input = (input', Done a) -> mbind m k input = k a input'.
Proof. intros H. unfold mbind. rewrite H. reflexivity. Qed.

Lemma mbind_panicked {A B} (m : M A) (k : A -> M B) input input' msg :
  m input = (input', Panicked msg) -> mbind m k input = (input', Panicked msg).
Proof. intros H. unfold mbind. rewrite H. reflexivity. Qed.

Lemma mbind_ext {A B} (m : M A) (k k' : A -> M B) input :
  (forall a i, k a i = k' a i) -> mbind m k input = mbind m k' input.
Proof.
  intros H. unfold mbind. destruct (m input) as [i [a|msg]]; [apply H|reflexivity].
Qed.

Lemma mbind_ret {A B} (a : A) (k : A -> M B) input :
  mbind (ret a) k input = k a input.
Proof. reflexivity. Qed.

Lemma mbind_lift_done {A B} (a : A) (k : A -> M B) input :
  mbind (lift (Done a)) k input = k a input.
Proof. reflexivity. Qed.

Lemma mbind_assoc {A B C} (m : M A) (f : A -> M B) (g : B -> M C) input :
  mbind (mbind m f) g input = mbind m (fun a => mbind (f a) g) input.
Proof. unfold mbind. destruct (m input) as [i [a|msg]]; reflexivity. Qed.

(** A loop skips the entries its body leaves alone. *)
Lemma foldM_filter {A B} (body : A -> B -> M A) (keep : B -> bool) l :
  (forall a x input, keep x = false -> body a x input = (input, Done a)) ->
  forall a input, foldM body l a input = foldM body (filter keep l) a input.
Proof.
  intros Hskip. induction l as [|x l IH]; intros a input; simpl; [reflexivity|].
  destruct (keep x) eqn:Hk; simpl.
  - apply mbind_ext. exact IH.
  - rewrite (mbind_done _ _ _ _ _ (Hskip a x input Hk)). apply IH.
Qed.

Lemma foldM_ext {A B} (body body' : A -> B -> M A) l :
  (forall a x input, In x l -> body a x input = body' a x input) ->
  forall a input, foldM body l a input = foldM body' l a input.
Proof.
  induction l as [|x l IH]; intros H a input; simpl; [reflexivity|].
  unfold mbind. rewrite (H a x input (or_introl eq_refl)).
  destruct (body' a x input) as [i [a'|msg]]; [|reflexivity].
  apply IH. intros; apply H; right; assumption.
Qed.

(** ** C9: the bool binder *)

Lemma is_true_literal_spec (s : string) :
  is_true_literal s = true <-> s = "true" \/ s = "on" \/ s = "1".
Proof.
  unfold is_true_literal. rewrite !orb_true_iff, !String.eqb_eq. tauto.
Qed.

(** C9.  For every input string, [bindBool] lower-cases it, trims the
    white space around it, and returns [true] exactly when what is left
    is ["true"], ["on"] or ["1"], and [false] otherwise, as for the empty
    string, ["0"], ["false"] and ["yes"]; it never panics, returns no
    error and leaves the input as it was. *)
Theorem bindBool_normalizes (val : string) (typ : rtype) (input : BeegoInput) :
  (exists b : bool,
      bindBool val typ input = (input, Done (mkValue bool_type (DBool b) false false))
      /\ (b = true <->
          strings.TrimSpace (strings.ToLower val) = "true"
          \/ strings.TrimSpace (strings.ToLower val) = "on"
          \/ strings.TrimSpace (strings.ToLower val) = "1"))
  /\ (forall v, In v [""; "0"; "false"; "yes"] ->
      bindBool v typ input = (input, Done (mkValue bool_type (DBool false) false false)))
  /\ (forall v, In v ["true"; "on"; "1"; " TRUE "; "On"] ->
      bindBool v typ input = (input, Done (mkValue bool_type (DBool true) false false))).
Proof.
  split; [|split].
  - exists (is_true_literal (strings.TrimSpace (strings.ToLower val))).
    split; [|apply is_true_literal_spec].
    unfold bindBool.
    destruct (is_true_literal _); reflexivity.
  - intros v Hv. simpl in Hv.
    destruct Hv as [<-|[<-|[<-|[<-|[]]]]]; reflexivity.
  - intros v Hv. simpl in Hv.
    destruct Hv as [<-|[<-|[<-|[<-|[<-|[]]]]]]; reflexivity.
Qed.

(** ** C2: a destination that cannot be set *)

(** C2.  When [dest] is not a pointer, or is a pointer whose [Elem] cannot
    be set (a nil pointer), [Bind] returns an error that depends on
    [dest] and [key] only: it is the same for every input, so no form
    value is read, and both the input and [dest] are as before the call. *)
Theorem Bind_invalid_destination (dest : iface) (key : string) :
  Kind_ (ValueOf dest) <> Ptr
  \/ (exists v, Elem (ValueOf dest) = Done v /\ CanSet v = false) ->
  exists msg : string,
    (msg = "beego: non-pointer passed to Bind: " ++ key
     \/ msg = "beego: non-settable variable passed to Bind: " ++ key)%string
    /\ forall input, Bind dest key input = (input, Done (Some msg, dest)).
Proof.
  intros H. unfold Bind.
  destruct (Kind_eq_dec (Kind_ (ValueOf dest)) Ptr) as [Hk|Hk]; simpl.
  - destruct H as [H|(v & Hv & Hset)]; [contradiction|].
    eexists; split; [right; reflexivity|]. intros input.
    unfold lift, mbind. rewrite Hv, Hset. reflexivity.
  - eexists; split; [left; reflexivity|]. reflexivity.
Qed.


(** ** Strings: prefixes, slices and the closing bracket *)

Lemma len_append a b : strings.len (a ++ b) = strings.len a + strings.len b.
Proof.
  unfold strings.len. induction a as [|c a IH]; cbn [String.append String.length].
  - reflexivity.
  - rewrite !Nat2Z.inj_succ. lia.
Qed.

Lemma len_nonneg s : 0 <= strings.len s.
Proof. unfold strings.len. lia. Qed.

Lemma prefix_append p s : String.prefix p (p ++ s) = true.
Proof.
  apply prefix_correct. induction p as [|c p IH]; cbn.
  - destruct s; reflexivity.
  - rewrite IH. reflexivity.
Qed.

Lemma HasPrefix_append p s : strings.HasPrefix (p ++ s) p = true.
Proof. apply prefix_append. Qed.

Lemma substring_append_skip a : forall n m b,
  substring (String.length a + n) m (a ++ b) = substring n m b.
Proof. induction a as [|c a IH]; intros n m b; cbn; [reflexivity|apply IH]. Qed.

Lemma substring_append_take a b :
  substring 0 (String.length a) (a ++ b) = a.
Proof.
  induction a as [|c a IH]; cbn.
  - destruct b; reflexivity.
  - rewrite IH. reflexivity.
Qed.

Lemma substring_all s : substring 0 (String.length s) s = s.
Proof. induction s as [|c s IH]; cbn; [reflexivity|rewrite IH; reflexivity]. Qed.

Lemma slice_append_skip a b lo hi :
  0 <= lo ->
  strings.slice (a ++ b) (strings.len a + lo) (strings.len a + hi)
  = strings.slice b lo hi.
Proof.
  intros Hlo. unfold strings.slice, strings.len.
  replace (Z.to_nat (Z.of_nat (String.length a) + lo))
    with (String.length a + Z.to_nat lo)%nat by lia.
  replace (Z.of_nat (String.length a) + hi - (Z.of_nat (String.length a) + lo))
    with (hi - lo) by lia.
  apply substring_append_skip.
Qed.

Lemma slice_take a b : strings.slice (a ++ b) 0 (strings.len a) = a.
Proof.
  unfold strings.slice, strings.len. rewrite Z.sub_0_r, Nat2Z.id.
  apply substring_append_take.
Qed.

Lemma slice_from_append a b : strings.slice_from (a ++ b) (strings.len a) = b.
Proof.
  unfold strings.slice_from. rewrite len_append.
  rewrite <- (Z.add_0_r (strings.len a)) at 1.
  rewrite slice_append_skip by lia.
  unfold strings.slice, strings.len. rewrite Z.sub_0_r, Nat2Z.id.
  apply substring_all.
Qed.

Lemma append_assoc (a b c : string) : ((a ++ b) ++ c = a ++ (b ++ c))%string.
Proof. induction a as [|x a IH]; cbn; [reflexivity|rewrite IH; reflexivity]. Qed.

(** A string with the prefix [p] is [p] followed by the rest. *)
Lemma HasPrefix_split s p :
  strings.HasPrefix s p = true ->
  s = (p ++ strings.slice_from s (strings.len p))%string.
Proof.
  unfold strings.HasPrefix. revert s.
  induction p as [|c p IH]; intros s H.
  - cbn [String.append]. unfold strings.slice_from, strings.slice, strings.len.
    cbn [String.length]. rewrite Z.sub_0_r, !Nat2Z.id. symmetry. apply substring_all.
  - apply prefix_correct in H. destruct s as [|b s]; [discriminate|].
    cbn in H. injection H as Hb Hs. subst b.
    apply prefix_correct in Hs. apply IH in Hs.
    cbn [String.append]. f_equal.
    rewrite Hs at 1. f_equal.
    unfold strings.slice_from, strings.slice, strings.len. cbn [String.length].
    rewrite !Nat2Z.id.
    replace (Z.to_nat (Z.of_nat (S (String.length s)) - Z.of_nat (S (String.length p))))
      with (Z.to_nat (Z.of_nat (String.length s) - Z.of_nat (String.length p))) by lia.
    reflexivity.
Qed.

(** The first closing bracket. *)
Lemma Index_bracket token rest :
  strings.has_byte "]" token = false ->
  strings.Index (token ++ "]" ++ rest) "]" = strings.len token.
Proof.
  unfold strings.Index, strings.len.
  change ("]" ++ rest)%string with (String.String "]" rest).
  induction token as [|c token IH]; intros Hno.
  - cbn [String.append String.length String.index].
    assert (Hp : String.prefix "]" (String.String "]" rest) = true)
      by apply (prefix_append "]" rest).
    rewrite Hp. reflexivity.
  - cbn [strings.has_byte] in Hno. apply orb_false_iff in Hno as [Hc Hno].
    specialize (IH Hno).
    cbn [String.append String.length String.index].
    assert (Hp : String.prefix "]" (String.String c (token ++ String.String "]" rest))
                 = false).
    { destruct (String.prefix "]" (String.String c (token ++ String.String "]" rest)))
        eqn:E; [|reflexivity].
      apply prefix_correct in E. cbn in E. injection E as E.
      subst c. discriminate. }
    rewrite Hp.
    destruct (String.index 0 "]" (token ++ String.String "]" rest)) as [i|];
      [|lia].
    rewrite Nat2Z.inj_succ. lia.
Qed.

Lemma Index_no_bracket s :
  strings.has_byte "]" s = false -> strings.Index s "]" = -1.
Proof.
  unfold strings.Index. induction s as [|c s IH]; intros Hno; [reflexivity|].
  cbn [strings.has_byte] in Hno. apply orb_false_iff in Hno as [Hc Hno].
  specialize (IH Hno). cbn [String.index].
  assert (Hp : String.prefix "]" (String.String c s) = false).
  { destruct (String.prefix "]" (String.String c s)) eqn:E; [|reflexivity].
    apply prefix_correct in E. cbn in E. injection E as E. subst c. discriminate. }
  rewrite Hp. destruct (String.index 0 "]" s); [lia|reflexivity].
Qed.

(** A string either holds no closing bracket or splits at its first. *)
Lemma bracket_split s :
  strings.has_byte "]" s = false
  \/ exists token rest, s = (token ++ "]" ++ rest)%string
                        /\ strings.has_byte "]" token = false.
Proof.
  induction s as [|c s IH]; [left; reflexivity|].
  destruct (Ascii.eqb c "]") eqn:Hc.
  - right. exists EmptyString, s. apply Ascii.eqb_eq in Hc. subst c.
    split; reflexivity.
  - destruct IH as [IH|(token & rest & -> & Hno)].
    + left. cbn [strings.has_byte]. rewrite Hc, IH. reflexivity.
    + right. exists (String.String c token), rest. split; [reflexivity|].
      cbn [strings.has_byte]. rewrite Hc, Hno. reflexivity.
Qed.

Lemma last_byte_append s c :
  strings.last_byte (s ++ String.String c EmptyString) = Some c.
Proof.
  induction s as [|b s IH]; [reflexivity|].
  cbn [String.append strings.last_byte]. rewrite IH.
  destruct (s ++ String.String c EmptyString)%string eqn:E; [|reflexivity].
  destruct s; discriminate.
Qed.

(** A string that ends with the byte [c] is a string followed by [c]. *)
Lemma last_byte_split s c :
  strings.last_byte s = Some c ->
  exists body, s = (body ++ String.String c EmptyString)%string.
Proof.
  induction s as [|b s IH]; [discriminate|].
  cbn [strings.last_byte]. destruct s as [|b' s'].
  - intros [= <-]. exists EmptyString. reflexivity.
  - intros H. destruct (IH H) as (body & ->).
    exists (String.String b body). reflexivity.
Qed.

(** ** C4: the scalar binders *)

Lemma digit_of_range c d : strconv.digit_of c = Some d -> 0 <= d <= 9.
Proof.
  unfold strconv.digit_of.
  destruct ((48 <=? nat_of_ascii c)%nat && (nat_of_ascii c <=? 57)%nat) eqn:H;
    [|discriminate].
  apply andb_true_iff in H as [H1 H2].
  apply Nat.leb_le in H1, H2. intros [= <-]. lia.
Qed.

Lemma digits_value_ge s : forall acc v,
  0 <= acc -> Numeral.digits_value acc s = Some v -> acc <= v.
Proof.
  induction s as [|c s IH]; simpl; intros acc v Hacc H.
  - injection H as <-. lia.
  - destruct (strconv.digit_of c) as [d|] eqn:Hd; [|discriminate].
    apply digit_of_range in Hd. apply IH in H; lia.
Qed.

(** The loop of [ParseUint] against the numeral it reads. *)
Lemma ParseUint_loop_spec maxVal s : forall n,
  0 <= n <= maxVal -> maxVal <= strconv.maxUint64 ->
  match Numeral.digits_value n s with
  | Some v =>
      strconv.ParseUint_loop maxVal n s =
      if v <=? maxVal then (v, None) else (maxVal, Some strconv.ErrRange)
  | None =>
      strconv.ParseUint_loop maxVal n s = (0, Some strconv.ErrSyntax)
      \/ strconv.ParseUint_loop maxVal n s = (maxVal, Some strconv.ErrRange)
  end.
Proof.
  induction s as [|c s IH];
    cbn [strconv.ParseUint_loop Numeral.digits_value]; intros n Hn Hmax.
  - destruct (Z.leb_spec n maxVal); [reflexivity|lia].
  - destruct (strconv.digit_of c) as [d|] eqn:Hd; [|auto].
    apply digit_of_range in Hd.
    change (strconv.maxUint64 / 10 + 1) with 1844674407370955162.
    pose proof Hmax as Hmax'.
    change strconv.maxUint64 with 18446744073709551615 in Hmax'.
    change (2 ^ 64) with 18446744073709551616.
    assert (Hge : forall v, Numeral.digits_value (n * 10 + d) s = Some v ->
                            n * 10 + d <= v)
      by (intros v; apply digits_value_ge; lia).
    destruct (Z.leb_spec 1844674407370955162 n) as [Hbig|Hsmall].
    { destruct (Numeral.digits_value (n * 10 + d) s) as [v|] eqn:Hv; [|auto].
      specialize (Hge v eq_refl).
      destruct (Z.leb_spec v maxVal); [lia|reflexivity]. }
    destruct (Z_lt_le_dec (n * 10 + d) 18446744073709551616) as [Hfit|Hwrap].
    + rewrite (Z.mod_small (n * 10 + d) 18446744073709551616) by lia.
      destruct (Z.ltb_spec (n * 10 + d) (n * 10)); [lia|]. simpl.
      destruct (Z.ltb_spec maxVal (n * 10 + d)) as [Hover|Hin].
      * destruct (Numeral.digits_value (n * 10 + d) s) as [v|] eqn:Hv; [|auto].
        specialize (Hge v eq_refl).
        destruct (Z.leb_spec v maxVal); [lia|reflexivity].
      * apply IH; [lia|exact Hmax].
    + assert (Hm : (n * 10 + d) mod 18446744073709551616
                   = n * 10 + d - 18446744073709551616).
      { symmetry. apply Z.mod_unique with (q := 1); lia. }
      rewrite Hm.
      destruct (Z.ltb_spec (n * 10 + d - 18446744073709551616) (n * 10)); [|lia]. simpl.
      destruct (Numeral.digits_value (n * 10 + d) s) as [v|] eqn:Hv; [|auto].
      specialize (Hge v eq_refl).
      destruct (Z.leb_spec v maxVal); [lia|reflexivity].
Qed.

(** [ParseUint(s, 10, 64)] reads exactly the numerals up to [2^64 - 1]. *)
Lemma ParseUint_64_spec s :
  match Numeral.unsigned_decimal s with
  | Some v =>
      strconv.ParseUint s 64 =
      if v <=? strconv.maxUint64 then (v, None)
      else (strconv.maxUint64, Some strconv.ErrRange)
  | None =>
      strconv.ParseUint s 64 = (0, Some strconv.ErrSyntax)
      \/ strconv.ParseUint s 64 = (strconv.maxUint64, Some strconv.ErrRange)
  end.
Proof.
  unfold Numeral.unsigned_decimal, strconv.ParseUint.
  destruct s as [|c s]; [auto|].
  change (2 ^ strconv.effective_bits 64 - 1) with strconv.maxUint64.
  apply ParseUint_loop_spec; unfold strconv.maxUint64; lia.
Qed.

Ltac case_compare :=
  repeat match goal with
         | |- context [?x <=? ?y] => destruct (Z.leb_spec x y) as [?Hle|?Hgt]
         | |- context [?x <? ?y] => destruct (Z.ltb_spec x y) as [?Hlt|?Hge]
         end.

Lemma ParseInt_finish_spec (neg : bool) (C u : Z) :
  1 < C -> 0 <= u ->
  if (- C <=? (if neg then - u else u)) && ((if neg then - u else u) <? C)
  then strconv.ParseInt_finish neg C
         (if u <=? 2 * C - 1 then (u, None) else (2 * C - 1, Some strconv.ErrRange))
       = (if neg then - u else u, None)
  else exists z,
       strconv.ParseInt_finish neg C
         (if u <=? 2 * C - 1 then (u, None) else (2 * C - 1, Some strconv.ErrRange))
       = (z, Some strconv.ErrRange).
Proof.
  intros HC Hu. unfold strconv.ParseInt_finish.
  destruct neg; cbn [negb andb];
    destruct (Z.leb_spec u (2 * C - 1)); case_compare; cbn [negb andb];
    case_compare; try lia; eauto.
Qed.

Lemma ParseInt_finish_error (neg : bool) (C : Z) r :
  1 < C ->
  r = (0, Some strconv.ErrSyntax) \/ r = (2 * C - 1, Some strconv.ErrRange) ->
  exists z' e', strconv.ParseInt_finish neg C r = (z', Some e').
Proof.
  intros HC [->| ->]; unfold strconv.ParseInt_finish; [eauto|].
  destruct neg; cbn [negb andb]; case_compare; try lia; eauto.
Qed.

(** [ParseInt(s, 10, 64)] reads exactly the signed numerals of the range
    of [int64]. *)
Lemma ParseInt_64_spec s :
  match Numeral.signed_decimal s with
  | Some v =>
      if (- 2 ^ 63 <=? v) && (v <? 2 ^ 63)
      then strconv.ParseInt s 64 = (v, None)
      else exists z, strconv.ParseInt s 64 = (z, Some strconv.ErrRange)
  | None => exists z e, strconv.ParseInt s 64 = (z, Some e)
  end.
Proof.
  assert (Hnonneg : forall t v, Numeral.unsigned_decimal t = Some v -> 0 <= v).
  { intros t v. unfold Numeral.unsigned_decimal. destruct t; [discriminate|].
    apply digits_value_ge. lia. }
  assert (Hcase : forall (neg : bool) t,
    match Numeral.unsigned_decimal t with
    | Some u =>
        if (- 2 ^ 63 <=? (if neg then - u else u)) && ((if neg then - u else u) <? 2 ^ 63)
        then strconv.ParseInt_finish neg (2 ^ 63) (strconv.ParseUint t 64)
             = (if neg then - u else u, None)
        else exists z, strconv.ParseInt_finish neg (2 ^ 63) (strconv.ParseUint t 64)
                       = (z, Some strconv.ErrRange)
    | None => exists z e, strconv.ParseInt_finish neg (2 ^ 63) (strconv.ParseUint t 64)
                          = (z, Some e)
    end).
  { intros neg t. pose proof (ParseUint_64_spec t) as Hu.
    pose proof (Hnonneg t) as Hpos.
    destruct (Numeral.unsigned_decimal t) as [u|].
    - rewrite Hu. change strconv.maxUint64 with (2 * 2 ^ 63 - 1).
      apply ParseInt_finish_spec; [reflexivity|eauto].
    - apply ParseInt_finish_error; [reflexivity|exact Hu]. }
  unfold Numeral.signed_decimal, strconv.ParseInt.
  destruct s as [|c s]; [eauto|].
  change (2 ^ (strconv.effective_bits 64 - 1)) with (2 ^ 63).
  cbv zeta.
  destruct (Ascii.eqb c "+") eqn:Hplus.
  { assert (Hm : Ascii.eqb c "-" = false).
    { apply Ascii.eqb_eq in Hplus. subst c. reflexivity. }
    rewrite Hm. cbn [orb]. specialize (Hcase false s).
    destruct (Numeral.unsigned_decimal s); exact Hcase. }
  destruct (Ascii.eqb c "-") eqn:Hminus; cbn [orb].
  { specialize (Hcase true s). unfold option_map.
    destruct (Numeral.unsigned_decimal s); exact Hcase. }
  specialize (Hcase false (String.String c s)).
  destruct (Numeral.unsigned_decimal (String.String c s)); exact Hcase.
Qed.

(** The canonical numerals denote the numbers they print. *)

Lemma digit_char n :
  0 <= n <= 9 -> strconv.digit_of (ascii_of_nat (Z.to_nat (48 + n))) = Some n.
Proof.
  intros H. rewrite <- (Z2Nat.id n) by lia.
  assert (Hk : (Z.to_nat n <= 9)%nat) by lia.
  revert Hk. generalize (Z.to_nat n). intros k Hk.
  do 10 (destruct k as [|k]; [reflexivity|]). lia.
Qed.

Lemma format_digits_value fuel : forall n tail,
  (0 < fuel)%nat -> 0 <= n < 2 ^ Z.of_nat fuel ->
  exists k, 0 <= k /\ forall acc,
    Numeral.digits_value acc (Numeral.format_digits fuel n tail)
    = Numeral.digits_value (acc * 10 ^ k + n) tail.
Proof.
  induction fuel as [|fuel IH]; intros n tail Hfuel Hn; [lia|].
  cbn [Numeral.format_digits].
  destruct (Z.ltb_spec n 10) as [Hsmall|Hbig].
  - exists 1. split; [lia|]. intros acc. cbn [Numeral.digits_value].
    rewrite Z.mod_small by lia. rewrite digit_char by lia.
    rewrite Z.pow_1_r. reflexivity.
  - assert (Hpow : 2 ^ Z.of_nat (S fuel) = 2 * 2 ^ Z.of_nat fuel).
    { rewrite Nat2Z.inj_succ, Z.pow_succ_r by lia. reflexivity. }
    assert (Hdiv : 0 <= n / 10 < 2 ^ Z.of_nat fuel).
    { split; [apply Z.div_pos; lia|].
      apply Z.div_lt_upper_bound; lia. }
    assert (Hf : (0 < fuel)%nat).
    { destruct fuel; [|lia]. simpl in Hn. lia. }
    destruct (IH (n / 10)
                (String.String (ascii_of_nat (Z.to_nat (48 + n mod 10))) tail) Hf Hdiv)
      as (k & Hk & Heq).
    exists (k + 1). split; [lia|]. intros acc. rewrite Heq.
    cbn [Numeral.digits_value].
    rewrite digit_char by (pose proof (Z.mod_pos_bound n 10); lia).
    f_equal. rewrite Z.pow_add_r, Z.pow_1_r by lia.
    pose proof (Z.div_mod n 10). lia.
Qed.

Lemma format_digits_head fuel : forall n tail,
  (0 < fuel)%nat -> 0 <= n ->
  exists c s d, Numeral.format_digits fuel n tail = String.String c s
                /\ strconv.digit_of c = Some d.
Proof.
  induction fuel as [|fuel IH]; intros n tail Hfuel Hn; [lia|].
  cbn [Numeral.format_digits].
  destruct (Z.ltb_spec n 10) as [Hsmall|Hbig].
  - do 3 eexists. split; [reflexivity|]. apply digit_char.
    pose proof (Z.mod_pos_bound n 10). lia.
  - destruct fuel as [|fuel'].
    + cbn [Numeral.format_digits]. do 3 eexists. split; [reflexivity|].
      apply digit_char. pose proof (Z.mod_pos_bound n 10). lia.
    + apply IH; [lia|apply Z.div_pos; lia].
Qed.

Lemma unsigned_decimal_FormatUint n :
  0 <= n -> Numeral.unsigned_decimal (Numeral.FormatUint n) = Some n.
Proof.
  intros Hn. unfold Numeral.FormatUint, Numeral.unsigned_decimal.
  destruct (format_digits_head (S (Z.to_nat (Z.log2 n))) n EmptyString)
    as (c & s & d & Hs & _); [lia|exact Hn|].
  destruct (format_digits_value (S (Z.to_nat (Z.log2 n))) n EmptyString)
    as (k & Hk & Heq).
  - lia.
  - split; [exact Hn|].
    rewrite Nat2Z.inj_succ, Z2Nat.id by apply Z.log2_nonneg.
    destruct (Z.eq_dec n 0) as [->|Hnz]; [reflexivity|].
    apply Z.log2_spec. lia.
  - destruct (Numeral.format_digits (S (Z.to_nat (Z.log2 n))) n EmptyString);
      [discriminate Hs|].
    rewrite Heq. reflexivity.
Qed.

Lemma signed_decimal_FormatInt n :
  Numeral.signed_decimal (Numeral.FormatInt n) = Some n.
Proof.
  unfold Numeral.FormatInt.
  destruct (Z.ltb_spec n 0) as [Hneg|Hpos].
  - change (Numeral.signed_decimal (String.String "-" (Numeral.FormatUint (- n))))
      with (option_map Z.opp (Numeral.unsigned_decimal (Numeral.FormatUint (- n)))).
    rewrite unsigned_decimal_FormatUint by lia. cbn [option_map]. f_equal. lia.
  - destruct (format_digits_head (S (Z.to_nat (Z.log2 n))) n EmptyString)
      as (c & s & d & Hs & Hd); [lia|exact Hpos|].
    pose proof (unsigned_decimal_FormatUint n Hpos) as Hu.
    unfold Numeral.FormatUint in *. rewrite Hs in *.
    unfold Numeral.signed_decimal.
    destruct (Ascii.eqb c "+") eqn:Hp.
    { apply Ascii.eqb_eq in Hp. subst c. discriminate. }
    destruct (Ascii.eqb c "-") eqn:Hm.
    { apply Ascii.eqb_eq in Hm. subst c. discriminate. }
    exact Hu.
Qed.

Lemma wrap_bits_fits w v :
  0 < w -> - 2 ^ (w - 1) <= v < 2 ^ (w - 1) -> Int.wrap_bits w v = v.
Proof.
  intros Hw Hv. unfold Int.wrap_bits.
  assert (Hpow : 2 ^ w = 2 * 2 ^ (w - 1)).
  { replace w with (Z.succ (w - 1)) at 1 by lia. apply Z.pow_succ_r. lia. }
  rewrite Z.mod_small by lia. lia.
Qed.

Lemma int_bits_pos w : 0 < int_bits w.
Proof. destruct w; cbn; try lia. unfold Int.size. destruct intSize; cbn; lia. Qed.

Lemma uint_bits_pos w : 0 < uint_bits w.
Proof. destruct w; cbn; try lia. unfold Int.size. destruct intSize; cbn; lia. Qed.

Lemma bindInt_unfold n w val input :
  bindInt val (TInt n w) input =
  (input,
   Done match strconv.ParseInt val 64 with
        | (_, Some _) => Zero (TInt n w)
        | (v, None) => mkValue (TInt n w) (DInt (Int.wrap_bits (int_bits w) v)) true false
        end).
Proof.
  unfold bindInt. destruct (strconv.ParseInt val 64) as [v [e|]]; [reflexivity|].
  destruct w; reflexivity.
Qed.

Lemma bindUint_unfold n w val input :
  bindUint val (TUint n w) input =
  (input,
   Done match strconv.ParseUint val 64 with
        | (_, Some _) => Zero (TUint n w)
        | (v, None) => mkValue (TUint n w) (DUint (v mod 2 ^ uint_bits w)) true false
        end).
Proof.
  unfold bindUint. destruct (strconv.ParseUint val 64) as [v [e|]]; [reflexivity|].
  destruct w; reflexivity.
Qed.

Lemma bindInt_numeral n w val input v :
  Numeral.signed_decimal val = Some v -> - 2 ^ 63 <= v < 2 ^ 63 ->
  bindInt val (TInt n w) input
  = (input, Done (mkValue (TInt n w) (DInt (Int.wrap_bits (int_bits w) v)) true false)).
Proof.
  intros H Hrange. rewrite bindInt_unfold. pose proof (ParseInt_64_spec val) as Hp.
  rewrite H in Hp.
  destruct (Z.leb_spec (- 2 ^ 63) v); [|lia].
  destruct (Z.ltb_spec v (2 ^ 63)); [|lia].
  cbn [andb] in Hp. rewrite Hp. reflexivity.
Qed.

Lemma bindInt_not_numeral n w val input :
  Numeral.signed_decimal val = None
  \/ (exists v, Numeral.signed_decimal val = Some v /\ (v < - 2 ^ 63 \/ 2 ^ 63 <= v)) ->
  bindInt val (TInt n w) input = (input, Done (Zero (TInt n w))).
Proof.
  intros H. rewrite bindInt_unfold.
  pose proof (ParseInt_64_spec val) as Hp.
  destruct H as [H|(v & H & Hv)]; rewrite H in Hp.
  - destruct Hp as (z & e & ->). reflexivity.
  - destruct (Z.leb_spec (- 2 ^ 63) v); destruct (Z.ltb_spec v (2 ^ 63));
      try lia; cbn [andb] in Hp; destruct Hp as (z & ->); reflexivity.
Qed.

Lemma unsigned_decimal_nonneg val v : Numeral.unsigned_decimal val = Some v -> 0 <= v.
Proof.
  unfold Numeral.unsigned_decimal. destruct val; [discriminate|].
  intros H. apply digits_value_ge in H; lia.
Qed.

Lemma bindUint_numeral n w val input v :
  Numeral.unsigned_decimal val = Some v -> v < 2 ^ 64 ->
  bindUint val (TUint n w) input
  = (input, Done (mkValue (TUint n w) (DUint (v mod 2 ^ uint_bits w)) true false)).
Proof.
  intros H Hrange. rewrite bindUint_unfold. pose proof (ParseUint_64_spec val) as Hp.
  rewrite H in Hp. unfold strconv.maxUint64 in Hp.
  destruct (Z.leb_spec v (2 ^ 64 - 1)); [|lia]. rewrite Hp. reflexivity.
Qed.

Lemma bindUint_not_numeral n w val input :
  Numeral.unsigned_decimal val = None
  \/ (exists v, Numeral.unsigned_decimal val = Some v /\ 2 ^ 64 <= v) ->
  bindUint val (TUint n w) input = (input, Done (Zero (TUint n w))).
Proof.
  intros H. rewrite bindUint_unfold.
  pose proof (ParseUint_64_spec val) as Hp.
  destruct H as [H|(v & H & Hv)]; rewrite H in Hp.
  - destruct Hp as [-> | ->]; reflexivity.
  - unfold strconv.maxUint64 in Hp.
    destruct (Z.leb_spec v (2 ^ 64 - 1)); [lia|]. rewrite Hp. reflexivity.
Qed.



(** ** What the dispatchers return can be assigned

    No value that [bind] or [bindValue] returns was reached through an
    unexported field, so [Set], [Append] and [SetMapIndex] never refuse
    it for that. *)

Lemma exported_flags t d a : exported (mkValue t d a false).
Proof. reflexivity. Qed.

Lemma exported_inv v :
  exported v -> exists t d a, v = mkValue t d a false.
Proof.
  unfold exported. destruct v as [|t d a [|]]; try discriminate. eauto.
Qed.

(** A loop keeps what each of its rounds keeps. *)
Lemma foldM_invariant {A B} (I : A -> Prop) (body : A -> B -> M A) l :
  (forall a x input input' a',
      I a -> body a x input = (input', Done a') -> I a') ->
  forall a input input' a',
    I a -> foldM body l a input = (input', Done a') -> I a'.
Proof.
  intros Hbody. induction l as [|x l IH]; intros a input input' a' Ha H.
  - cbn in H. injection H as _ <-. exact Ha.
  - cbn [foldM] in H. unfold mbind in H.
    destruct (body a x input) as [i [a1|msg]] eqn:E; [|discriminate].
    eapply IH; [|exact H]. eapply Hbody; eauto.
Qed.

Lemma mbind_inv {A B} (m : M A) (k : A -> M B) input input' b :
  mbind m k input = (input', Done b) ->
  exists i a, m input = (i, Done a) /\ k a i = (input', Done b).
Proof.
  unfold mbind. destruct (m input) as [i [a|msg]]; [eauto|discriminate].
Qed.

Lemma lift_inv {A} (o : outcome A) input input' a :
  lift o input = (input', Done a) -> input' = input /\ o = Done a.
Proof. unfold lift. intros [= -> ->]. auto. Qed.

Lemma ret_inv {A} (x : A) input input' a :
  ret x input = (input', Done a) -> input' = input /\ a = x.
Proof. unfold ret. intros [= -> ->]. auto. Qed.

Lemma obind_inv {A B} (o : outcome A) (k : A -> outcome B) b :
  obind o k = Done b -> exists a, o = Done a /\ k a = Done b.
Proof. destruct o; [eauto|discriminate]. Qed.

Lemma Set_flags v x v' :
  Set_ v x = Done v' -> exists t d d', v = mkValue t d true false /\ v' = mkValue t d' true false.
Proof.
  unfold Set_. destruct v as [|t d [|] [|]]; cbn; try discriminate.
  destruct (mustBeExported x); cbn; [|discriminate].
  destruct (assignTo "reflect.Set" x t); [|discriminate].
  intros [= <-]. eauto.
Qed.

Lemma place_exported arr sv input input' arr' :
  exported arr -> bindSlice_place arr sv input = (input', Done arr') -> exported arr'.
Proof.
  intros Harr. apply exported_inv in Harr as (t & d & a & ->).
  unfold bindSlice_place. destruct (negb (index sv =? -1)); intros H;
    apply lift_inv in H as (_ & H).
  - unfold Index_Set in H. apply obind_inv in H as (e & _ & H).
    apply obind_inv in H as (e' & _ & H). injection H as <-. reflexivity.
  - unfold Append in H. destruct t; try discriminate.
    cbn [mustBeExported obind] in H.
    apply obind_inv in H as (? & _ & H). apply obind_inv in H as (dx & _ & H).
    injection H as <-. reflexivity.
Qed.

Lemma bindSlice_exported be bve params key typ input input' v :
  bindSlice_with be bve params key typ input = (input', Done v) -> exported v.
Proof.
  unfold bindSlice_with. intros H.
  apply mbind_inv in H as (i & scan & _ & H).
  apply mbind_inv in H as (i' & arr & Harr & H).
  apply lift_inv in Harr as (_ & Harr).
  eapply (foldM_invariant exported); [|  |exact H].
  - intros a x i0 i1 a'. apply place_exported.
  - unfold MakeSlice in Harr. destruct typ; try discriminate.
    destruct (Z.ltb (Int.add (maxIndex scan) 1) 0); [discriminate|].
    destruct (Z.ltb _ 0); [discriminate|].
    destruct (Z.ltb _ _); [discriminate|].
    injection Harr as <-. reflexivity.
Qed.

Lemma struct_entry_exported bvf key typ acc entry input input' acc' :
  exported (result acc) ->
  bindStruct_entry bvf key typ acc entry input = (input', Done acc') ->
  exported (result acc').
Proof.
  intros Hacc. destruct entry as [reqKey val]. unfold bindStruct_entry.
  destruct (negb (strings.HasPrefix reqKey (key ++ "."))).
  { intros H. apply ret_inv in H as (_ & ->). exact Hacc. }
  destruct (existsb _ _).
  { intros H. apply ret_inv in H as (_ & ->). exact Hacc. }
  intros H. apply mbind_inv in H as (i & fv & _ & H).
  destruct (negb (IsValid fv)).
  { apply ret_inv in H as (_ & ->). exact Hacc. }
  destruct (negb (CanSet fv)).
  { apply ret_inv in H as (_ & ->). exact Hacc. }
  apply mbind_inv in H as (i1 & v0 & _ & H).
  apply mbind_inv in H as (i2 & bv & _ & H).
  apply mbind_inv in H as (i3 & r' & Hr & H).
  apply ret_inv in H as (_ & ->). cbn [result].
  apply lift_inv in Hr as (_ & Hr).
  apply exported_inv in Hacc as (t & d & a & Hshape). rewrite Hshape in Hr.
  unfold FieldByName_Set in Hr.
  apply obind_inv in Hr as (x & _ & Hr). apply obind_inv in Hr as (x' & _ & Hr).
  destruct t; try discriminate.
  destruct (field_by_name fields _) as [[j g]|]; [|discriminate].
  injection Hr as <-. reflexivity.
Qed.

Lemma bindStruct_exported bvf params key typ input input' v :
  bindStruct_with bvf params key typ input = (input', Done v) -> exported v.
Proof.
  unfold bindStruct_with. intros H.
  apply mbind_inv in H as (i & r0 & Hr0 & H).
  apply mbind_inv in H as (i' & scan & Hscan & H).
  apply ret_inv in H as (_ & ->).
  apply lift_inv in Hr0 as (_ & Hr0). cbn in Hr0. injection Hr0 as <-.
  eapply (foldM_invariant (fun acc => exported (result acc))); [| |exact Hscan].
  - intros a x i0 i1 a'. apply struct_entry_exported.
  - reflexivity.
Qed.

Lemma SetMapIndex_exported m k v m' :
  exported m -> SetMapIndex m k v = Done m' -> exported m'.
Proof.
  intros Hm. apply exported_inv in Hm as (t & d & a & ->).
  unfold SetMapIndex. destruct t; try discriminate.
  cbn [mustBeExported obind]. intros H.
  apply obind_inv in H as (? & _ & H). apply obind_inv in H as (dk & _ & H).
  destruct v as [|tv dv av rov].
  - injection H as <-. reflexivity.
  - apply obind_inv in H as (? & _ & H). apply obind_inv in H as (de & _ & H).
    destruct d as [| | | | | | | |[m|]| | | |]; try discriminate.
    injection H as <-. reflexivity.
Qed.

Lemma bindMap_exported bvk bve params key typ input input' v :
  bindMap_with bvk bve params key typ input = (input', Done v) -> exported v.
Proof.
  unfold bindMap_with. intros H.
  apply mbind_inv in H as (i & r0 & Hr0 & H).
  apply lift_inv in Hr0 as (_ & Hr0).
  eapply (foldM_invariant exported); [| |exact H].
  - intros a [paramName values] i0 i1 a' Ha. unfold bindMap_entry.
    destruct (_ || _).
    + intros Hret. apply ret_inv in Hret as (_ & ->). exact Ha.
    + intros Hrun. apply mbind_inv in Hrun as (j1 & k & _ & Hrun).
      apply mbind_inv in Hrun as (j2 & v0 & _ & Hrun).
      apply mbind_inv in Hrun as (j3 & ev & _ & Hrun).
      apply lift_inv in Hrun as (_ & Hrun).
      eapply SetMapIndex_exported; eauto.
  - unfold MakeMap in Hr0. destruct typ; try discriminate.
    injection Hr0 as <-. reflexivity.
Qed.

Lemma scalar_exported (binder : string -> rtype -> M Value) :
  (forall val typ input input' v, binder val typ input = (input', Done v) -> exported v) ->
  forall key typ input input' v,
    (val <- Query key ;;
     if strings.len val =? 0 then ret rv0 else binder val typ) input = (input', Done v) ->
    exported v.
Proof.
  intros Hb key typ input input' v H.
  apply mbind_inv in H as (i & val & _ & H).
  destruct (strings.len val =? 0).
  - apply ret_inv in H as (_ & ->). reflexivity.
  - eapply Hb; eauto.
Qed.

Lemma SetInt_exported v x v' : SetInt v x = Done v' -> exported v'.
Proof.
  unfold SetInt. destruct v as [|t d [|] [|]]; cbn; try discriminate.
  destruct (kind_of t); try discriminate; intros [= <-]; reflexivity.
Qed.

Lemma SetUint_exported v x v' : SetUint v x = Done v' -> exported v'.
Proof.
  unfold SetUint. destruct v as [|t d [|] [|]]; cbn; try discriminate.
  destruct (kind_of t); try discriminate; intros [= <-]; reflexivity.
Qed.

Lemma SetFloat_exported v x v' : SetFloat v x = Done v' -> exported v'.
Proof.
  unfold SetFloat. destruct v as [|t d [|] [|]]; cbn; try discriminate.
  destruct (kind_of t); try discriminate; intros [= <-]; reflexivity.
Qed.

Lemma bindInt_exported val typ input input' v :
  bindInt val typ input = (input', Done v) -> exported v.
Proof.
  unfold bindInt. destruct (strconv.ParseInt val 64) as [x [e|]].
  - intros H. apply ret_inv in H as (_ & ->). reflexivity.
  - intros H. apply mbind_inv in H as (i1 & pv & _ & H).
    apply mbind_inv in H as (i2 & e & _ & H). apply lift_inv in H as (_ & H).
    eapply SetInt_exported; eauto.
Qed.

Lemma bindUint_exported val typ input input' v :
  bindUint val typ input = (input', Done v) -> exported v.
Proof.
  unfold bindUint. destruct (strconv.ParseUint val 64) as [x [e|]].
  - intros H. apply ret_inv in H as (_ & ->). reflexivity.
  - intros H. apply mbind_inv in H as (i1 & pv & _ & H).
    apply mbind_inv in H as (i2 & e & _ & H). apply lift_inv in H as (_ & H).
    eapply SetUint_exported; eauto.
Qed.

Lemma bindFloat_exported val typ input input' v :
  bindFloat val typ input = (input', Done v) -> exported v.
Proof.
  unfold bindFloat. destruct (ParseFloat64 val) as [x|].
  - intros H. apply mbind_inv in H as (i1 & pv & _ & H).
    apply mbind_inv in H as (i2 & e & _ & H). apply lift_inv in H as (_ & H).
    eapply SetFloat_exported; eauto.
  - intros H. apply ret_inv in H as (_ & ->). reflexivity.
Qed.

Lemma bindString_exported val typ input input' v :
  bindString val typ input = (input', Done v) -> exported v.
Proof. intros H. apply ret_inv in H as (_ & ->). reflexivity. Qed.

Lemma bindBool_exported val typ input input' v :
  bindBool val typ input = (input', Done v) -> exported v.
Proof.
  unfold bindBool. destruct (is_true_literal _); intros H;
    apply ret_inv in H as (_ & ->); reflexivity.
Qed.

Lemma bindPoint_exported (be : string -> M Value) key input input' v :
  (forall k i i' x, be k i = (i', Done x) -> exported x) ->
  bindPoint_with be key input = (input', Done v) -> exported v.
Proof.
  intros Hbe. unfold bindPoint_with. intros H.
  apply mbind_inv in H as (i & x & Hx & H).
  apply lift_inv in H as (_ & H).
  apply Hbe in Hx. apply exported_inv in Hx as (t & d & a & ->).
  destruct a; [|discriminate]. injection H as <-. reflexivity.
Qed.

Lemma dispatch_exported t :
  (forall key input input' v, bind key t input = (input', Done v) -> exported v)
  /\ (forall val input input' v, bindValue val t input = (input', Done v) -> exported v).
Proof.
  induction t using rtype_induction;
    (split; [intros key input input' v Hrun|intros val input input' v Hrun]);
    cbn [bind bindValue] in Hrun;
    first
      [ solve [apply ret_inv in Hrun as (_ & ->); reflexivity]
      | solve [eapply (scalar_exported bindBool); [apply bindBool_exported|exact Hrun]]
      | solve [eapply (scalar_exported bindInt); [apply bindInt_exported|exact Hrun]]
      | solve [eapply (scalar_exported bindUint); [apply bindUint_exported|exact Hrun]]
      | solve [eapply (scalar_exported bindFloat); [apply bindFloat_exported|exact Hrun]]
      | solve [eapply (scalar_exported bindString); [apply bindString_exported|exact Hrun]]
      | solve [eapply bindBool_exported; exact Hrun]
      | solve [eapply bindInt_exported; exact Hrun]
      | solve [eapply bindUint_exported; exact Hrun]
      | solve [eapply bindFloat_exported; exact Hrun]
      | solve [eapply bindPoint_exported; [|exact Hrun]; intros k i i' x; apply IHt]
      | solve [eapply bindMap_exported; exact Hrun]
      | solve [eapply bindSlice_exported; exact Hrun]
      | solve [eapply bindStruct_exported; exact Hrun]
      | idtac ].
  all: apply mbind_inv in Hrun as (i & params & _ & Hrun).
  all: first [ eapply bindMap_exported; exact Hrun
             | eapply bindSlice_exported; exact Hrun
             | eapply bindStruct_exported; exact Hrun ].
Qed.

Lemma bind_exported key t input input' v :
  bind key t input = (input', Done v) -> exported v.
Proof. apply dispatch_exported. Qed.

Lemma bindValue_exported val t input input' v :
  bindValue val t input = (input', Done v) -> exported v.
Proof. apply dispatch_exported. Qed.

(** ** Facts about [reflect], [url] and [Query] *)

Lemma rtype_eqb_refl t : rtype_eqb t t = true.
Proof. unfold rtype_eqb. destruct (rtype_eq_dec t t); congruence. Qed.

Lemma directlyAssignable_refl t : directlyAssignable t t = true.
Proof. unfold directlyAssignable. rewrite rtype_eqb_refl. reflexivity. Qed.

Lemma assignTo_same context t d a ro :
  assignTo context (mkValue t d a ro) t = Done d.
Proof. unfold assignTo. rewrite directlyAssignable_refl. reflexivity. Qed.

(** Assigning a value of the location's own type stores its contents. *)
Lemma Set_same t d0 d a :
  Set_ (mkValue t d0 true false) (mkValue t d a false)
  = Done (mkValue t d true false).
Proof.
  unfold Set_. cbn [mustBeAssignable mustBeExported obind].
  rewrite assignTo_same. reflexivity.
Qed.

Lemma lookup_In (v : url.Values) k vs :
  url.wf v -> In (k, vs) v -> url.lookup v k = Some vs.
Proof.
  unfold url.wf. induction v as [|[k0 vs0] v IH]; intros Hwf Hin; [contradiction|].
  cbn in Hwf. inversion Hwf as [|? ? Hnotin Hwf']; subst.
  cbn [url.lookup]. destruct Hin as [[= -> ->]|Hin].
  - rewrite String.eqb_refl. reflexivity.
  - destruct (String.eqb_spec k0 k) as [->|Hne].
    + exfalso. apply Hnotin. apply (in_map fst) in Hin. exact Hin.
    + apply IH; assumption.
Qed.

Lemma lookup_None (v : url.Values) k :
  ~ In k (map fst v) -> url.lookup v k = None.
Proof.
  induction v as [|[k0 vs0] v IH]; intros Hnotin; [reflexivity|].
  cbn [url.lookup]. destruct (String.eqb_spec k0 k) as [->|Hne].
  - exfalso. apply Hnotin. left. reflexivity.
  - apply IH. intros Hin. apply Hnotin. right. exact Hin.
Qed.

Lemma with_prefix_In pre (v : url.Values) e :
  In e (url.with_prefix pre v) -> In e v.
Proof. unfold url.with_prefix. intros H. apply filter_In in H. tauto. Qed.

(** With a parsed form and no route parameter under [key], [Query] is the
    form's [Get] and leaves the input alone. *)
Lemma Query_form input form key :
  Param input key = "" -> Form (Request_ input) = Some form ->
  Query key input = (input, Done (url.Get form key)).
Proof.
  intros Hp Hf. unfold Query. rewrite Hp, Hf. cbn. rewrite Hf. reflexivity.
Qed.

Lemma Request_Form_parsed input form :
  Form (Request_ input) = Some form -> Request_Form input = (input, Done form).
Proof. intros Hf. unfold Request_Form. rewrite Hf. reflexivity. Qed.

Lemma wrap_small z : - 2 ^ 31 <= z < 2 ^ 31 -> Int.wrap z = z.
Proof.
  intros Hz. unfold Int.wrap, Int.size.
  destruct intSize; apply wrap_bits_fits; cbn [bits]; lia.
Qed.

Lemma Int_add_small a b : - 2 ^ 31 <= a + b < 2 ^ 31 -> Int.add a b = a + b.
Proof. apply wrap_small. Qed.

(** ** C6: one round of the first loop of [bindSlice] *)

Section SliceEntry.
Variables bindElem bindValueElem : string -> M Value.
Variables (key token rest : string).
Hypothesis no_bracket : strings.has_byte "]" token = false.

Local Abbreviation reqKey := (key ++ "[" ++ token ++ "]" ++ rest)%string.

Lemma entry_HasPrefix : strings.HasPrefix reqKey (key ++ "[") = true.
Proof.
  rewrite <- append_assoc. apply HasPrefix_append.
Qed.

Lemma entry_rightBracket :
  rightBracket key reqKey = strings.len key + 1 + strings.len token.
Proof.
  unfold rightBracket. rewrite slice_from_append.
  rewrite <- (append_assoc "[" token).
  rewrite Index_bracket.
  - rewrite len_append. change (strings.len "[") with 1. lia.
  - cbn. exact no_bracket.
Qed.

Lemma entry_token :
  strings.slice reqKey (strings.len key + 1) (strings.len key + 1 + strings.len token)
  = token.
Proof.
  rewrite <- !Z.add_assoc. rewrite slice_append_skip by lia.
  change 1 with (strings.len "[") at 1 2.
  rewrite <- (Z.add_0_r (strings.len "[")) at 1.
  rewrite slice_append_skip by lia.
  apply slice_take.
Qed.

Lemma entry_subkey :
  strings.slice_to reqKey (strings.len key + 1 + strings.len token + 1)
  = (key ++ "[" ++ token ++ "]")%string.
Proof.
  unfold strings.slice_to.
  replace (key ++ "[" ++ token ++ "]" ++ rest)%string
    with ((key ++ "[" ++ token ++ "]") ++ rest)%string.
  - replace (strings.len key + 1 + strings.len token + 1)
      with (strings.len (key ++ "[" ++ token ++ "]")).
    + apply slice_take.
    + rewrite !len_append. change (strings.len "[") with 1.
      change (strings.len "]") with 1. lia.
  - rewrite !append_assoc. reflexivity.
Qed.

Lemma entry_bracketIndex :
  bracketIndex key reqKey
  = if strings.len token =? 0 then -1 else fst (strconv.Atoi token).
Proof.
  unfold bracketIndex. rewrite entry_rightBracket.
  pose proof (len_nonneg token).
  destruct (Z.eqb_spec (strings.len token) 0) as [H0|Hpos].
  - destruct (Z.ltb_spec (strings.len key + 1) (strings.len key + 1 + strings.len token));
      [lia|reflexivity].
  - destruct (Z.ltb_spec (strings.len key + 1) (strings.len key + 1 + strings.len token));
      [|lia].
    rewrite entry_token. reflexivity.
Qed.

(** A round whose brackets hold an index: the element is bound by key,
    under the request key cut after its first closing bracket. *)
Lemma entry_indexed acc vals input :
  token <> EmptyString -> -1 < fst (strconv.Atoi token) ->
  bindSlice_entry bindElem bindValueElem key acc (reqKey, vals) input
  = (v <- bindElem (key ++ "[" ++ token ++ "]")%string ;;
     ret {| maxIndex := Z.max (maxIndex acc) (fst (strconv.Atoi token));
            numNoIndex := numNoIndex acc;
            sliceValues := sliceValues acc
                           ++ [mkSliceValue (fst (strconv.Atoi token)) v] |}) input.
Proof.
  intros Hne Hidx. unfold bindSlice_entry.
  rewrite entry_HasPrefix. cbn [negb].
  rewrite entry_bracketIndex, entry_rightBracket.
  assert (Hlen : (strings.len token =? 0) = false).
  { apply Z.eqb_neq. unfold strings.len. destruct token; [contradiction|]. cbn. lia. }
  rewrite Hlen.
  destruct (Z.ltb_spec (-1) (fst (strconv.Atoi token))); [|lia].
  rewrite entry_subkey.
  apply mbind_ext. intros v i.
  destruct (Z.ltb_spec (maxIndex acc) (fst (strconv.Atoi token)));
    [rewrite Z.max_r by lia|rewrite Z.max_l by lia]; reflexivity.
Qed.

Lemma foldM_collect (mk : Value -> sliceValue) vals : forall svs input,
  foldM (fun svs val => v <- bindValueElem val ;; ret (svs ++ [mk v])) vals svs input
  = (vs <- mapM bindValueElem vals ;; ret (svs ++ map mk vs)) input.
Proof.
  induction vals as [|val vals IH]; intros svs input; cbn [foldM mapM].
  - unfold mbind, ret. cbn. rewrite app_nil_r. reflexivity.
  - rewrite !mbind_assoc.
    destruct (bindValueElem val input) as [i [v|msg]] eqn:E.
    + rewrite !(mbind_done _ _ _ _ _ E).
      rewrite mbind_ret, mbind_assoc, IH. apply mbind_ext. intros ys i'.
      rewrite mbind_ret. unfold ret. cbn [map]. rewrite <- app_assoc. reflexivity.
    + rewrite !(mbind_panicked _ _ _ _ _ E). reflexivity.
Qed.

(** A round whose brackets hold no index, or a negative one: every value
    under the key is bound by literal and recorded without an index. *)
Lemma entry_unindexed acc vals input :
  token = EmptyString \/ fst (strconv.Atoi token) <= -1 ->
  bindSlice_entry bindElem bindValueElem key acc (reqKey, vals) input
  = (vs <- mapM bindValueElem vals ;;
     ret {| maxIndex := maxIndex acc;
            numNoIndex := Int.add (numNoIndex acc) (Z.of_nat (List.length vals));
            sliceValues := sliceValues acc ++ map (mkSliceValue (-1)) vs |}) input.
Proof.
  intros Hcase. unfold bindSlice_entry.
  rewrite entry_HasPrefix. cbn [negb].
  rewrite entry_bracketIndex.
  assert (Hidx : (if strings.len token =? 0 then -1 else fst (strconv.Atoi token)) <= -1).
  { destruct Hcase as [->|Hneg]; [reflexivity|].
    destruct (strings.len token =? 0); lia. }
  destruct (Z.ltb_spec (-1)
              (if strings.len token =? 0 then -1 else fst (strconv.Atoi token)));
    [lia|].
  change (?f input) with (f input).
  match goal with
  | |- mbind ?m ?k input = _ =>
      transitivity (mbind (vs <- mapM bindValueElem vals ;;
                           ret (sliceValues acc ++ map (mkSliceValue (-1)) vs)) k input)
  end.
  - unfold mbind at 1 3. rewrite foldM_collect. reflexivity.
  - rewrite mbind_assoc. apply mbind_ext. intros vs i. reflexivity.
Qed.

End SliceEntry.

(** A key that does not start with the prefix and an opening bracket is
    passed over. *)
Lemma entry_skipped bindElem bindValueElem key acc entry input :
  strings.HasPrefix (fst entry) (key ++ "[") = false ->
  bindSlice_entry bindElem bindValueElem key acc entry input = (input, Done acc).
Proof.
  destruct entry as [reqKey vals]. cbn [fst]. intros H.
  unfold bindSlice_entry. rewrite H. reflexivity.
Qed.

(** A key with no closing bracket after the prefix is read as a key
    without an index. *)
Lemma entry_unclosed bindElem bindValueElem key tail acc vals input :
  strings.has_byte "]" tail = false ->
  bindSlice_entry bindElem bindValueElem key acc ((key ++ "[" ++ tail)%string, vals) input
  = (vs <- mapM bindValueElem vals ;;
     ret {| maxIndex := maxIndex acc;
            numNoIndex := Int.add (numNoIndex acc) (Z.of_nat (List.length vals));
            sliceValues := sliceValues acc ++ map (mkSliceValue (-1)) vs |}) input.
Proof.
  intros Hno. unfold bindSlice_entry.
  assert (Hp : strings.HasPrefix (key ++ "[" ++ tail) (key ++ "[") = true).
  { rewrite <- append_assoc. apply HasPrefix_append. }
  rewrite Hp. cbn [negb].
  assert (Hi : bracketIndex key (key ++ "[" ++ tail) = -1).
  { unfold bracketIndex, rightBracket. rewrite slice_from_append.
    rewrite Index_no_bracket by (cbn; exact Hno).
    destruct (Z.ltb_spec (strings.len key + 1) (-1 + strings.len key)); [lia|reflexivity]. }
  rewrite Hi. destruct (Z.ltb_spec (-1) (-1)); [lia|].
  match goal with
  | |- mbind ?m ?k input = _ =>
      transitivity (mbind (vs <- mapM bindValueElem vals ;;
                           ret (sliceValues acc ++ map (mkSliceValue (-1)) vs)) k input)
  end.
  - unfold mbind at 1 3. rewrite foldM_collect. reflexivity.
  - rewrite mbind_assoc. apply mbind_ext. intros vs i. reflexivity.
Qed.

(** C6, amended.  In the first loop of [bindSlice], take a request key
    [key[token]rest], where [token] runs up to the first closing bracket,
    and let [N] be the integer [strconv.Atoi] returns for [token], its
    error dropped (0 when [token] is no numeral).  When [token] is not
    empty and [0 <= N], the entry is recorded as the element of index [N],
    bound by key under [key[token]], the request key cut after that
    bracket ([rest] is no part of it).  When [token] is empty or [N] is
    negative, every value under the request key is bound by literal
    against the element type and recorded without an index, and so it is
    when no closing bracket follows the prefix. *)
Theorem bindSlice_entry_classifies (e : rtype) (key : string)
    (acc : sliceScan) (vals : list string) (input : BeegoInput) :
  (forall token rest,
      strings.has_byte "]" token = false ->
      token <> EmptyString -> 0 <= fst (strconv.Atoi token) ->
      bindSlice_entry (fun k => bind k e) (fun v => bindValue v e) key acc
        ((key ++ "[" ++ token ++ "]" ++ rest)%string, vals) input
      = (v <- bind (key ++ "[" ++ token ++ "]")%string e ;;
         ret {| maxIndex := Z.max (maxIndex acc) (fst (strconv.Atoi token));
                numNoIndex := numNoIndex acc;
                sliceValues := sliceValues acc
                               ++ [mkSliceValue (fst (strconv.Atoi token)) v] |}) input)
  /\ (forall token rest,
      strings.has_byte "]" token = false ->
      token = EmptyString \/ fst (strconv.Atoi token) < 0 ->
      bindSlice_entry (fun k => bind k e) (fun v => bindValue v e) key acc
        ((key ++ "[" ++ token ++ "]" ++ rest)%string, vals) input
      = (vs <- mapM (fun v => bindValue v e) vals ;;
         ret {| maxIndex := maxIndex acc;
                numNoIndex := Int.add (numNoIndex acc) (Z.of_nat (List.length vals));
                sliceValues := sliceValues acc ++ map (mkSliceValue (-1)) vs |}) input)
  /\ (forall tail,
      strings.has_byte "]" tail = false ->
      bindSlice_entry (fun k => bind k e) (fun v => bindValue v e) key acc
        ((key ++ "[" ++ tail)%string, vals) input
      = (vs <- mapM (fun v => bindValue v e) vals ;;
         ret {| maxIndex := maxIndex acc;
                numNoIndex := Int.add (numNoIndex acc) (Z.of_nat (List.length vals));
                sliceValues := sliceValues acc ++ map (mkSliceValue (-1)) vs |}) input).
Proof.
  split; [|split].
  - intros token rest Hno Hne Hpos.
    apply entry_indexed; [assumption|assumption|lia].
  - intros token rest Hno Hcase. apply entry_unindexed; [assumption|].
    destruct Hcase as [->|Hneg]; [left; reflexivity|right; lia].
  - intros tail Hno. apply entry_unclosed. exact Hno.
Qed.

(** ** C1: the slices of the documentation *)

Lemma Atoi_0 : strconv.Atoi "0" = (0, None).
Proof.
  unfold strconv.Atoi, strconv.ParseInt, strconv.ParseUint, strconv.effective_bits,
    Int.wrap, Int.size.
  destruct intSize; reflexivity.
Qed.

Lemma Atoi_1 : strconv.Atoi "1" = (1, None).
Proof.
  unfold strconv.Atoi, strconv.ParseInt, strconv.ParseUint, strconv.effective_bits,
    Int.wrap, Int.size.
  destruct intSize; reflexivity.
Qed.

Lemma small_int_fits w v : - 2 ^ 7 <= v < 2 ^ 7 -> Int.wrap_bits (int_bits w) v = v.
Proof.
  intros Hv. apply wrap_bits_fits; [apply int_bits_pos|].
  destruct w; cbn [int_bits]; try lia.
  unfold Int.size. destruct intSize; cbn [bits]; lia.
Qed.

(** Binding by key a scalar whose key the form holds. *)
Lemma bind_int_found input form key n w v vs :
  Param input key = "" -> Form (Request_ input) = Some form ->
  url.lookup form key = Some (v :: vs) -> v <> EmptyString ->
  bind key (TInt n w) input = bindInt v (TInt n w) input.
Proof.
  intros Hp Hf Hl Hv. cbn [bind].
  rewrite (mbind_done _ _ _ _ _ (Query_form input form key Hp Hf)).
  unfold url.Get. rewrite Hl.
  destruct v; [contradiction|]. reflexivity.
Qed.

Lemma bind_string_found input form key n v vs :
  Param input key = "" -> Form (Request_ input) = Some form ->
  url.lookup form key = Some (v :: vs) -> v <> EmptyString ->
  bind key (TString n) input = bindString v (TString n) input.
Proof.
  intros Hp Hf Hl Hv. cbn [bind].
  rewrite (mbind_done _ _ _ _ _ (Query_form input form key Hp Hf)).
  unfold url.Get. rewrite Hl.
  destruct v; [contradiction|]. reflexivity.
Qed.

Lemma MakeSlice_ok n e len cap :
  0 <= len <= cap ->
  MakeSlice (TSlice n e) len cap
  = Done (mkValue (TSlice n e) (DSlice (Some (repeat (zero e) (Z.to_nat len)))) false false).
Proof.
  intros H. unfold MakeSlice.
  destruct (Z.ltb_spec len 0); [lia|].
  destruct (Z.ltb_spec cap 0); [lia|].
  destruct (Z.ltb_spec cap len); [lia|]. reflexivity.
Qed.

(** The second loop of [bindSlice]: an indexed value lands at its index,
    a value without an index is appended. *)
Lemma place_indexed n e l i d a input :
  0 <= i < Z.of_nat (List.length l) ->
  bindSlice_place (mkValue (TSlice n e) (DSlice (Some l)) false false)
    (mkSliceValue i (mkValue e d a false)) input
  = (input,
     Done (mkValue (TSlice n e) (DSlice (Some (list_set l (Z.to_nat i) d))) false false)).
Proof.
  intros Hi. unfold bindSlice_place. cbn [index value].
  destruct (Z.eqb_spec i (-1)) as [?|_]; [lia|]. cbn [negb].
  unfold lift, Index_Set, Index. cbn [slice_elems].
  destruct (Z.leb_spec 0 i); [|lia].
  destruct (Z.ltb_spec i (Z.of_nat (List.length l))); [|lia]. cbn [andb].
  destruct (nth_error l (Z.to_nat i)) as [x|] eqn:Hx.
  - cbn [obind]. rewrite Set_same. reflexivity.
  - apply nth_error_None in Hx. lia.
Qed.

Lemma place_unindexed n e l d a input :
  bindSlice_place (mkValue (TSlice n e) (DSlice (Some l)) false false)
    (mkSliceValue (-1) (mkValue e d a false)) input
  = (input, Done (mkValue (TSlice n e) (DSlice (Some (l ++ [d]))) false false)).
Proof.
  unfold bindSlice_place. cbn [index value Z.eqb negb].
  unfold lift, Append. cbn [mustBeExported obind].
  rewrite assignTo_same. reflexivity.
Qed.

Lemma perm_pair {A} (l : list A) (x y : A) :
  Permutation l [x; y] -> l = [x; y] \/ l = [y; x].
Proof.
  intros H. apply Permutation_sym in H.
  apply Permutation_length_2_inv in H. tauto.
Qed.

Lemma perm_single {A} (l : list A) (x : A) : Permutation l [x] -> l = [x].
Proof.
  intros H. apply Permutation_sym in H. apply Permutation_length_1_inv in H.
  exact H.
Qed.

(** [Bind] on a pointer to a variable: what is left after the checks of
    the destination. *)
Lemma Bind_pointer pn t old key input :
  Bind (Some (TPtr pn t, DPtr (Some old))) key input
  = (rv <- bind key t ;;
     if negb (IsValid rv) then
       ret (Some "beego: reflect value is empty", Some (TPtr pn t, DPtr (Some old)))
     else
       value' <- lift (Set_ (mkValue t old true false) rv) ;;
       ret (None, Some (TPtr pn t, DPtr (Some (data_of value'))))) input.
Proof. reflexivity. Qed.

(** The first loop of [bindSlice] reads the entries under the prefix
    only. *)
Lemma bindSlice_scan_with_prefix be bve key (form : url.Values) acc input :
  foldM (bindSlice_entry be bve key) form acc input
  = foldM (bindSlice_entry be bve key) (url.with_prefix (key ++ "[") form) acc input.
Proof.
  unfold url.with_prefix. apply foldM_filter.
  intros a x i Hx. apply entry_skipped. exact Hx.
Qed.

Lemma signed_decimal_nonempty v n : Numeral.signed_decimal v = Some n -> v <> EmptyString.
Proof. intros H ->. discriminate. Qed.

(** A round of the first loop on an indexed key whose first value is a
    small numeral, the elements being integers. *)
Lemma scan_int_entry input form en w key tok N v0 vals n acc :
  Form (Request_ input) = Some form -> url.wf form ->
  In ((key ++ "[" ++ tok ++ "]")%string, v0 :: vals) form ->
  Param input (key ++ "[" ++ tok ++ "]")%string = "" ->
  strings.has_byte "]" tok = false -> tok <> EmptyString ->
  strconv.Atoi tok = (N, None) -> 0 <= N ->
  Numeral.signed_decimal v0 = Some n -> - 2 ^ 7 <= n < 2 ^ 7 ->
  bindSlice_entry (fun k => bind k (TInt en w)) (fun v => bindValue v (TInt en w))
    key acc ((key ++ "[" ++ tok ++ "]" ++ "")%string, v0 :: vals) input
  = (input,
     Done {| maxIndex := Z.max (maxIndex acc) N;
             numNoIndex := numNoIndex acc;
             sliceValues := sliceValues acc
                            ++ [mkSliceValue N (mkValue (TInt en w) (DInt n) true false)] |}).
Proof.
  intros Hf Hwf Hin Hp Hno Hne HN Hpos Hv Hn.
  rewrite entry_indexed by (try assumption; rewrite HN; cbn [fst]; lia).
  rewrite HN. cbn [fst].
  assert (Hb : bind (key ++ "[" ++ tok ++ "]") (TInt en w) input
               = (input, Done (mkValue (TInt en w) (DInt n) true false))).
  { rewrite (bind_int_found input form _ en w v0 vals Hp Hf (lookup_In _ _ _ Hwf Hin)
               (signed_decimal_nonempty _ _ Hv)).
    rewrite (bindInt_numeral en w v0 input n Hv) by lia.
    rewrite small_int_fits by lia. reflexivity. }
  rewrite (mbind_done _ _ _ _ _ Hb). reflexivity.
Qed.

(** The same for elements of type [string]. *)
Lemma scan_string_entry input form key tok N v0 vals acc :
  Form (Request_ input) = Some form -> url.wf form ->
  In ((key ++ "[" ++ tok ++ "]")%string, v0 :: vals) form ->
  Param input (key ++ "[" ++ tok ++ "]")%string = "" ->
  strings.has_byte "]" tok = false -> tok <> EmptyString ->
  strconv.Atoi tok = (N, None) -> 0 <= N -> v0 <> EmptyString ->
  bindSlice_entry (fun k => bind k string_type) (fun v => bindValue v string_type)
    key acc ((key ++ "[" ++ tok ++ "]" ++ "")%string, v0 :: vals) input
  = (input,
     Done {| maxIndex := Z.max (maxIndex acc) N;
             numNoIndex := numNoIndex acc;
             sliceValues := sliceValues acc
                            ++ [mkSliceValue N (mkValue string_type (DString v0) false false)] |}).
Proof.
  intros Hf Hwf Hin Hp Hno Hne HN Hpos Hv.
  rewrite entry_indexed by (try assumption; rewrite HN; cbn [fst]; lia).
  rewrite HN. cbn [fst].
  assert (Hb : bind (key ++ "[" ++ tok ++ "]") string_type input
               = (input, Done (mkValue string_type (DString v0) false false))).
  { unfold string_type at 1.
    rewrite (bind_string_found input form _ "string" v0 vals Hp Hf
               (lookup_In _ _ _ Hwf Hin) Hv).
    reflexivity. }
  rewrite (mbind_done _ _ _ _ _ Hb). reflexivity.
Qed.

(** A round on the key [key[]], the elements being strings. *)
Lemma scan_string_unindexed key vals acc input :
  bindSlice_entry (fun k => bind k string_type) (fun v => bindValue v string_type)
    key acc ((key ++ "[" ++ "" ++ "]" ++ "")%string, vals) input
  = (input,
     Done {| maxIndex := maxIndex acc;
             numNoIndex := Int.add (numNoIndex acc) (Z.of_nat (List.length vals));
             sliceValues :=
               sliceValues acc
               ++ map (fun v => mkSliceValue (-1) (mkValue string_type (DString v) false false))
                    vals |}).
Proof.
  rewrite entry_unindexed by (reflexivity || (left; reflexivity)).
  assert (Hm : forall l i,
             mapM (fun v => bindValue v string_type) l i
             = (i, Done (map (fun v => mkValue string_type (DString v) false false) l))).
  { induction l as [|v l IH]; intros i; [reflexivity|].
    cbn [mapM map]. unfold mbind at 1. cbn. rewrite (mbind_done _ _ _ _ _ (IH i)).
    reflexivity. }
  rewrite (mbind_done _ _ _ _ _ (Hm vals input)). unfold ret.
  rewrite map_map. reflexivity.
Qed.

Lemma perm_In {A} (l l' : list A) x : Permutation l l' -> In x l' -> In x l.
Proof. intros H Hx. apply Permutation_sym in H. exact (Permutation_in x H Hx). Qed.

(** What is left of [bindSlice] after its first loop. *)
Lemma bindSlice_after_scan be bve (params : url.Values) key typ input scan :
  foldM (bindSlice_entry be bve key) (url.with_prefix (key ++ "[") params)
    (mkScan (-1) 0 []) input = (input, Done scan) ->
  bindSlice_with be bve params key typ input
  = (resultArray <- lift (MakeSlice typ (Int.add (maxIndex scan) 1)
                            (Int.add (Int.add (maxIndex scan) 1) (numNoIndex scan))) ;;
     foldM bindSlice_place (sliceValues scan) resultArray) input.
Proof.
  intros H. unfold bindSlice_with.
  rewrite <- bindSlice_scan_with_prefix in H.
  rewrite (mbind_done _ _ _ _ _ H). reflexivity.
Qed.

Ltac place_next :=
  erewrite mbind_done;
  [|first [ apply place_indexed; cbn [List.length]; lia | apply place_unindexed ]];
  change (Z.to_nat 0) with 0%nat; change (Z.to_nat 1) with 1%nat;
  cbn [list_set app].

(** C1.  With a parsed form whose entries under ["ol["] are [ol[0]=1] and
    [ol[1]=2], in whatever order the map yields them and whatever else the
    form holds, [Bind] of ["ol"] into a slice of integers of any width
    stores [[1, 2]]; with [ul[]=str&ul[]=array] under ["ul["], [Bind] of
    ["ul"] into a slice of strings stores [["str", "array"]], the values
    in their order under the key; with [a[0]=x] and [a[]=y] under ["a["],
    [Bind] of ["a"] into a slice of strings stores the two elements
    [["x", "y"]]: one slot for the largest index, then the value without
    an index.  Each call returns no error and leaves the input alone. *)
Theorem Bind_slices_of_the_documentation (input : BeegoInput) (form : url.Values) :
  Form (Request_ input) = Some form -> url.wf form ->
  (forall pn sn en w old,
      Permutation (url.with_prefix "ol[" form) [("ol[0]", ["1"]); ("ol[1]", ["2"])] ->
      Param input "ol[0]" = "" -> Param input "ol[1]" = "" ->
      Bind (Some (TPtr pn (TSlice sn (TInt en w)), DPtr (Some old))) "ol" input
      = (input,
         Done (None, Some (TPtr pn (TSlice sn (TInt en w)),
                           DPtr (Some (DSlice (Some [DInt 1; DInt 2])))))))
  /\ (forall pn sn old,
      Permutation (url.with_prefix "ul[" form) [("ul[]", ["str"; "array"])] ->
      Bind (Some (TPtr pn (TSlice sn string_type), DPtr (Some old))) "ul" input
      = (input,
         Done (None, Some (TPtr pn (TSlice sn string_type),
                           DPtr (Some (DSlice (Some [DString "str"; DString "array"])))))))
  /\ (forall pn sn old,
      Permutation (url.with_prefix "a[" form) [("a[0]", ["x"]); ("a[]", ["y"])] ->
      Param input "a[0]" = "" ->
      Bind (Some (TPtr pn (TSlice sn string_type), DPtr (Some old))) "a" input
      = (input,
         Done (None, Some (TPtr pn (TSlice sn string_type),
                           DPtr (Some (DSlice (Some [DString "x"; DString "y"]))))))).
Proof.
  intros Hf Hwf. split; [|split].
  - intros pn sn en w old Hperm Hp0 Hp1.
    assert (Hin0 : In ("ol[0]", ["1"]) form).
    { apply (with_prefix_In "ol["). apply (perm_In _ _ _ Hperm). cbn. auto. }
    assert (Hin1 : In ("ol[1]", ["2"]) form).
    { apply (with_prefix_In "ol["). apply (perm_In _ _ _ Hperm). cbn. auto. }
    assert (S0 : forall acc,
      bindSlice_entry (fun k => bind k (TInt en w)) (fun v => bindValue v (TInt en w))
        "ol" acc ("ol[0]", ["1"]) input
      = (input, Done {| maxIndex := Z.max (maxIndex acc) 0;
                        numNoIndex := numNoIndex acc;
                        sliceValues := sliceValues acc
                          ++ [mkSliceValue 0 (mkValue (TInt en w) (DInt 1) true false)] |})).
    { intros acc.
      apply (scan_int_entry input form en w "ol" "0" 0 "1" [] 1 acc);
        try assumption; try reflexivity; try discriminate; try lia.
      apply Atoi_0. }
    assert (S1 : forall acc,
      bindSlice_entry (fun k => bind k (TInt en w)) (fun v => bindValue v (TInt en w))
        "ol" acc ("ol[1]", ["2"]) input
      = (input, Done {| maxIndex := Z.max (maxIndex acc) 1;
                        numNoIndex := numNoIndex acc;
                        sliceValues := sliceValues acc
                          ++ [mkSliceValue 1 (mkValue (TInt en w) (DInt 2) true false)] |})).
    { intros acc.
      apply (scan_int_entry input form en w "ol" "1" 1 "2" [] 2 acc);
        try assumption; try reflexivity; try discriminate; try lia.
      apply Atoi_1. }
    rewrite Bind_pointer. cbn [bind].
    rewrite (mbind_assoc Request_Form).
    rewrite (mbind_done _ _ _ _ _ (Request_Form_parsed input form Hf)).
    assert (Hb : bindSlice_with (fun k => bind k (TInt en w))
                   (fun v => bindValue v (TInt en w)) form "ol" (TSlice sn (TInt en w)) input
                 = (input, Done (mkValue (TSlice sn (TInt en w))
                                   (DSlice (Some [DInt 1; DInt 2])) false false))).
    { destruct (perm_pair _ _ _ Hperm) as [E|E].
      - erewrite bindSlice_after_scan.
        2:{ change ("ol" ++ "[")%string with "ol[". rewrite E. cbn [foldM].
            rewrite (mbind_done _ _ _ _ _ (S0 _)).
            rewrite (mbind_done _ _ _ _ _ (S1 _)). reflexivity. }
        cbn [maxIndex numNoIndex sliceValues app].
        change (Z.max (Z.max (-1) 0) 1) with 1.
        rewrite !Int_add_small by lia.
        rewrite MakeSlice_ok by lia. rewrite mbind_lift_done.
        change (Z.to_nat (1 + 1)) with 2%nat. cbn [repeat zero foldM].
        place_next. place_next. reflexivity.
      - erewrite bindSlice_after_scan.
        2:{ change ("ol" ++ "[")%string with "ol[". rewrite E. cbn [foldM].
            rewrite (mbind_done _ _ _ _ _ (S1 _)).
            rewrite (mbind_done _ _ _ _ _ (S0 _)). reflexivity. }
        cbn [maxIndex numNoIndex sliceValues app].
        change (Z.max (Z.max (-1) 1) 0) with 1.
        rewrite !Int_add_small by lia.
        rewrite MakeSlice_ok by lia. rewrite mbind_lift_done.
        change (Z.to_nat (1 + 1)) with 2%nat. cbn [repeat zero foldM].
        place_next. place_next. reflexivity. }
    rewrite (mbind_done _ _ _ _ _ Hb). cbn [IsValid negb].
    rewrite Set_same. reflexivity.
  - intros pn sn old Hperm.
    apply perm_single in Hperm.
    rewrite Bind_pointer. unfold string_type at 1. cbn [bind]. fold string_type.
    rewrite (mbind_assoc Request_Form).
    rewrite (mbind_done _ _ _ _ _ (Request_Form_parsed input form Hf)).
    assert (Hb : bindSlice_with (fun k => bind k string_type)
                   (fun v => bindValue v string_type) form "ul" (TSlice sn string_type) input
                 = (input, Done (mkValue (TSlice sn string_type)
                                   (DSlice (Some [DString "str"; DString "array"]))
                                   false false))).
    { erewrite bindSlice_after_scan.
      2:{ change ("ul" ++ "[")%string with "ul[". rewrite Hperm. cbn [foldM].
          rewrite (mbind_done _ _ _ _ _
                     (scan_string_unindexed "ul" ["str"; "array"] _ input)).
          reflexivity. }
      cbn [maxIndex numNoIndex sliceValues app map List.length].
      rewrite (Int_add_small 0 (Z.of_nat 2)) by (cbn; lia).
      rewrite !Int_add_small by (cbn; lia).
      rewrite MakeSlice_ok by (cbn; lia). rewrite mbind_lift_done.
      change (Z.to_nat (-1 + 1)) with 0%nat. cbn [repeat zero foldM].
      place_next. place_next. reflexivity. }
    rewrite (mbind_done _ _ _ _ _ Hb). cbn [IsValid negb].
    rewrite Set_same. reflexivity.
  - intros pn sn old Hperm Hp0.
    assert (Hin0 : In ("a[0]", ["x"]) form).
    { apply (with_prefix_In "a["). apply (perm_In _ _ _ Hperm). cbn. auto. }
    assert (S0 : forall acc,
      bindSlice_entry (fun k => bind k string_type) (fun v => bindValue v string_type)
        "a" acc ("a[0]", ["x"]) input
      = (input, Done {| maxIndex := Z.max (maxIndex acc) 0;
                        numNoIndex := numNoIndex acc;
                        sliceValues := sliceValues acc
                          ++ [mkSliceValue 0 (mkValue string_type (DString "x") false false)] |})).
    { intros acc.
      apply (scan_string_entry input form "a" "0" 0 "x" [] acc);
        try assumption; try reflexivity; try discriminate; try lia.
      apply Atoi_0. }
    rewrite Bind_pointer. unfold string_type at 1. cbn [bind]. fold string_type.
    rewrite (mbind_assoc Request_Form).
    rewrite (mbind_done _ _ _ _ _ (Request_Form_parsed input form Hf)).
    assert (Hb : bindSlice_with (fun k => bind k string_type)
                   (fun v => bindValue v string_type) form "a" (TSlice sn string_type) input
                 = (input, Done (mkValue (TSlice sn string_type)
                                   (DSlice (Some [DString "x"; DString "y"]))
                                   false false))).
    { destruct (perm_pair _ _ _ Hperm) as [E|E].
      - erewrite bindSlice_after_scan.
        2:{ change ("a" ++ "[")%string with "a[". rewrite E. cbn [foldM].
            rewrite (mbind_done _ _ _ _ _ (S0 _)).
            rewrite (mbind_done _ _ _ _ _ (scan_string_unindexed "a" ["y"] _ input)).
            reflexivity. }
        cbn [maxIndex numNoIndex sliceValues app map List.length].
        change (Z.max (-1) 0) with 0.
        rewrite (Int_add_small 0 (Z.of_nat 1)) by (cbn; lia).
        rewrite !Int_add_small by (cbn; lia).
        rewrite MakeSlice_ok by (cbn; lia). rewrite mbind_lift_done.
        change (Z.to_nat (0 + 1)) with 1%nat. cbn [repeat zero foldM].
        place_next. place_next. reflexivity.
      - erewrite bindSlice_after_scan.
        2:{ change ("a" ++ "[")%string with "a[". rewrite E. cbn [foldM].
            rewrite (mbind_done _ _ _ _ _ (scan_string_unindexed "a" ["y"] _ input)).
            rewrite (mbind_done _ _ _ _ _ (S0 _)).
            reflexivity. }
        cbn [maxIndex numNoIndex sliceValues app map List.length].
        change (Z.max (-1) 0) with 0.
        rewrite (Int_add_small 0 (Z.of_nat 1)) by (cbn; lia).
        rewrite !Int_add_small by (cbn; lia).
        rewrite MakeSlice_ok by (cbn; lia). rewrite mbind_lift_done.
        change (Z.to_nat (0 + 1)) with 1%nat. cbn [repeat zero foldM].
        place_next. place_next. reflexivity. }
    rewrite (mbind_done _ _ _ _ _ Hb). cbn [IsValid negb].
    rewrite Set_same. reflexivity.
Qed.

(** ** C7: the struct binder *)

Lemma find_field_nth fs name : forall start i f,
  find_field fs name start = Some (i, f) ->
  (start <= i)%nat /\ nth_error fs (i - start) = Some f /\ Name f = name.
Proof.
  induction fs as [|g fs IH]; intros start i f H; [discriminate|].
  cbn [find_field] in H. destruct (String.eqb_spec (Name g) name) as [He|Hne].
  - injection H as <- <-. rewrite Nat.sub_diag. auto.
  - apply IH in H as (Hle & Hnth & Hname).
    split; [lia|]. split; [|exact Hname].
    replace (i - start)%nat with (S (i - S start)) by lia. exact Hnth.
Qed.

Lemma field_by_name_nth fs name i f :
  field_by_name fs name = Some (i, f) ->
  nth_error fs i = Some f /\ Name f = name /\ name <> EmptyString.
Proof.
  unfold field_by_name. destruct (String.eqb_spec name "") as [->|Hne]; [discriminate|].
  intros H. apply find_field_nth in H as (_ & Hnth & Hname).
  rewrite Nat.sub_0_r in Hnth. auto.
Qed.

(** The binder that [bindStruct] picks for a field is [bindValue] at the
    field's type. *)
Lemma field_binders_at fs name i f val input :
  field_by_name fs name = Some (i, f) ->
  field_binders bindValue fs i val input = bindValue val (Typ f) input.
Proof.
  intros H. apply field_by_name_nth in H as (Hnth & _).
  unfold field_binders.
  rewrite (nth_indep _ (fun _ => ret rv0) (fun val => bindValue val (Typ f))).
  - change (fun val0 => bindValue val0 (Typ f))
      with ((fun g val0 => bindValue val0 (Typ g)) f).
    rewrite map_nth. rewrite (nth_error_nth _ _ _ Hnth). reflexivity.
  - rewrite length_map. apply nth_error_Some. congruence.
Qed.

Lemma bindStruct_unfold n fs params key input :
  bindStruct params key (TStruct n fs) input
  = (scan <- foldM (bindStruct_entry (field_binders bindValue fs) key (TStruct n fs))
               params (mkStructScan (mkValue (TStruct n fs) (zero (TStruct n fs)) true false) []) ;;
     ret (result scan)) input.
Proof. reflexivity. Qed.

(** The dispatchers hand a struct to [bindStruct]. *)
Lemma bind_struct n fs key input :
  bind key (TStruct n fs) input
  = (params <- Request_Form ;; bindStruct params key (TStruct n fs)) input.
Proof. reflexivity. Qed.

Lemma bindValue_struct n fs val input :
  bindValue val (TStruct n fs) input
  = bindStruct [("", [val])] "" (TStruct n fs) input.
Proof. reflexivity. Qed.

Section StructEntry.
Variables (n : string) (fs : list (StructField rtype)).
Variables (key fieldName : string) (val : list string).
Variable acc : structScan.
Variable ds : list data.
Hypothesis result_shape : result acc = mkValue (TStruct n fs) (DStruct ds) true false.

Local Abbreviation entry :=
  (bindStruct_entry (field_binders bindValue fs) key (TStruct n fs) acc
     ((key ++ "." ++ fieldName)%string, val)).

Lemma struct_entry_fieldName :
  strings.slice_from (key ++ "." ++ fieldName) (strings.len key + 1) = fieldName.
Proof.
  rewrite <- append_assoc.
  replace (strings.len key + 1) with (strings.len (key ++ ".")).
  - apply slice_from_append.
  - rewrite len_append. reflexivity.
Qed.

Lemma struct_entry_HasPrefix :
  strings.HasPrefix (key ++ "." ++ fieldName) (key ++ ".") = true.
Proof. rewrite <- append_assoc. apply HasPrefix_append. Qed.




(** An exported field that is not bound yet is assigned the first value
    of the entry, bound by literal against the field's type. *)
Lemma struct_entry_sets input i f :
  existsb (String.eqb fieldName) (fieldValues acc) = false ->
  field_by_name fs fieldName = Some (i, f) -> PkgPath f = EmptyString ->
  entry input
  = (val0 <- index0 val ;;
     boundVal <- bindValue val0 (Typ f) ;;
     result' <- lift (FieldByName_Set (result acc) fieldName boundVal) ;;
     ret {| result := result'; fieldValues := fieldName :: fieldValues acc |}) input.
Proof.
  intros Hseen H Hpkg. unfold bindStruct_entry.
  rewrite struct_entry_HasPrefix, struct_entry_fieldName. cbn [negb].
  rewrite Hseen. rewrite result_shape. unfold FieldByName at 1. rewrite H, Hpkg.
  cbn [String.eqb negb orb]. rewrite mbind_lift_done. cbn [IsValid CanSet negb andb].
  apply mbind_ext. intros val0 i0.
  unfold field_position. rewrite H.
  unfold mbind at 1 3. rewrite (field_binders_at fs fieldName i f val0 i0 H).
  reflexivity.
Qed.

(** What the assignment to the field leaves in [result]. *)
Lemma FieldByName_Set_assigns i f boundVal d :
  field_by_name fs fieldName = Some (i, f) -> PkgPath f = EmptyString ->
  mustBeExported boundVal = Done tt ->
  assignTo "reflect.Set" boundVal (Typ f) = Done d ->
  FieldByName_Set (result acc) fieldName boundVal
  = Done (mkValue (TStruct n fs) (DStruct (list_set ds i d)) true false).
Proof.
  intros H Hpkg Hexp Hassign. rewrite result_shape.
  unfold FieldByName_Set, FieldByName. rewrite H, Hpkg.
  cbn [String.eqb negb orb obind struct_fields].
  unfold Set_. cbn [mustBeAssignable obind]. rewrite Hexp. cbn [obind].
  rewrite Hassign. reflexivity.
Qed.

End StructEntry.

Lemma struct_entry_skipped bvf key typ acc entry input :
  strings.HasPrefix (fst entry) (key ++ ".") = false ->
  bindStruct_entry bvf key typ acc entry input = (input, Done acc).
Proof.
  destruct entry as [reqKey val]. cbn [fst]. intros H.
  unfold bindStruct_entry. rewrite H. reflexivity.
Qed.

(** [bindStruct] reads the entries under [key.] only. *)
Lemma bindStruct_with_prefix params key typ input :
  bindStruct params key typ input
  = bindStruct (url.with_prefix (key ++ ".") params) key typ input.
Proof.
  destruct typ; try reflexivity.
  rewrite !bindStruct_unfold. unfold mbind.
  rewrite (foldM_filter _ (fun e => strings.HasPrefix (fst e) (key ++ "."))).
  - reflexivity.
  - intros a x i Hx. apply struct_entry_skipped. exact Hx.
Qed.

(** The round of [bindStruct] on an exported field that is not bound yet,
    when binding and assigning go through. *)
Lemma struct_entry_bound n fs key fieldName v0 rest acc ds input input' i f bv d :
  result acc = mkValue (TStruct n fs) (DStruct ds) true false ->
  existsb (String.eqb fieldName) (fieldValues acc) = false ->
  field_by_name fs fieldName = Some (i, f) -> PkgPath f = EmptyString ->
  bindValue v0 (Typ f) input = (input', Done bv) ->
  assignTo "reflect.Set" bv (Typ f) = Done d ->
  bindStruct_entry (field_binders bindValue fs) key (TStruct n fs) acc
    ((key ++ "." ++ fieldName)%string, v0 :: rest) input
  = (input',
     Done {| result := mkValue (TStruct n fs) (DStruct (list_set ds i d)) true false;
             fieldValues := fieldName :: fieldValues acc |}).
Proof.
  intros Hshape Hseen Hfield Hpkg Hbind Hassign.
  rewrite (struct_entry_sets n fs key fieldName (v0 :: rest) acc ds Hshape input i f
             Hseen Hfield Hpkg).
  cbn [index0]. rewrite mbind_ret.
  rewrite (mbind_done _ _ _ _ _ Hbind).
  rewrite (FieldByName_Set_assigns n fs fieldName acc ds Hshape i f bv d Hfield Hpkg
             (bindValue_exported _ _ _ _ _ Hbind) Hassign).
  reflexivity.
Qed.


(** ** Maps *)

(** *** Go's [==] on map keys is symmetric and transitive

    It is not reflexive: a floating-point NaN differs from itself, and a
    map can hold several entries whose key is a NaN. *)

Lemma list_eqb_sym {A} (eqb : A -> A -> bool) xs :
  Forall (fun x => forall y, eqb x y = eqb y x) xs ->
  forall ys, list_eqb eqb xs ys = list_eqb eqb ys xs.
Proof.
  induction 1 as [|x xs Hx _ IH]; intros [|y ys]; cbn; try reflexivity.
  rewrite Hx. f_equal. apply IH.
Qed.

Lemma list_eqb_trans {A} (eqb : A -> A -> bool) xs :
  Forall (fun x => forall y z, eqb x y = true -> eqb y z = true -> eqb x z = true) xs ->
  forall ys zs,
    list_eqb eqb xs ys = true -> list_eqb eqb ys zs = true -> list_eqb eqb xs zs = true.
Proof.
  induction 1 as [|x xs Hx _ IH]; intros [|y ys] [|z zs]; cbn;
    try discriminate; try reflexivity.
  intros H1 H2.
  apply andb_true_iff in H1 as [H1 H1']. apply andb_true_iff in H2 as [H2 H2'].
  apply andb_true_iff. split; [exact (Hx _ _ H1 H2)|exact (IH _ _ H1' H2')].
Qed.

Lemma rtype_eqb_eq a b : rtype_eqb a b = true -> a = b.
Proof. unfold rtype_eqb. destruct (rtype_eq_dec a b); [trivial|discriminate]. Qed.

Lemma rtype_eqb_sym a b : rtype_eqb a b = rtype_eqb b a.
Proof.
  unfold rtype_eqb.
  destruct (rtype_eq_dec a b), (rtype_eq_dec b a); congruence.
Qed.

Ltac split_contents :=
  repeat match goal with
         | o : option _ |- _ => destruct o
         | p : (_ * _)%type |- _ => destruct p
         end.

Ltac split_bools :=
  repeat match goal with x : bool |- _ => destruct x end.

Lemma data_eqb_sym a : forall b, data_eqb a b = data_eqb b a.
Proof.
  induction a as [x|x|x|x|x x'|x| |x IH| |l IH| |l IH|l IH|l IH| |t x IH|]
    using data_induction;
    intros other; destruct other; split_contents; try reflexivity; cbn [data_eqb].
  - split_bools; reflexivity.
  - apply Z.eqb_sym.
  - apply Z.eqb_sym.
  - apply float64_eqb_sym.
  - f_equal; apply float64_eqb_sym.
  - apply String.eqb_sym.
  - apply list_eqb_sym. exact IH.
  - apply list_eqb_sym. exact IH.
  - rewrite rtype_eqb_sym. f_equal. apply IH.
Qed.

Lemma data_eqb_trans a :
  forall b c, data_eqb a b = true -> data_eqb b c = true -> data_eqb a c = true.
Proof.
  induction a as [x|x|x|x|x x'|x| |x IH| |l IH| |l IH|l IH|l IH| |t x IH|]
    using data_induction;
    intros other last; destruct other; split_contents; try discriminate;
    destruct last; split_contents; try discriminate; try reflexivity; cbn [data_eqb].
  - split_bools; trivial; discriminate.
  - rewrite !Z.eqb_eq. congruence.
  - rewrite !Z.eqb_eq. congruence.
  - apply float64_eqb_trans.
  - rewrite !andb_true_iff. intros [H1 H2] [H3 H4].
    split; eapply float64_eqb_trans; eassumption.
  - rewrite !String.eqb_eq. congruence.
  - apply list_eqb_trans. exact IH.
  - apply list_eqb_trans. exact IH.
  - rewrite !andb_true_iff. intros [H1 H2] [H3 H4]. split.
    + apply rtype_eqb_eq in H1, H3. subst. apply rtype_eqb_refl.
    + eapply IH; eassumption.
Qed.

(** An assignment [m[k] = v] is what a later index expression [m[k']]
    finds when [k == k'], and changes no other entry. *)
Lemma map_lookup_assign m k v k' :
  map_lookup (map_assign m k v) k'
  = if data_eqb k k' then Some v else map_lookup m k'.
Proof.
  induction m as [|[k0 v0] m IH]; cbn [map_assign map_lookup]; [reflexivity|].
  destruct (data_eqb k0 k) eqn:E0; cbn [map_lookup].
  - destruct (data_eqb k k') eqn:E2; [reflexivity|].
    destruct (data_eqb k0 k') eqn:E1; [|reflexivity].
    rewrite data_eqb_sym in E0.
    rewrite (data_eqb_trans _ _ _ E0 E1) in E2. discriminate.
  - rewrite IH. destruct (data_eqb k0 k') eqn:E1; [|reflexivity].
    destruct (data_eqb k k') eqn:E2; [|reflexivity].
    rewrite data_eqb_sym in E2.
    rewrite (data_eqb_trans _ _ _ E1 E2) in E0. discriminate.
Qed.

(** An assignment at a key the map does not hold adds the entry. *)
Lemma map_assign_new m k v :
  Forall (fun e => data_eqb (fst e) k = false) m ->
  map_assign m k v = m ++ [(k, v)].
Proof.
  induction 1 as [|[k0 v0] m H0 _ IH]; cbn [map_assign app]; [reflexivity|].
  cbn [fst] in H0. rewrite H0, IH. reflexivity.
Qed.

(** An assignment at a key the map holds writes the element and the key
    over the entry, where it is. *)
Lemma map_assign_replaces m1 k0 v0 m2 k v :
  Forall (fun e => data_eqb (fst e) k = false) m1 -> data_eqb k0 k = true ->
  map_assign (m1 ++ (k0, v0) :: m2) k v = m1 ++ (k, v) :: m2.
Proof.
  intros H Hk. induction H as [|[k1 v1] m1 H1 _ IH]; cbn [map_assign app].
  - rewrite Hk. reflexivity.
  - cbn [fst] in H1. rewrite H1, IH. reflexivity.
Qed.

(** After a run of assignments an index expression finds what the last
    assignment at an equal key stored. *)
Lemma map_lookup_assignments kvs : forall m0 k,
  map_lookup (fold_left (fun m kv => map_assign m (fst kv) (snd kv)) kvs m0) k
  = match find (fun kv => data_eqb (fst kv) k) (rev kvs) with
    | Some kv => Some (snd kv)
    | None => map_lookup m0 k
    end.
Proof.
  induction kvs as [|kv kvs IH] using rev_ind; intros m0 k; [reflexivity|].
  rewrite fold_left_app, rev_app_distr. cbn [fold_left rev app find].
  rewrite map_lookup_assign.
  destruct (data_eqb (fst kv) k); [reflexivity|apply IH].
Qed.

(** *** The loop of [bindMap] *)

Lemma last_byte_after p s :
  s <> EmptyString -> strings.last_byte (p ++ s) = strings.last_byte s.
Proof.
  intros Hs. induction p as [|c p IH]; [reflexivity|].
  cbn [String.append strings.last_byte]. rewrite IH.
  destruct (p ++ s)%string eqn:E; [|reflexivity].
  destruct p; [cbn in E; congruence|discriminate].
Qed.

Lemma append_empty (s : string) : (s ++ EmptyString)%string = s.
Proof. induction s as [|c s IH]; cbn; [reflexivity|rewrite IH; reflexivity]. Qed.

(** The keys [bindMap] reads are the keys [key[literal]]. *)
Lemma bracketed_iff key paramName :
  strings.HasPrefix paramName (key ++ "[") && ends_with_bracket paramName = true
  <-> exists literal, paramName = (key ++ "[" ++ literal ++ "]")%string.
Proof.
  split.
  - intros H. apply andb_true_iff in H as [Hp He].
    apply HasPrefix_split in Hp.
    remember (strings.slice_from paramName (strings.len (key ++ "["))) as rest eqn:Er.
    clear Er. subst paramName. unfold ends_with_bracket in He.
    destruct rest as [|c rest].
    + rewrite append_empty, last_byte_append in He. discriminate.
    + rewrite last_byte_after in He by discriminate.
      destruct (strings.last_byte (String.String c rest)) as [b|] eqn:El; [|discriminate].
      apply Ascii.eqb_eq in He. subst b.
      apply last_byte_split in El as [body Eb]. exists body.
      rewrite Eb, append_assoc. reflexivity.
  - intros [literal ->]. apply andb_true_iff. split.
    + rewrite <- append_assoc. apply HasPrefix_append.
    + unfold ends_with_bracket.
      rewrite <- !append_assoc. rewrite last_byte_append. reflexivity.
Qed.

Section MapEntry.
Variables bindValueKey bindValueElem : string -> M Value.

Lemma map_entry_skipped key result paramName values input :
  strings.HasPrefix paramName (key ++ "[") && ends_with_bracket paramName = false ->
  bindMap_entry bindValueKey bindValueElem key result (paramName, values) input
  = (input, Done result).
Proof.
  intros H. unfold bindMap_entry. rewrite <- negb_andb, H. reflexivity.
Qed.

Lemma map_entry_bracketed key literal result values input :
  bindMap_entry bindValueKey bindValueElem key result
    ((key ++ "[" ++ literal ++ "]")%string, values) input
  = (k <- bindValueKey literal ;;
     v0 <- index0 values ;;
     v <- bindValueElem v0 ;;
     lift (SetMapIndex result k v)) input.
Proof.
  unfold bindMap_entry.
  assert (Hc : strings.HasPrefix (key ++ "[" ++ literal ++ "]") (key ++ "[")
               && ends_with_bracket (key ++ "[" ++ literal ++ "]") = true).
  { apply bracketed_iff. exists literal. reflexivity. }
  rewrite <- negb_andb, Hc. cbn [negb].
  assert (Hs : strings.slice (key ++ "[" ++ literal ++ "]") (strings.len key + 1)
                 (strings.len (key ++ "[" ++ literal ++ "]") - 1) = literal).
  { rewrite <- (append_assoc key "[").
    replace (strings.len key + 1) with (strings.len (key ++ "[") + 0)
      by (rewrite len_append; change (strings.len "[") with 1; lia).
    replace (strings.len ((key ++ "[") ++ literal ++ "]") - 1)
      with (strings.len (key ++ "[") + strings.len literal)
      by (rewrite !len_append; change (strings.len "]") with 1;
          change (strings.len "[") with 1; lia).
    rewrite slice_append_skip by lia. apply slice_take. }
  rewrite Hs. reflexivity.
Qed.

Lemma bindMap_with_bracketed params key typ input :
  bindMap_with bindValueKey bindValueElem params key typ input
  = bindMap_with bindValueKey bindValueElem
      (filter (fun e => strings.HasPrefix (fst e) (key ++ "[")
                        && ends_with_bracket (fst e)) params) key typ input.
Proof.
  unfold bindMap_with. apply mbind_ext. intros result0 i.
  apply (foldM_filter (bindMap_entry bindValueKey bindValueElem key)
           (fun e => strings.HasPrefix (fst e) (key ++ "[") && ends_with_bracket (fst e))).
  intros a [paramName values] input0 H. apply map_entry_skipped. exact H.
Qed.
End MapEntry.

(** [SetMapIndex] on a map that is not nil, with a key and an element
    that can be assigned to its types. *)
Lemma SetMapIndex_assigns n K V m a k v dk dv :
  exported k -> exported v ->
  assignTo "reflect.Value.SetMapIndex" k K = Done dk ->
  assignTo "reflect.Value.SetMapIndex" v V = Done dv ->
  SetMapIndex (mkValue (TMap n K V) (DMap (Some m)) a false) k v
  = Done (mkValue (TMap n K V) (DMap (Some (map_assign m dk dv))) a false).
Proof.
  intros Hk Hv Hdk Hdv. unfold SetMapIndex.
  cbn [mustBeExported obind]. unfold exported in Hk, Hv.
  rewrite Hk. cbn [obind]. rewrite Hdk. cbn [obind].
  destruct v as [|t d fa ro]; [discriminate|].
  rewrite Hv. cbn [obind]. rewrite Hdv. reflexivity.
Qed.

(** A round of the loop of [bindMap] in which both literals are bound
    to values of the types of the map. *)
Lemma map_entry_inserts n K V key literal v0 rest m a input input1 input2 k v dk dv :
  bindValue literal K input = (input1, Done k) ->
  bindValue v0 V input1 = (input2, Done v) ->
  assignTo "reflect.Value.SetMapIndex" k K = Done dk ->
  assignTo "reflect.Value.SetMapIndex" v V = Done dv ->
  bindMap_entry (fun l => bindValue l K) (fun l => bindValue l V) key
    (mkValue (TMap n K V) (DMap (Some m)) a false)
    ((key ++ "[" ++ literal ++ "]")%string, v0 :: rest) input
  = (input2, Done (mkValue (TMap n K V) (DMap (Some (map_assign m dk dv))) a false)).
Proof.
  intros Hk Hv Hdk Hdv. rewrite map_entry_bracketed.
  rewrite (mbind_done _ _ _ _ _ Hk). cbn [index0]. rewrite mbind_ret.
  rewrite (mbind_done _ _ _ _ _ Hv).
  unfold lift.
  rewrite (SetMapIndex_assigns n K V m a k v dk dv
             (bindValue_exported _ _ _ _ _ Hk) (bindValue_exported _ _ _ _ _ Hv) Hdk Hdv).
  reflexivity.
Qed.

(** The loop of [bindMap] over entries that are all read, when the
    literals are bound without a panic and with the input as it was: the
    assignments are made in the order of the entries. *)
Lemma bindMap_loop n K V key input : forall entries kvs m a,
  Forall (fun e => strings.HasPrefix (fst e) (key ++ "[")
                   && ends_with_bracket (fst e) = true) entries ->
  Forall2 (fun e kv => exists v0 rest k v,
             snd e = v0 :: rest
             /\ bindValue (strings.slice (fst e) (strings.len key + 1)
                             (strings.len (fst e) - 1)) K input = (input, Done k)
             /\ bindValue v0 V input = (input, Done v)
             /\ assignTo "reflect.Value.SetMapIndex" k K = Done (fst kv)
             /\ assignTo "reflect.Value.SetMapIndex" v V = Done (snd kv))
    entries kvs ->
  foldM (bindMap_entry (fun l => bindValue l K) (fun l => bindValue l V) key) entries
    (mkValue (TMap n K V) (DMap (Some m)) a false) input
  = (input,
     Done (mkValue (TMap n K V)
             (DMap (Some (fold_left (fun m kv => map_assign m (fst kv) (snd kv)) kvs m)))
             a false)).
Proof.
  intros entries kvs m a Hread Hbound. revert m Hread.
  induction Hbound as [|[paramName values] [dk dv] entries kvs Hx _ IH];
    intros m Hread; [reflexivity|].
  apply Forall_cons_iff in Hread as [Hr Hread]. cbn [fst snd] in *.
  destruct Hx as (v0 & rest & k & v & -> & Hk & Hv & Hdk & Hdv).
  cbn [foldM fold_left].
  assert (Hround :
    bindMap_entry (fun l => bindValue l K) (fun l => bindValue l V) key
      (mkValue (TMap n K V) (DMap (Some m)) a false) (paramName, v0 :: rest) input
    = (input, Done (mkValue (TMap n K V) (DMap (Some (map_assign m dk dv))) a false))).
  { unfold bindMap_entry. rewrite <- negb_andb, Hr. cbn [negb].
    rewrite (mbind_done _ _ _ _ _ Hk). cbn [index0]. rewrite mbind_ret.
    rewrite (mbind_done _ _ _ _ _ Hv). unfold lift.
    rewrite (SetMapIndex_assigns n K V m a k v dk dv
               (bindValue_exported _ _ _ _ _ Hk) (bindValue_exported _ _ _ _ _ Hv)
               Hdk Hdv).
    reflexivity. }
  rewrite (mbind_done _ _ _ _ _ Hround). apply IH. exact Hread.
Qed.

Lemma bindValue_small_int en w val v input :
  Numeral.signed_decimal val = Some v -> - 2 ^ 7 <= v < 2 ^ 7 ->
  bindValue val (TInt en w) input
  = (input, Done (mkValue (TInt en w) (DInt v) true false)).
Proof.
  intros Hv Hr. cbn [bindValue].
  rewrite (bindInt_numeral en w val input v Hv) by lia.
  rewrite small_int_fits by exact Hr. reflexivity.
Qed.

(** C8.  [bindMap] reads the entries whose key starts with the prefix and
    an opening bracket and ends with a closing bracket, that is the keys
    [key[literal]], and no other.  For such an entry it binds [literal]
    by literal against the type of the keys, then the first value of the
    entry by literal against the type of the elements, and assigns the
    element at the key.  So the whole loop, whatever the number of the
    entries and their order, makes one assignment for every entry read,
    in the order of the entries, when every literal is bound to a value
    of its type.  An assignment at a key the map does not hold adds the
    entry; at a key it holds it writes the element and the key over the
    entry; so an index expression on the bound map finds, at every key,
    the element of the last entry whose literal was bound to an equal
    key.  With [m[a]=1] and [m[b]=2] the entries read, in whatever order,
    [Bind] of ["m"] into a map from strings to integers of any width
    stores the map with the two entries ["a": 1] and ["b": 2]. *)
Theorem bindMap_inserts_entries :
  (forall params key n K V input,
      bindMap params key (TMap n K V) input
      = bindMap (filter (fun e => strings.HasPrefix (fst e) (key ++ "[")
                                  && ends_with_bracket (fst e)) params)
          key (TMap n K V) input)
  /\ (forall key paramName,
      strings.HasPrefix paramName (key ++ "[") && ends_with_bracket paramName = true
      <-> exists literal, paramName = (key ++ "[" ++ literal ++ "]")%string)
  /\ (forall K V key literal v0 rest result input,
      bindMap_entry (fun l => bindValue l K) (fun l => bindValue l V) key result
        ((key ++ "[" ++ literal ++ "]")%string, v0 :: rest) input
      = (k <- bindValue literal K ;;
         v <- bindValue v0 V ;;
         lift (SetMapIndex result k v)) input)
  /\ (forall n K V key literal v0 rest m a input input1 input2 k v dk dv,
      bindValue literal K input = (input1, Done k) ->
      bindValue v0 V input1 = (input2, Done v) ->
      assignTo "reflect.Value.SetMapIndex" k K = Done dk ->
      assignTo "reflect.Value.SetMapIndex" v V = Done dv ->
      bindMap_entry (fun l => bindValue l K) (fun l => bindValue l V) key
        (mkValue (TMap n K V) (DMap (Some m)) a false)
        ((key ++ "[" ++ literal ++ "]")%string, v0 :: rest) input
      = (input2,
         Done (mkValue (TMap n K V) (DMap (Some (map_assign m dk dv))) a false)))
  /\ (forall params key n K V input kvs,
      Forall2 (fun e kv => exists v0 rest k v,
                 snd e = v0 :: rest
                 /\ bindValue (strings.slice (fst e) (strings.len key + 1)
                                 (strings.len (fst e) - 1)) K input = (input, Done k)
                 /\ bindValue v0 V input = (input, Done v)
                 /\ assignTo "reflect.Value.SetMapIndex" k K = Done (fst kv)
                 /\ assignTo "reflect.Value.SetMapIndex" v V = Done (snd kv))
        (filter (fun e => strings.HasPrefix (fst e) (key ++ "[")
                          && ends_with_bracket (fst e)) params) kvs ->
      bindMap params key (TMap n K V) input
      = (input,
         Done (mkValue (TMap n K V)
                 (DMap (Some (fold_left (fun m kv => map_assign m (fst kv) (snd kv))
                                kvs [])))
                 false false)))
  /\ (forall m k v,
      (Forall (fun e => data_eqb (fst e) k = false) m ->
       map_assign m k v = m ++ [(k, v)])
      /\ (forall m1 k0 v0 m2,
          m = m1 ++ (k0, v0) :: m2 ->
          Forall (fun e => data_eqb (fst e) k = false) m1 -> data_eqb k0 k = true ->
          map_assign m k v = m1 ++ (k, v) :: m2)
      /\ (forall k',
          map_lookup (map_assign m k v) k'
          = if data_eqb k k' then Some v else map_lookup m k'))
  /\ (forall kvs k,
      map_lookup (fold_left (fun m kv => map_assign m (fst kv) (snd kv)) kvs []) k
      = match find (fun kv => data_eqb (fst kv) k) (rev kvs) with
        | Some kv => Some (snd kv)
        | None => None
        end)
  /\ (forall input form pn n en w old,
      Form (Request_ input) = Some form ->
      Permutation
        (filter (fun e => strings.HasPrefix (fst e) "m[" && ends_with_bracket (fst e)) form)
        [("m[a]", ["1"]); ("m[b]", ["2"])] ->
      exists m,
        Bind (Some (TPtr pn (TMap n string_type (TInt en w)), DPtr (Some old))) "m" input
        = (input,
           Done (None,
                 Some (TPtr pn (TMap n string_type (TInt en w)),
                       DPtr (Some (DMap (Some m))))))
        /\ Permutation m [(DString "a", DInt 1); (DString "b", DInt 2)]).
Proof.
  split; [|split; [|split; [|split; [|split; [|split; [|split]]]]]].
  - intros params key n K V input. apply bindMap_with_bracketed.
  - apply bracketed_iff.
  - intros K V key literal v0 rest result input.
    rewrite map_entry_bracketed. apply mbind_ext. intros k i.
    cbn [index0]. rewrite mbind_ret. reflexivity.
  - intros. eapply map_entry_inserts; eassumption.
  - intros params key n K V input kvs Hbound. cbn [bindMap].
    rewrite bindMap_with_bracketed. unfold bindMap_with. cbn [MakeMap].
    rewrite mbind_lift_done. apply bindMap_loop; [|exact Hbound].
    apply Forall_forall. intros e He. apply filter_In in He. apply He.
  - intros m k v. split; [apply map_assign_new|]. split.
    + intros m1 k0 v0 m2 ->. apply map_assign_replaces.
    + apply map_lookup_assign.
  - intros kvs k. apply (map_lookup_assignments kvs [] k).
  - intros input form pn n en w old Hform Hperm.
    set (T := TMap n string_type (TInt en w)).
    assert (Ra : forall m i,
      bindMap_entry (fun l => bindValue l string_type) (fun l => bindValue l (TInt en w)) "m"
        (mkValue T (DMap (Some m)) false false) ("m[a]", ["1"]) i
      = (i, Done (mkValue T (DMap (Some (map_assign m (DString "a") (DInt 1))))
                    false false))).
    { intros m i.
      apply (map_entry_inserts n string_type (TInt en w) "m" "a" "1" [] m false i i i
               (mkValue string_type (DString "a") false false)
               (mkValue (TInt en w) (DInt 1) true false)).
      - reflexivity.
      - apply bindValue_small_int; [reflexivity|lia].
      - apply assignTo_same.
      - apply assignTo_same. }
    assert (Rb : forall m i,
      bindMap_entry (fun l => bindValue l string_type) (fun l => bindValue l (TInt en w)) "m"
        (mkValue T (DMap (Some m)) false false) ("m[b]", ["2"]) i
      = (i, Done (mkValue T (DMap (Some (map_assign m (DString "b") (DInt 2))))
                    false false))).
    { intros m i.
      apply (map_entry_inserts n string_type (TInt en w) "m" "b" "2" [] m false i i i
               (mkValue string_type (DString "b") false false)
               (mkValue (TInt en w) (DInt 2) true false)).
      - reflexivity.
      - apply bindValue_small_int; [reflexivity|lia].
      - apply assignTo_same.
      - apply assignTo_same. }
    assert (Hb : exists m,
      bindMap form "m" T input = (input, Done (mkValue T (DMap (Some m)) false false))
      /\ Permutation m [(DString "a", DInt 1); (DString "b", DInt 2)]).
    { unfold T at 1. cbn [bindMap]. fold T.
      rewrite bindMap_with_bracketed. change ("m" ++ "[")%string with "m[".
      unfold bindMap_with. unfold T at 1. cbn [MakeMap]. fold T.
      rewrite mbind_lift_done.
      destruct (perm_pair _ _ _ Hperm) as [E|E]; rewrite E; cbn [foldM].
      - exists [(DString "a", DInt 1); (DString "b", DInt 2)].
        rewrite (mbind_done _ _ _ _ _ (Ra _ _)).
        rewrite (mbind_done _ _ _ _ _ (Rb _ _)).
        split; [reflexivity|apply Permutation_refl].
      - exists [(DString "b", DInt 2); (DString "a", DInt 1)].
        rewrite (mbind_done _ _ _ _ _ (Rb _ _)).
        rewrite (mbind_done _ _ _ _ _ (Ra _ _)).
        split; [reflexivity|apply perm_swap]. }
    destruct Hb as (m & Hb & Hm). exists m. split; [|exact Hm].
    rewrite Bind_pointer. fold T. unfold T at 1. cbn [bind]. fold T.
    rewrite (mbind_assoc Request_Form).
    rewrite (mbind_done _ _ _ _ _ (Request_Form_parsed input form Hform)).
    rewrite (mbind_done _ _ _ _ _ Hb). cbn [IsValid negb].
    rewrite Set_same. reflexivity.
Qed.

(** ** The slice expressions of the binders stay within bounds

    [reqKey[len(key):]], [reqKey[leftBracket+1 : rightBracket]] and
    [reqKey[:subKeyIndex]] in [bindSlice], [reqKey[len(key)+1:]] in
    [bindStruct], [paramName[len(key)+1 : len(paramName)-1]] in
    [bindMap]: each is evaluated behind a check that keeps it inside the
    string. *)
Lemma slices_within_bounds (key reqKey : string) :
  (strings.HasPrefix reqKey (key ++ "[") = true ->
   strings.len key <= strings.len reqKey
   /\ (strings.len key + 1 < rightBracket key reqKey ->
       rightBracket key reqKey + 1 <= strings.len reqKey))
  /\ (strings.HasPrefix reqKey (key ++ ".") = true ->
      strings.len key + 1 <= strings.len reqKey)
  /\ (strings.HasPrefix reqKey (key ++ "[") && ends_with_bracket reqKey = true ->
      strings.len key + 1 <= strings.len reqKey - 1).
Proof.
  split; [|split].
  - intros Hp. apply HasPrefix_split in Hp.
    remember (strings.slice_from reqKey (strings.len (key ++ "["))) as r eqn:Er.
    clear Er. subst reqKey. rewrite append_assoc.
    pose proof (len_nonneg r) as Hr.
    split.
    + rewrite !len_append. change (strings.len "[") with 1. lia.
    + unfold rightBracket. rewrite slice_from_append.
      destruct (bracket_split ("[" ++ r)) as [Hno|(token & rest & E & Hno)].
      * rewrite Index_no_bracket by exact Hno. lia.
      * rewrite E, Index_bracket by exact Hno.
        assert (El : strings.len ("[" ++ r) = strings.len (token ++ "]" ++ rest))
          by (rewrite E; reflexivity).
        rewrite !len_append in El. rewrite !len_append.
        change (strings.len "[") with 1 in *. change (strings.len "]") with 1 in *.
        pose proof (len_nonneg rest). lia.
  - intros Hp. apply HasPrefix_split in Hp.
    remember (strings.slice_from reqKey (strings.len (key ++ "."))) as r eqn:Er.
    clear Er. subst reqKey.
    rewrite !len_append. change (strings.len ".") with 1.
    pose proof (len_nonneg r). lia.
  - intros Hc. apply bracketed_iff in Hc as [literal ->].
    rewrite !len_append. change (strings.len "[") with 1. change (strings.len "]") with 1.
    pose proof (len_nonneg literal). lia.
Qed.

(** ** The value the dispatchers start from

    [bind] and [bindValue] start from [rv0], the zero of type [int], and
    return it when the switch has no case for the kind, and [bind] also
    when [Query] finds nothing under the key.  It is a valid value of
    type [int], whatever the destination, and it is not addressable. *)

Lemma Query_missing input form key :
  Param input key = "" -> Form (Request_ input) = Some form ->
  url.Get form key = "" ->
  Query key input = (input, Done "").
Proof.
  intros Hp Hf Hg. rewrite (Query_form input form key Hp Hf), Hg. reflexivity.
Qed.

Lemma bind_missing_scalar input form key t :
  Param input key = "" -> Form (Request_ input) = Some form ->
  url.Get form key = "" -> scalar t = true ->
  bind key t input = (input, Done rv0).
Proof.
  intros Hp Hf Hg Hs.
  destruct t; try discriminate Hs; cbn [bind];
    rewrite (mbind_done _ _ _ _ _ (Query_missing input form key Hp Hf Hg));
    reflexivity.
Qed.

Lemma bind_not_bindable key t input :
  bindable t = false -> bind key t input = (input, Done rv0).
Proof. intros Hb. destruct t; try discriminate Hb; reflexivity. Qed.

(** [Bind] when [bind] returns the value it starts from: the check of
    validity passes, and [Set] is given a value of type [int]. *)
Lemma Bind_of_rv0 pn t old key input :
  bind key t input = (input, Done rv0) ->
  Bind (Some (TPtr pn t, DPtr (Some old))) key input
  = (input,
     match assignTo "reflect.Set" rv0 t with
     | Done d => Done (None, Some (TPtr pn t, DPtr (Some d)))
     | Panicked msg => Panicked msg
     end).
Proof.
  intros Hb. rewrite Bind_pointer. rewrite (mbind_done _ _ _ _ _ Hb).
  change (negb (IsValid rv0)) with false. cbv iota.
  unfold mbind, lift, Set_.
  change (mustBeExported rv0) with (Done tt).
  cbn [mustBeAssignable obind].
  destruct (assignTo "reflect.Set" rv0 t); reflexivity.
Qed.

(** C3.  For a destination whose kind the switch of [bind] has no case
    for, [bind] returns the value it starts from, which is valid: [Bind]
    never returns the error of the empty value, it hands the zero of type
    [int] to [Set].  On a complex destination [Set] panics; on a
    destination of an interface type without methods it stores the [int]
    0 and [Bind] returns no error. *)
Theorem Bind_unsupported_kind (pn : string) (old : data) (key : string)
    (input : BeegoInput) :
  IsValid rv0 = true
  /\ (forall t, bindable t = false ->
        bind key t input = (input, Done rv0)
        /\ Bind (Some (TPtr pn t, DPtr (Some old))) key input
           = (input,
              match assignTo "reflect.Set" rv0 t with
              | Done d => Done (None, Some (TPtr pn t, DPtr (Some d)))
              | Panicked msg => Panicked msg
              end))
  /\ (forall n k,
        Bind (Some (TPtr pn (TComplex n k), DPtr (Some old))) key input
        = (input, Panicked "reflect.Set: value is not assignable to type"))
  /\ (forall n,
        Bind (Some (TPtr pn (TInterface n []), DPtr (Some old))) key input
        = (input,
           Done (None,
                 Some (TPtr pn (TInterface n []),
                       DPtr (Some (DIface (Some (int_type, DInt 0)))))))).
Proof.
  split; [reflexivity|]. split; [|split].
  - intros t Hb. split; [apply bind_not_bindable; exact Hb|].
    apply Bind_of_rv0. apply bind_not_bindable. exact Hb.
  - intros n k. rewrite Bind_of_rv0 by reflexivity.
    destruct k, n; reflexivity.
  - intros n. rewrite Bind_of_rv0 by reflexivity. destruct n; reflexivity.
Qed.

Lemma Query_returns key input :
  exists input' val, Query key input = (input', Done val).
Proof. unfold Query. destruct (negb _); eauto. Qed.

(** C5.  When neither the route parameters nor the parsed form hold a
    value under the key, the pointer binder on a pointer to a scalar does
    not return: the value [bind] returns for the pointee is not
    addressable, and [Addr] panics on it.  So does [Bind] into a pointer
    to such a pointer.  On a pointer to a string the pointer binder
    panics whatever the request holds: the value [bindString] returns is
    not addressable either. *)
Theorem bindPoint_missing_key (input : BeegoInput) (key pn n : string) (old : data) :
  (forall form e,
      Param input key = "" -> Form (Request_ input) = Some form ->
      url.Get form key = "" -> scalar e = true ->
      bindPoint key (TPtr n e) input
      = (input, Panicked "reflect.Value.Addr of unaddressable value")
      /\ Bind (Some (TPtr pn (TPtr n e), DPtr (Some old))) key input
         = (input, Panicked "reflect.Value.Addr of unaddressable value"))
  /\ (forall sn, exists input',
        bindPoint key (TPtr n (TString sn)) input
        = (input', Panicked "reflect.Value.Addr of unaddressable value")).
Proof.
  split.
  - intros form e Hp Hf Hg Hs.
    assert (Hb : bindPoint key (TPtr n e) input
                 = (input, Panicked "reflect.Value.Addr of unaddressable value")).
    { cbn [bindPoint]. unfold bindPoint_with.
      rewrite (mbind_done _ _ _ _ _ (bind_missing_scalar input form key e Hp Hf Hg Hs)).
      reflexivity. }
    split; [exact Hb|].
    rewrite Bind_pointer.
    change (bind key (TPtr n e)) with (bindPoint key (TPtr n e)).
    rewrite (mbind_panicked _ _ _ _ _ Hb). reflexivity.
  - intros sn. destruct (Query_returns key input) as (input' & val & HQ).
    exists input'. cbn [bindPoint]. unfold bindPoint_with. cbn [bind].
    rewrite mbind_assoc. rewrite (mbind_done _ _ _ _ _ HQ).
    destruct (strings.len val =? 0); reflexivity.
Qed.

(** C10.  When neither the route parameters nor the parsed form hold a
    value under the key, [Bind] into a variable of type [int] stores 0 and
    returns no error; into a variable of any other signed integer type it
    panics in [Set], which is given the zero of type [int]. *)
Theorem Bind_missing_key_signed (input : BeegoInput) (form : url.Values)
    (key pn n : string) (w : IntKind) (old : data) :
  Param input key = "" -> Form (Request_ input) = Some form ->
  url.Get form key = "" ->
  Bind (Some (TPtr pn int_type, DPtr (Some old))) key input
  = (input, Done (None, Some (TPtr pn int_type, DPtr (Some (DInt 0)))))
  /\ (n <> EmptyString -> TInt n w <> int_type ->
      Bind (Some (TPtr pn (TInt n w), DPtr (Some old))) key input
      = (input, Panicked "reflect.Set: value is not assignable to type")).
Proof.
  intros Hp Hf Hg. split.
  - rewrite (Bind_of_rv0 pn int_type old key input)
      by (apply (bind_missing_scalar input form key int_type Hp Hf Hg); reflexivity).
    reflexivity.
  - intros Hn Hne.
    rewrite (Bind_of_rv0 pn (TInt n w) old key input)
      by (apply (bind_missing_scalar input form key (TInt n w) Hp Hf Hg); reflexivity).
    unfold assignTo, rv0, Zero, directlyAssignable.
    assert (Heq : rtype_eqb (TInt n w) int_type = false).
    { unfold rtype_eqb. destruct (rtype_eq_dec (TInt n w) int_type); congruence. }
    rewrite Heq.
    assert (Hname : hasName (TInt n w) = true).
    { unfold hasName. cbn. destruct n; [contradiction|reflexivity]. }
    rewrite Hname. reflexivity.
Qed.

(** * [strconv.Atoi] against the numeral it reads *)

Lemma ParseInt_finish_exact (neg : bool) (C u : Z) :
  1 < C -> 0 <= u ->
  strconv.ParseInt_finish neg C
    (if u <=? 2 * C - 1 then (u, None) else (2 * C - 1, Some strconv.ErrRange))
  = if (if neg then - u else u) <? - C then (- C, Some strconv.ErrRange)
    else if C <=? (if neg then - u else u) then (C - 1, Some strconv.ErrRange)
    else (if neg then - u else u, None).
Proof.
  intros HC Hu. unfold strconv.ParseInt_finish.
  destruct neg; cbn [negb andb];
    destruct (Z.leb_spec u (2 * C - 1)); case_compare; cbn [negb andb];
    case_compare; try lia; reflexivity.
Qed.

Lemma Int_size_cases : Int.size = 32 \/ Int.size = 64.
Proof. unfold Int.size. destruct intSize; auto. Qed.

Lemma Int_bounds : Int.min = - 2 ^ (Int.size - 1) /\ Int.max = 2 ^ (Int.size - 1) - 1.
Proof. split; reflexivity. Qed.

(** [ParseUint(s, 10, 0)] reads the numerals up to the largest [uint]. *)
Lemma ParseUint_int_spec s :
  match Numeral.unsigned_decimal s with
  | Some v =>
      strconv.ParseUint s 0 =
      if v <=? 2 * 2 ^ (Int.size - 1) - 1 then (v, None)
      else (2 * 2 ^ (Int.size - 1) - 1, Some strconv.ErrRange)
  | None =>
      strconv.ParseUint s 0 = (0, Some strconv.ErrSyntax)
      \/ strconv.ParseUint s 0 = (2 * 2 ^ (Int.size - 1) - 1, Some strconv.ErrRange)
  end.
Proof.
  unfold Numeral.unsigned_decimal, strconv.ParseUint.
  destruct s as [|c s]; [auto|].
  change (strconv.effective_bits 0) with Int.size.
  assert (Hpow : 2 ^ Int.size - 1 = 2 * 2 ^ (Int.size - 1) - 1).
  { destruct Int_size_cases as [-> | ->]; reflexivity. }
  rewrite Hpow.
  apply ParseUint_loop_spec; unfold strconv.maxUint64;
    destruct Int_size_cases as [-> | ->]; cbn; lia.
Qed.

(** [Atoi] on a numeral: its value when it is in the range of [int],
    otherwise the bound of the range on its side, with a range error. *)
Lemma Atoi_numeral s v :
  Numeral.signed_decimal s = Some v ->
  strconv.Atoi s
  = if v <? Int.min then (Int.min, Some strconv.ErrRange)
    else if Int.max <? v then (Int.max, Some strconv.ErrRange)
    else (v, None).
Proof.
  assert (HC : 1 < 2 ^ (Int.size - 1)).
  { destruct Int_size_cases as [-> | ->]; cbn; lia. }
  assert (Hcase : forall (neg : bool) t u,
    Numeral.unsigned_decimal t = Some u ->
    strconv.ParseInt_finish neg (2 ^ (Int.size - 1)) (strconv.ParseUint t 0)
    = if (if neg then - u else u) <? Int.min then (Int.min, Some strconv.ErrRange)
      else if Int.max <? (if neg then - u else u) then (Int.max, Some strconv.ErrRange)
      else (if neg then - u else u, None)).
  { intros neg t u Ht. pose proof (ParseUint_int_spec t) as Hu. rewrite Ht in Hu.
    rewrite Hu.
    rewrite ParseInt_finish_exact; [|exact HC|exact (unsigned_decimal_nonneg t u Ht)].
    destruct Int_bounds as [-> ->].
    destruct (Z.ltb_spec (if neg then - u else u) (- 2 ^ (Int.size - 1)));
      [reflexivity|].
    destruct (Z.leb_spec (2 ^ (Int.size - 1)) (if neg then - u else u));
      destruct (Z.ltb_spec (2 ^ (Int.size - 1) - 1) (if neg then - u else u));
      try lia; reflexivity. }
  assert (Hwrap : forall z, Int.min <= z <= Int.max -> Int.wrap z = z).
  { intros z Hz. destruct Int_bounds as [Emin Emax]. unfold Int.wrap.
    apply wrap_bits_fits; [destruct Int_size_cases as [-> | ->]; lia|lia]. }
  assert (Hfin : forall x,
    (let '(i64, err) :=
       if x <? Int.min then (Int.min, Some strconv.ErrRange)
       else if Int.max <? x then (Int.max, Some strconv.ErrRange)
       else (x, None) in (Int.wrap i64, err))
    = if x <? Int.min then (Int.min, Some strconv.ErrRange)
      else if Int.max <? x then (Int.max, Some strconv.ErrRange)
      else (x, None)).
  { intros x.
    assert (Int.min <= Int.max).
    { destruct Int_bounds as [-> ->]. lia. }
    destruct (Z.ltb_spec x Int.min); [rewrite Hwrap by lia; reflexivity|].
    destruct (Z.ltb_spec Int.max x); rewrite Hwrap by lia; reflexivity. }
  intros Hs. unfold strconv.Atoi, strconv.ParseInt.
  unfold Numeral.signed_decimal in Hs.
  destruct s as [|c s]; [discriminate|].
  change (strconv.effective_bits 0) with Int.size. cbv zeta.
  destruct (Ascii.eqb c "+") eqn:Hplus.
  { assert (Hm : Ascii.eqb c "-" = false).
    { apply Ascii.eqb_eq in Hplus. subst c. reflexivity. }
    rewrite Hm. cbn [orb]. rewrite (Hcase false s v Hs). apply Hfin. }
  destruct (Ascii.eqb c "-") eqn:Hminus; cbn [orb].
  { destruct (Numeral.unsigned_decimal s) as [u|] eqn:Hu; [|discriminate].
    cbn [option_map] in Hs. injection Hs as <-.
    rewrite (Hcase true s u Hu). apply Hfin. }
  rewrite (Hcase false _ v Hs). apply Hfin.
Qed.

(** * The input: [Query] and what a binder does to it *)

Import Accessors Effects.

(** ** [Query] *)

Lemma parsed_parsed input : parsed (parsed input) = parsed input.
Proof.
  unfold parsed, ParseForm. cbn [Params Request_].
  destruct (Form (Request_ input)) eqn:E; cbn [Form]; [rewrite E|]; reflexivity.
Qed.

Lemma parsed_of_parsed_form input :
  Form (Request_ input) <> None -> parsed input = input.
Proof.
  unfold parsed, ParseForm. destruct input as [ps [f d]]. cbn.
  destruct f; [reflexivity|congruence].
Qed.

Lemma Form_parsed input : Form (Request_ (parsed input)) <> None.
Proof.
  unfold parsed, ParseForm. cbn [Request_].
  destruct (Form (Request_ input)) eqn:E; cbn [Form]; congruence.
Qed.

Lemma Query_unfold key input :
  Query key input
  = if negb (String.eqb (Param input key) "") then (input, Done (Param input key))
    else (parsed input,
          Done (url.Get (match Form (Request_ input) with
                         | Some f => f
                         | None => decoded (Request_ input)
                         end) key)).
Proof.
  unfold Query, parsed, ParseForm.
  destruct (negb (String.eqb (Param input key) "")); [reflexivity|].
  destruct input as [ps [[f|] d]]; reflexivity.
Qed.

(** X1.  What [Query] returns: the route parameter under the key when there is
    one that is not empty, and then the form is not looked at, not even
    parsed; otherwise the first value under the key of the form, which is
    parsed first when it was not.  A second [Query] of the same key finds
    the input as the first one left it and returns the same value.  On an
    input that [NewInput] just made, [Query] is the first form value. *)
Theorem Query_route_parameter_first (key : string) (input : BeegoInput) :
  (Param input key <> "" -> Query key input = (input, Done (Param input key)))
  /\ (Param input key = "" ->
      Query key input
      = (parsed input,
         Done (url.Get (match Form (Request_ input) with
                        | Some f => f
                        | None => decoded (Request_ input)
                        end) key)))
  /\ (forall input' val,
        Query key input = (input', Done val) -> Query key input' = (input', Done val))
  /\ (forall req,
        Query key (NewInput req)
        = (NewInput (ParseForm req),
           Done (url.Get (match Form req with
                          | Some f => f
                          | None => decoded req
                          end) key))).
Proof.
  split; [|split; [|split]].
  - intros Hp. rewrite Query_unfold.
    destruct (String.eqb_spec (Param input key) ""); [contradiction|reflexivity].
  - intros Hp. rewrite Query_unfold, Hp. reflexivity.
  - intros input' val. rewrite !Query_unfold.
    destruct (negb (String.eqb (Param input key) "")) eqn:Hp.
    + intros [= <- <-]. rewrite Hp. reflexivity.
    + intros [= <- <-].
      change (Param (parsed input) key) with (Param input key). rewrite Hp.
      rewrite parsed_parsed. do 2 f_equal.
      unfold parsed, ParseForm. cbn [Request_].
      destruct (Form (Request_ input)) eqn:E; cbn [Form decoded]; [rewrite E|];
        reflexivity.
  - intros req. rewrite Query_unfold. reflexivity.
Qed.

(** ** No binder does more to the input than parse the form *)

Lemma only_parses_ret {A} (a : A) : only_parses (ret a).
Proof. intros input. left. reflexivity. Qed.

Lemma only_parses_panic {A} msg : only_parses (@panic A msg).
Proof. intros input. left. reflexivity. Qed.

Lemma only_parses_lift {A} (o : outcome A) : only_parses (lift o).
Proof. intros input. left. reflexivity. Qed.

Lemma only_parses_mbind {A B} (m : M A) (k : A -> M B) :
  only_parses m -> (forall a, only_parses (k a)) -> only_parses (mbind m k).
Proof.
  intros Hm Hk input. unfold mbind.
  specialize (Hm input).
  destruct (m input) as [i [a|msg]]; cbn [fst] in Hm; [|exact Hm].
  specialize (Hk a i).
  destruct Hm as [->|[Hnone ->]]; [exact Hk|].
  destruct Hk as [Hk|[Hk _]].
  - right. split; [exact Hnone|exact Hk].
  - exfalso. exact (Form_parsed input Hk).
Qed.

Lemma only_parses_foldM {A B} (body : A -> B -> M A) l :
  (forall a x, only_parses (body a x)) -> forall a, only_parses (foldM body l a).
Proof.
  intros Hbody. induction l as [|x l IH]; intros a; cbn [foldM].
  - apply only_parses_ret.
  - apply only_parses_mbind; [apply Hbody|exact IH].
Qed.

Lemma only_parses_Query key : only_parses (Query key).
Proof.
  intros input. rewrite Query_unfold.
  destruct (negb (String.eqb (Param input key) "")); cbn [fst]; [left; reflexivity|].
  destruct (Form (Request_ input)) eqn:E.
  - left. apply parsed_of_parsed_form. congruence.
  - right. split; reflexivity.
Qed.

Lemma only_parses_Request_Form : only_parses Request_Form.
Proof. intros input. left. reflexivity. Qed.

Lemma only_parses_index0 vals : only_parses (index0 vals).
Proof. destruct vals; [apply only_parses_panic|apply only_parses_ret]. Qed.

Ltac only_parses_step :=
  first [ apply only_parses_ret | apply only_parses_panic | apply only_parses_lift
        | apply only_parses_Query | apply only_parses_Request_Form
        | apply only_parses_index0
        | apply only_parses_mbind; [|intros ?] ].

Lemma only_parses_bindInt val typ : only_parses (bindInt val typ).
Proof.
  unfold bindInt. destruct (strconv.ParseInt val 64) as [x [e|]];
    repeat only_parses_step.
Qed.

Lemma only_parses_bindUint val typ : only_parses (bindUint val typ).
Proof.
  unfold bindUint. destruct (strconv.ParseUint val 64) as [x [e|]];
    repeat only_parses_step.
Qed.

Lemma only_parses_bindFloat val typ : only_parses (bindFloat val typ).
Proof.
  unfold bindFloat. destruct (ParseFloat64 val); repeat only_parses_step.
Qed.

Lemma only_parses_bindString val typ : only_parses (bindString val typ).
Proof. apply only_parses_ret. Qed.

Lemma only_parses_bindBool val typ : only_parses (bindBool val typ).
Proof. unfold bindBool. destruct (is_true_literal _); apply only_parses_ret. Qed.

Lemma only_parses_scalar (binder : string -> rtype -> M Value) key typ :
  (forall val, only_parses (binder val typ)) ->
  only_parses (val <- Query key ;;
               if strings.len val =? 0 then ret rv0 else binder val typ).
Proof.
  intros Hb. apply only_parses_mbind; [apply only_parses_Query|].
  intros val. destruct (strings.len val =? 0); [apply only_parses_ret|apply Hb].
Qed.

Lemma only_parses_bindSlice be bve params key typ :
  (forall k, only_parses (be k)) -> (forall v, only_parses (bve v)) ->
  only_parses (bindSlice_with be bve params key typ).
Proof.
  intros Hbe Hbve. unfold bindSlice_with.
  apply only_parses_mbind.
  - apply only_parses_foldM. intros acc [reqKey vals]. unfold bindSlice_entry.
    destruct (negb _); [apply only_parses_ret|].
    destruct (_ <? _).
    + apply only_parses_mbind; [apply Hbe|intros v; apply only_parses_ret].
    + apply only_parses_mbind; [|intros svs; apply only_parses_ret].
      apply only_parses_foldM. intros svs val.
      apply only_parses_mbind; [apply Hbve|intros v; apply only_parses_ret].
  - intros scan. apply only_parses_mbind; [apply only_parses_lift|].
    intros arr. apply only_parses_foldM. intros a sv. unfold bindSlice_place.
    destruct (negb _); apply only_parses_lift.
Qed.

Lemma only_parses_bindStruct bvf params key typ :
  (forall i v, only_parses (bvf i v)) ->
  only_parses (bindStruct_with bvf params key typ).
Proof.
  intros Hb. unfold bindStruct_with.
  apply only_parses_mbind; [apply only_parses_lift|]. intros r0.
  apply only_parses_mbind; [|intros scan; apply only_parses_ret].
  apply only_parses_foldM. intros acc [reqKey val]. unfold bindStruct_entry.
  destruct (negb _); [apply only_parses_ret|].
  destruct (existsb _ _); [apply only_parses_ret|].
  apply only_parses_mbind; [apply only_parses_lift|]. intros fv.
  destruct (negb (IsValid fv)); [apply only_parses_ret|].
  destruct (negb (CanSet fv)); [apply only_parses_ret|].
  apply only_parses_mbind; [apply only_parses_index0|]. intros v0.
  apply only_parses_mbind; [apply Hb|]. intros bv.
  apply only_parses_mbind; [apply only_parses_lift|]. intros r'.
  apply only_parses_ret.
Qed.

Lemma only_parses_bindPoint be key :
  (forall k, only_parses (be k)) -> only_parses (bindPoint_with be key).
Proof.
  intros Hbe. unfold bindPoint_with.
  apply only_parses_mbind; [apply Hbe|intros v; apply only_parses_lift].
Qed.

Lemma only_parses_bindMap bvk bve params key typ :
  (forall v, only_parses (bvk v)) -> (forall v, only_parses (bve v)) ->
  only_parses (bindMap_with bvk bve params key typ).
Proof.
  intros Hk He. unfold bindMap_with.
  apply only_parses_mbind; [apply only_parses_lift|]. intros r0.
  apply only_parses_foldM. intros acc [paramName values]. unfold bindMap_entry.
  destruct (_ || _); [apply only_parses_ret|].
  apply only_parses_mbind; [apply Hk|]. intros k.
  apply only_parses_mbind; [apply only_parses_index0|]. intros v0.
  apply only_parses_mbind; [apply He|]. intros v.
  apply only_parses_lift.
Qed.

Lemma only_parses_fields (bv : string -> rtype -> M Value) fs :
  Forall (fun f => forall val, only_parses (bv val (Typ f))) fs ->
  forall i v,
    only_parses (nth i (map (fun f v => bv v (Typ f)) fs) (fun _ => ret rv0) v).
Proof.
  induction 1 as [|f fs Hf _ IH]; intros [|i] v; cbn [map nth];
    first [apply only_parses_ret | apply Hf | apply IH].
Qed.

Lemma only_parses_dispatch t :
  (forall key, only_parses (bind key t)) /\ (forall val, only_parses (bindValue val t)).
Proof.
  induction t as [n|n k|n k|n|n k|n k|n|n|n len e IH|n d e IH|n s|n m
                 |n k e [IHk IHkv] [IHe IHev]|n e [IHe IHev]|n e [IHe IHev]|n fs IH]
    using rtype_induction;
    (split; [intros key|intros val]); cbn [bind bindValue];
    first
      [ apply (only_parses_scalar bindBool); intros v; apply only_parses_bindBool
      | apply (only_parses_scalar bindInt); intros v; apply only_parses_bindInt
      | apply (only_parses_scalar bindUint); intros v; apply only_parses_bindUint
      | apply (only_parses_scalar bindFloat); intros v; apply only_parses_bindFloat
      | apply (only_parses_scalar bindString); intros v; apply only_parses_bindString
      | apply only_parses_bindBool
      | apply only_parses_bindInt
      | apply only_parses_bindUint
      | apply only_parses_bindFloat
      | apply only_parses_bindString
      | apply only_parses_bindPoint; assumption
      | apply only_parses_bindMap; assumption
      | apply only_parses_bindSlice; assumption
      | apply only_parses_bindStruct; apply only_parses_fields;
        (eapply Forall_impl; [|exact IH]); intros f [_ Hf]; exact Hf
      | apply only_parses_mbind;
        [apply only_parses_Request_Form|intros params];
        first [ apply only_parses_bindMap; assumption
              | apply only_parses_bindSlice; assumption
              | idtac ]
      | apply only_parses_ret
      | idtac ].
  all: apply only_parses_bindStruct; apply only_parses_fields;
    (eapply Forall_impl; [|exact IH]); intros f [_ Hf]; exact Hf.
Qed.

(** X2.  Whatever the destination, the key and the request, and whether it
    returns or panics, [Bind] leaves the input as it was or parses a form
    that was not parsed yet: it changes no route parameter and never the
    values of a form; on an input whose form is parsed it changes
    nothing.  So do [bind] and [bindValue] at every type. *)
Theorem Bind_only_parses_the_form (dest : iface) (key : string) :
  only_parses (Bind dest key)
  /\ (forall t, only_parses (bind key t) /\ only_parses (bindValue key t))
  /\ (forall input,
        Form (Request_ input) <> None -> fst (Bind dest key input) = input)
  /\ (forall input, Params (fst (Bind dest key input)) = Params input).
Proof.
  assert (HB : only_parses (Bind dest key)).
  { unfold Bind. destruct (negb _); [apply only_parses_ret|].
    apply only_parses_mbind; [apply only_parses_lift|]. intros value.
    destruct (negb (CanSet value)); [apply only_parses_ret|].
    apply only_parses_mbind; [apply only_parses_lift|]. intros typ.
    apply only_parses_mbind; [apply only_parses_dispatch|]. intros rv.
    destruct (negb (IsValid rv)); [apply only_parses_ret|].
    apply only_parses_mbind; [apply only_parses_lift|]. intros value'.
    apply only_parses_ret. }
  split; [exact HB|]. split; [|split].
  - intros t. split; apply only_parses_dispatch.
  - intros input Hf. destruct (HB input) as [H|[Hnone _]]; [exact H|contradiction].
  - intros input. destruct (HB input) as [->|[_ ->]]; reflexivity.
Qed.

(** * [Bind] of a scalar that the request holds *)

(** [bind] on a scalar kind when [Query] finds a value that is not
    empty: the scalar binder is run on it. *)
Lemma bind_scalar_found (binder : string -> rtype -> M Value) typ key input input' val :
  Query key input = (input', Done val) -> val <> EmptyString ->
  (val <- Query key ;;
   if strings.len val =? 0 then ret rv0 else binder val typ) input
  = binder val typ input'.
Proof.
  intros HQ Hval. rewrite (mbind_done _ _ _ _ _ HQ).
  destruct val; [contradiction|]. reflexivity.
Qed.

Lemma Bind_of_value pn t old key input input' d a :
  bind key t input = (input', Done (mkValue t d a false)) ->
  Bind (Some (TPtr pn t, DPtr (Some old))) key input
  = (input', Done (None, Some (TPtr pn t, DPtr (Some d)))).
Proof.
  intros Hb. rewrite Bind_pointer. rewrite (mbind_done _ _ _ _ _ Hb).
  cbn [IsValid negb]. unfold mbind, lift. rewrite Set_same. reflexivity.
Qed.

Lemma not_assignable_by_name t v d a :
  type_name t <> EmptyString -> type_name v <> EmptyString -> t <> v ->
  implements t v = false ->
  assignTo "reflect.Set" (mkValue v d a false) t
  = Panicked "reflect.Set: value is not assignable to type".
Proof.
  intros Ht Hv Hne Hi. unfold assignTo, directlyAssignable.
  assert (Heq : rtype_eqb t v = false).
  { unfold rtype_eqb. destruct (rtype_eq_dec t v); congruence. }
  rewrite Heq. unfold hasName.
  destruct (String.eqb_spec (type_name t) ""); [contradiction|].
  destruct (String.eqb_spec (type_name v) ""); [contradiction|].
  cbn [negb andb orb]. rewrite Hi. reflexivity.
Qed.

Lemma Bind_not_assignable pn t old key input input' v d a :
  bind key t input = (input', Done (mkValue v d a false)) ->
  type_name t <> EmptyString -> type_name v <> EmptyString -> t <> v ->
  implements t v = false ->
  Bind (Some (TPtr pn t, DPtr (Some old))) key input
  = (input', Panicked "reflect.Set: value is not assignable to type").
Proof.
  intros Hb Ht Hv Hne Hi. rewrite Bind_pointer. rewrite (mbind_done _ _ _ _ _ Hb).
  cbn [IsValid negb]. unfold mbind, lift, Set_.
  cbn [mustBeAssignable mustBeExported obind].
  rewrite (not_assignable_by_name t v d a Ht Hv Hne Hi). reflexivity.
Qed.

(** X4.  When [Query] finds a value under the key that is not empty, [Bind]
    into a variable of an integer type never fails, whatever the type is
    called and whatever its width: a numeral of the 64-bit range is stored
    cut to the width of the variable, every other string as 0, and the
    error returned is nil.  The value [Query] finds is the route
    parameter when there is one. *)
Theorem Bind_integer_found (input input' : BeegoInput) (key val pn : string)
    (old : data) :
  Query key input = (input', Done val) -> val <> EmptyString ->
  (forall n w v,
      Numeral.signed_decimal val = Some v -> - 2 ^ 63 <= v < 2 ^ 63 ->
      Bind (Some (TPtr pn (TInt n w), DPtr (Some old))) key input
      = (input',
         Done (None,
               Some (TPtr pn (TInt n w),
                     DPtr (Some (DInt (Int.wrap_bits (int_bits w) v)))))))
  /\ (forall n w,
      Numeral.signed_decimal val = None
      \/ (exists v, Numeral.signed_decimal val = Some v /\ (v < - 2 ^ 63 \/ 2 ^ 63 <= v)) ->
      Bind (Some (TPtr pn (TInt n w), DPtr (Some old))) key input
      = (input', Done (None, Some (TPtr pn (TInt n w), DPtr (Some (DInt 0))))))
  /\ (forall n w v,
      Numeral.unsigned_decimal val = Some v -> v < 2 ^ 64 ->
      Bind (Some (TPtr pn (TUint n w), DPtr (Some old))) key input
      = (input',
         Done (None,
               Some (TPtr pn (TUint n w), DPtr (Some (DUint (v mod 2 ^ uint_bits w)))))))
  /\ (forall n w,
      Numeral.unsigned_decimal val = None
      \/ (exists v, Numeral.unsigned_decimal val = Some v /\ 2 ^ 64 <= v) ->
      Bind (Some (TPtr pn (TUint n w), DPtr (Some old))) key input
      = (input', Done (None, Some (TPtr pn (TUint n w), DPtr (Some (DUint 0)))))).
Proof.
  intros HQ Hval. split; [|split; [|split]].
  - intros n w v Hv Hr. apply (Bind_of_value _ _ _ _ _ _ _ true). cbn [bind].
    rewrite (bind_scalar_found bindInt _ _ _ _ _ HQ Hval).
    apply bindInt_numeral; assumption.
  - intros n w Hv. apply (Bind_of_value _ _ _ _ _ _ _ false). cbn [bind].
    rewrite (bind_scalar_found bindInt _ _ _ _ _ HQ Hval).
    apply bindInt_not_numeral. exact Hv.
  - intros n w v Hv Hr. apply (Bind_of_value _ _ _ _ _ _ _ true). cbn [bind].
    rewrite (bind_scalar_found bindUint _ _ _ _ _ HQ Hval).
    apply bindUint_numeral; assumption.
  - intros n w Hv. apply (Bind_of_value _ _ _ _ _ _ _ false). cbn [bind].
    rewrite (bind_scalar_found bindUint _ _ _ _ _ HQ Hval).
    apply bindUint_not_numeral. exact Hv.
Qed.

(** X5.  When [Query] finds a value under the key that is not empty, [Bind]
    into a variable of the type [string] stores the value as it is, and
    into a variable of the type [bool] whether the value, in lower case
    and without the white space around it, is ["true"], ["on"] or ["1"].
    The string and boolean binders make a [string] and a [bool] whatever
    the type asked for: [Bind] into a variable of another type whose kind
    is string or bool panics in [Set]. *)
Theorem Bind_string_and_bool_found (input input' : BeegoInput)
    (key val pn : string) (old : data) :
  Query key input = (input', Done val) -> val <> EmptyString ->
  Bind (Some (TPtr pn string_type, DPtr (Some old))) key input
  = (input', Done (None, Some (TPtr pn string_type, DPtr (Some (DString val)))))
  /\ Bind (Some (TPtr pn bool_type, DPtr (Some old))) key input
     = (input',
        Done (None,
              Some (TPtr pn bool_type,
                    DPtr (Some (DBool (is_true_literal
                                         (strings.TrimSpace (strings.ToLower val))))))))
  /\ (forall n,
      n <> EmptyString -> n <> "string" ->
      Bind (Some (TPtr pn (TString n), DPtr (Some old))) key input
      = (input', Panicked "reflect.Set: value is not assignable to type"))
  /\ (forall n,
      n <> EmptyString -> n <> "bool" ->
      Bind (Some (TPtr pn (TBool n), DPtr (Some old))) key input
      = (input', Panicked "reflect.Set: value is not assignable to type")).
Proof.
  intros HQ Hval.
  assert (Hs : forall n, bind key (TString n) input
                         = (input', Done (mkValue string_type (DString val) false false))).
  { intros n. cbn [bind].
    rewrite (bind_scalar_found bindString _ _ _ _ _ HQ Hval). reflexivity. }
  assert (Hb : forall n,
    bind key (TBool n) input
    = (input',
       Done (mkValue bool_type
               (DBool (is_true_literal (strings.TrimSpace (strings.ToLower val))))
               false false))).
  { intros n. cbn [bind].
    rewrite (bind_scalar_found bindBool _ _ _ _ _ HQ Hval). unfold bindBool.
    destruct (is_true_literal _); reflexivity. }
  split; [|split; [|split]].
  - apply (Bind_of_value _ _ _ _ _ _ _ false). apply Hs.
  - apply (Bind_of_value _ _ _ _ _ _ _ false). apply Hb.
  - intros n Hn Hne. eapply Bind_not_assignable; [apply Hs| | | |].
    + exact Hn.
    + discriminate.
    + unfold string_type. congruence.
    + reflexivity.
  - intros n Hn Hne. eapply Bind_not_assignable; [apply Hb| | | |].
    + exact Hn.
    + discriminate.
    + unfold bool_type. congruence.
    + reflexivity.
Qed.

(** X7.  The pointer binder returns a pointer that is not nil when the
    pointee is an integer whose numeral the request holds, and when it is
    a struct that the struct binder has bound, whatever the request holds
    under the key: both binders return a variable of their own, which has
    an address. *)
Theorem bindPoint_of_number_or_struct (key : string) (input : BeegoInput) :
  (forall input' val n en w v,
      Query key input = (input', Done val) -> val <> EmptyString ->
      Numeral.signed_decimal val = Some v -> - 2 ^ 63 <= v < 2 ^ 63 ->
      bindPoint key (TPtr n (TInt en w)) input
      = (input',
         Done (mkValue (TPtr "" (TInt en w))
                 (DPtr (Some (DInt (Int.wrap_bits (int_bits w) v)))) false false)))
  /\ (forall n sn fs input' v,
      bind key (TStruct sn fs) input = (input', Done v) ->
      exists d,
        v = mkValue (TStruct sn fs) (DStruct d) true false
        /\ bindPoint key (TPtr n (TStruct sn fs)) input
           = (input',
              Done (mkValue (TPtr "" (TStruct sn fs)) (DPtr (Some (DStruct d)))
                      false false))).
Proof.
  split.
  - intros input' val n en w v HQ Hval Hv Hr.
    cbn [bindPoint]. unfold bindPoint_with. cbn [bind]. rewrite mbind_assoc.
    rewrite (mbind_done _ _ _ _ _ HQ).
    destruct val; [contradiction|]. cbn [strings.len String.length].
    change (Z.of_nat (S (String.length val)) =? 0) with false. cbv iota.
    rewrite (mbind_done _ _ _ _ _ (bindInt_numeral en w _ input' v Hv Hr)).
    reflexivity.
  - intros n sn fs input' v Hb.
    assert (Hshape : exists d, v = mkValue (TStruct sn fs) (DStruct d) true false).
    { cbn [bind] in Hb. apply mbind_inv in Hb as (i & params & _ & Hb).
      unfold bindStruct_with in Hb.
      apply mbind_inv in Hb as (i1 & r0 & Hr0 & Hb).
      apply mbind_inv in Hb as (i2 & scan & Hscan & Hb).
      apply ret_inv in Hb as (_ & ->).
      apply lift_inv in Hr0 as (_ & Hr0). cbn in Hr0. injection Hr0 as <-.
      revert Hscan.
      apply (foldM_invariant
               (fun acc => exists d, result acc = mkValue (TStruct sn fs) (DStruct d) true false)).
      - intros acc [reqKey vals] j j' acc' (d & Hacc). unfold bindStruct_entry.
        destruct (negb _); [intros H; apply ret_inv in H as (_ & ->); eauto|].
        destruct (existsb _ _); [intros H; apply ret_inv in H as (_ & ->); eauto|].
        intros H. apply mbind_inv in H as (j1 & fv & _ & H).
        destruct (negb (IsValid fv)); [apply ret_inv in H as (_ & ->); eauto|].
        destruct (negb (CanSet fv)); [apply ret_inv in H as (_ & ->); eauto|].
        apply mbind_inv in H as (j2 & v0 & _ & H).
        apply mbind_inv in H as (j3 & bv & _ & H).
        apply mbind_inv in H as (j4 & r' & Hr & H).
        apply ret_inv in H as (_ & ->). cbn [result].
        apply lift_inv in Hr as (_ & Hr). rewrite Hacc in Hr.
        unfold FieldByName_Set in Hr.
        apply obind_inv in Hr as (x & _ & Hr). apply obind_inv in Hr as (x' & _ & Hr).
        destruct (field_by_name fs _) as [[k g]|]; [|discriminate].
        injection Hr as <-. eauto.
      - cbn [result]. eexists. reflexivity. }
    destruct Hshape as (d & ->). exists d. split; [reflexivity|].
    cbn [bindPoint]. unfold bindPoint_with.
    rewrite (mbind_done _ _ _ _ _ Hb). reflexivity.
Qed.

(** * Composite types: literals, sparse and huge indices *)

Lemma bindValue_struct_literal n fs val input :
  bindValue val (TStruct n fs) input
  = (input, Done (mkValue (TStruct n fs) (zero (TStruct n fs)) true false)).
Proof. reflexivity. Qed.

Lemma bindValue_slice_literal n e val input :
  bindValue val (TSlice n e) input
  = (input, Done (mkValue (TSlice n e) (DSlice (Some [])) false false)).
Proof.
  cbn [bindValue]. unfold bindSlice_with. cbn [foldM].
  rewrite mbind_assoc.
  rewrite (mbind_done _ _ _ _ _
             (entry_skipped _ _ "" (mkScan (-1) 0 []) ("", [val]) input eq_refl)).
  rewrite mbind_ret. cbn [maxIndex numNoIndex sliceValues].
  rewrite (Int_add_small (-1) 1) by lia. rewrite (Int_add_small (-1 + 1) 0) by lia.
  rewrite MakeSlice_ok by lia. reflexivity.
Qed.

Lemma bindValue_map_literal n k e val input :
  bindValue val (TMap n k e) input
  = (input, Done (mkValue (TMap n k e) (DMap (Some [])) false false)).
Proof. reflexivity. Qed.

(** X8.  Binding a literal against a composite type does not read the
    literal: against a struct type it gives the zero struct, against a
    slice type the empty slice, against a map type the empty map, each
    time without touching the input; against a pointer type the literal
    is taken for a key of the request.  So a field of a struct whose type
    is a struct, a slice or a map is set to that empty value whenever the
    request names it, whatever value the request gives it. *)
Theorem bindValue_of_composite_ignores_literal (val : string) (input : BeegoInput) :
  (forall n fs,
      bindValue val (TStruct n fs) input
      = (input, Done (mkValue (TStruct n fs) (zero (TStruct n fs)) true false)))
  /\ (forall n e,
      bindValue val (TSlice n e) input
      = (input, Done (mkValue (TSlice n e) (DSlice (Some [])) false false)))
  /\ (forall n k e,
      bindValue val (TMap n k e) input
      = (input, Done (mkValue (TMap n k e) (DMap (Some [])) false false)))
  /\ (forall n e, bindValue val (TPtr n e) input = bindPoint val (TPtr n e) input)
  /\ (forall n fs key fieldName rest acc ds i f,
      result acc = mkValue (TStruct n fs) (DStruct ds) true false ->
      existsb (String.eqb fieldName) (fieldValues acc) = false ->
      field_by_name fs fieldName = Some (i, f) -> PkgPath f = EmptyString ->
      match Typ f with
      | TStruct _ _ | TSlice _ _ | TMap _ _ _ => True
      | _ => False
      end ->
      bindStruct_entry (field_binders bindValue fs) key (TStruct n fs) acc
        ((key ++ "." ++ fieldName)%string, val :: rest) input
      = (input,
         Done {| result :=
                   mkValue (TStruct n fs)
                     (DStruct (list_set ds i
                                 match Typ f with
                                 | TSlice _ _ => DSlice (Some [])
                                 | TMap _ _ _ => DMap (Some [])
                                 | t => zero t
                                 end)) true false;
                 fieldValues := fieldName :: fieldValues acc |})).
Proof.
  split; [|split; [|split; [|split]]].
  - intros n fs. apply bindValue_struct_literal.
  - intros n e. apply bindValue_slice_literal.
  - intros n k e. apply bindValue_map_literal.
  - reflexivity.
  - intros n fs key fieldName rest acc ds i f Hshape Hseen Hfield Hpkg Hkind.
    destruct (Typ f) as [| | | | | | | | | | | |mn mk me|?|sn se|sn sfs] eqn:Ht;
      try contradiction.
    + eapply struct_entry_bound; try eassumption.
      * rewrite Ht. apply bindValue_map_literal.
      * rewrite Ht. apply assignTo_same.
    + eapply struct_entry_bound; try eassumption.
      * rewrite Ht. apply bindValue_slice_literal.
      * rewrite Ht. apply assignTo_same.
    + eapply struct_entry_bound; try eassumption.
      * rewrite Ht. apply bindValue_struct_literal.
      * rewrite Ht. apply assignTo_same.
Qed.

Lemma list_set_repeat_last {A} (z d : A) n :
  list_set (repeat z (S n)) n d = repeat z n ++ [d].
Proof.
  induction n as [|n IH]; [reflexivity|].
  change (repeat z (S (S n))) with (z :: repeat z (S n)).
  cbn [list_set]. rewrite IH. reflexivity.
Qed.

(** The first loop of [bindSlice] on a request that holds one key under
    the prefix, and that key has an index. *)
Lemma scan_single_indexed be bve key tok rest vals input bv (form : url.Values) :
  url.with_prefix (key ++ "[") form = [((key ++ "[" ++ tok ++ "]" ++ rest)%string, vals)] ->
  strings.has_byte "]" tok = false -> tok <> EmptyString ->
  0 <= fst (strconv.Atoi tok) ->
  be (key ++ "[" ++ tok ++ "]")%string input = (input, Done bv) ->
  foldM (bindSlice_entry be bve key) (url.with_prefix (key ++ "[") form)
    (mkScan (-1) 0 []) input
  = (input,
     Done (mkScan (fst (strconv.Atoi tok)) 0 [mkSliceValue (fst (strconv.Atoi tok)) bv])).
Proof.
  intros Hform Hno Hne Hpos Hbe. rewrite Hform. cbn [foldM].
  assert (Hentry :
    bindSlice_entry be bve key (mkScan (-1) 0 [])
      ((key ++ "[" ++ tok ++ "]" ++ rest)%string, vals) input
    = (input,
       Done (mkScan (fst (strconv.Atoi tok)) 0
               [mkSliceValue (fst (strconv.Atoi tok)) bv]))).
  { rewrite (entry_indexed be bve key tok rest Hno (mkScan (-1) 0 []) vals input Hne)
      by lia.
    rewrite (mbind_done _ _ _ _ _ Hbe).
    cbn [maxIndex numNoIndex sliceValues app].
    rewrite Z.max_r by lia. reflexivity. }
  rewrite (mbind_done _ _ _ _ _ Hentry). reflexivity.
Qed.

(** [bindSlice] on a request that holds one key under the prefix, and
    that key has the index [N]. *)
Lemma slice_of_single_index (input : BeegoInput) (form : url.Values)
    (key tok rest n : string) (vals : list string) (e : rtype) (N : Z)
    (d : data) (a : bool) :
  url.with_prefix (key ++ "[") form = [((key ++ "[" ++ tok ++ "]" ++ rest)%string, vals)] ->
  strings.has_byte "]" tok = false -> tok <> EmptyString ->
  fst (strconv.Atoi tok) = N -> 0 <= N < 2 ^ 31 - 1 ->
  bind (key ++ "[" ++ tok ++ "]")%string e input = (input, Done (mkValue e d a false)) ->
  bindSlice form key (TSlice n e) input
  = (input,
     Done (mkValue (TSlice n e)
             (DSlice (Some (repeat (zero e) (Z.to_nat N) ++ [d]))) false false)).
Proof.
  intros Hform Hno Hne HN Hrange Hbind. cbn [bindSlice].
  rewrite (bindSlice_after_scan _ _ form key (TSlice n e) input
             (mkScan N 0 [mkSliceValue N (mkValue e d a false)])).
  2:{ rewrite <- HN.
      apply (scan_single_indexed _ _ key tok rest vals input _ form);
        try assumption. lia. }
  cbn [maxIndex numNoIndex sliceValues].
  rewrite (Int_add_small N 1) by lia. rewrite (Int_add_small (N + 1) 0) by lia.
  rewrite MakeSlice_ok by lia. rewrite mbind_lift_done. cbn [foldM].
  erewrite mbind_done;
    [|apply place_indexed; rewrite repeat_length; lia].
  unfold ret.
  replace (Z.to_nat (N + 1)) with (S (Z.to_nat N)) by lia.
  rewrite list_set_repeat_last. reflexivity.
Qed.

(** X9.  When the request holds one key under [key[], and that key has the
    index [N], the slice bound has [N + 1] elements: [N] zero values,
    which no key of the request asked for, and then the element bound
    under the key.  The length of the slice is the index the request
    chose. *)
Theorem bindSlice_single_index (input : BeegoInput) (form : url.Values)
    (key tok rest n : string) (vals : list string) (e : rtype) (N : Z)
    (d : data) (a : bool) :
  url.with_prefix (key ++ "[") form = [((key ++ "[" ++ tok ++ "]" ++ rest)%string, vals)] ->
  strings.has_byte "]" tok = false -> tok <> EmptyString ->
  fst (strconv.Atoi tok) = N -> 0 <= N < 2 ^ 31 - 1 ->
  bind (key ++ "[" ++ tok ++ "]")%string e input = (input, Done (mkValue e d a false)) ->
  bindSlice form key (TSlice n e) input
  = (input,
     Done (mkValue (TSlice n e)
             (DSlice (Some (repeat (zero e) (Z.to_nat N) ++ [d]))) false false))
  /\ List.length (repeat (zero e) (Z.to_nat N) ++ [d]) = Z.to_nat (N + 1).
Proof.
  intros Hform Hno Hne HN Hrange Hbind. split.
  - apply (slice_of_single_index input form key tok rest n vals e N d a); assumption.
  - rewrite length_app, repeat_length. cbn [List.length]. lia.
Qed.

(** X10.  A numeral between the brackets that is not below the largest [int]
    makes the slice binder panic: [strconv.Atoi] returns the largest
    [int] for it (with a range error that is dropped), the length
    [maxIndex + 1] wraps around to the least [int], and
    [reflect.MakeSlice] refuses a negative length. *)
Theorem bindSlice_index_out_of_range (input : BeegoInput) (form : url.Values)
    (key tok rest n : string) (vals : list string) (e : rtype) (v : Z) (bv : Value) :
  url.with_prefix (key ++ "[") form = [((key ++ "[" ++ tok ++ "]" ++ rest)%string, vals)] ->
  strings.has_byte "]" tok = false ->
  Numeral.signed_decimal tok = Some v -> Int.max <= v ->
  bind (key ++ "[" ++ tok ++ "]")%string e input = (input, Done bv) ->
  fst (strconv.Atoi tok) = Int.max
  /\ bindSlice form key (TSlice n e) input
     = (input, Panicked "reflect.MakeSlice: negative len").
Proof.
  intros Hform Hno Hv Hbig Hbind.
  assert (Hmax : 0 < Int.max /\ Int.min < 0 /\ Int.min <= Int.max).
  { destruct Int_bounds as [-> ->]. destruct Int_size_cases as [-> | ->]; cbn; lia. }
  assert (HA : fst (strconv.Atoi tok) = Int.max).
  { rewrite (Atoi_numeral tok v Hv).
    destruct (Z.ltb_spec v Int.min); [lia|].
    destruct (Z.ltb_spec Int.max v); [reflexivity|]. cbn [fst]. lia. }
  split; [exact HA|]. cbn [bindSlice].
  rewrite (bindSlice_after_scan _ _ form key (TSlice n e) input
             (mkScan Int.max 0 [mkSliceValue Int.max bv])).
  2:{ rewrite <- HA.
      apply (scan_single_indexed _ _ key tok rest vals input _ form);
        try assumption.
      - apply (signed_decimal_nonempty tok v Hv).
      - rewrite HA. lia. }
  cbn [maxIndex numNoIndex sliceValues].
  assert (Hwrap : Int.add Int.max 1 = Int.min).
  { unfold Int.add, Int.wrap, Int.wrap_bits, Int.max, Int.min.
    destruct Int_size_cases as [-> | ->]; reflexivity. }
  rewrite Hwrap. unfold MakeSlice.
  destruct (Z.ltb_spec Int.min 0); [reflexivity|lia].
Qed.

(** * The accessors of the request *)

(** ** [strings.Split] and [strings.Join] on a separator of one byte *)

Lemma Split_not_empty s c : exists piece pieces, strings.Split s c = piece :: pieces.
Proof.
  induction s as [|x s (p & ps & IH)]; cbn [strings.Split]; [eauto|].
  destruct (Ascii.eqb x c); [eauto|]. rewrite IH. eauto.
Qed.

Lemma Split_without_sep s c : strings.has_byte c s = false -> strings.Split s c = [s].
Proof.
  induction s as [|x s IH]; intros H; [reflexivity|].
  cbn [strings.has_byte] in H. apply orb_false_iff in H as [Hx Hs].
  cbn [strings.Split]. rewrite Hx, (IH Hs). reflexivity.
Qed.

Lemma Split_at_sep a b c :
  strings.has_byte c a = false ->
  strings.Split (a ++ String.String c b) c = a :: strings.Split b c.
Proof.
  induction a as [|x a IH]; intros H.
  - cbn [String.append strings.Split]. rewrite Ascii.eqb_refl. reflexivity.
  - cbn [strings.has_byte] in H. apply orb_false_iff in H as [Hx Ha].
    cbn [String.append strings.Split]. rewrite Hx, (IH Ha). reflexivity.
Qed.

Lemma Split_last_piece a t c :
  strings.has_byte c t = false ->
  strings.Split (a ++ String.String c t) c = strings.Split a c ++ [t].
Proof.
  intros Ht. induction a as [|x a IH].
  - cbn [String.append strings.Split]. rewrite Ascii.eqb_refl.
    rewrite (Split_without_sep t c Ht). reflexivity.
  - cbn [String.append strings.Split]. rewrite IH.
    destruct (Ascii.eqb x c); [reflexivity|].
    destruct (Split_not_empty a c) as (p & ps & ->). reflexivity.
Qed.

Lemma Split_pieces s c :
  Forall (fun piece => strings.has_byte c piece = false) (strings.Split s c).
Proof.
  induction s as [|x s IH]; cbn [strings.Split].
  - constructor; [reflexivity|constructor].
  - destruct (Ascii.eqb x c) eqn:Hx.
    + constructor; [reflexivity|exact IH].
    + destruct (strings.Split s c) as [|p ps].
      * constructor; [cbn; rewrite Hx; reflexivity|constructor].
      * inversion IH as [|? ? Hp Hps]; subst.
        constructor; [cbn [strings.has_byte]; rewrite Hx, Hp; reflexivity|exact Hps].
Qed.

(** Joining the pieces with the separator gives the string back. *)
Lemma Join_Split s c : strings.Join (strings.Split s c) (String.String c EmptyString) = s.
Proof.
  induction s as [|x s IH]; [reflexivity|].
  cbn [strings.Split]. destruct (Split_not_empty s c) as (p & ps & E).
  rewrite E in *. destruct (Ascii.eqb_spec x c) as [->|Hx].
  - change (strings.Join (EmptyString :: p :: ps) (String.String c EmptyString))
      with (String.String c (strings.Join (p :: ps) (String.String c EmptyString))).
    rewrite IH. reflexivity.
  - transitivity (String.String x (strings.Join (p :: ps) (String.String c EmptyString)));
      [destruct ps; reflexivity|].
    rewrite IH. reflexivity.
Qed.

(** The first piece: what comes before the first separator. *)
Lemma Split_first a rest c :
  strings.has_byte c a = false ->
  rest = EmptyString \/ (exists tail, rest = String.String c tail) ->
  at_index (strings.Split (a ++ rest) c) 0 = a.
Proof.
  intros Ha [->|(tail & ->)].
  - rewrite append_empty, (Split_without_sep a c Ha). reflexivity.
  - rewrite (Split_at_sep a tail c Ha). reflexivity.
Qed.

Lemma Split_first_no_sep s c : strings.has_byte c (at_index (strings.Split s c) 0) = false.
Proof.
  pose proof (Split_pieces s c) as H.
  destruct (Split_not_empty s c) as (p & ps & E). rewrite E in *.
  inversion H; subst. assumption.
Qed.

(** The first piece of a string that starts with bytes other than the
    separator starts with them. *)
Lemma Split_first_after a s c :
  strings.has_byte c a = false ->
  at_index (strings.Split (a ++ s) c) 0 = (a ++ at_index (strings.Split s c) 0)%string.
Proof.
  induction a as [|x a IH]; intros H; [reflexivity|].
  cbn [strings.has_byte] in H. apply orb_false_iff in H as [Hx Ha].
  cbn [String.append strings.Split]. rewrite Hx. specialize (IH Ha).
  destruct (Split_not_empty (a ++ s) c) as (p & ps & E). rewrite E in *.
  cbn [at_index nth] in *. rewrite IH. reflexivity.
Qed.

Lemma has_byte_append c a b :
  strings.has_byte c (a ++ b) = strings.has_byte c a || strings.has_byte c b.
Proof.
  induction a as [|x a IH]; [reflexivity|].
  cbn [String.append strings.has_byte]. rewrite IH. apply orb_assoc.
Qed.

(** A numeral holds digits and a sign, no other byte. *)
Lemma digits_without c s acc v :
  strconv.digit_of c = None -> Numeral.digits_value acc s = Some v ->
  strings.has_byte c s = false.
Proof.
  intros Hc. revert acc. induction s as [|x s IH]; intros acc H; [reflexivity|].
  cbn [Numeral.digits_value] in H. cbn [strings.has_byte].
  destruct (strconv.digit_of x) as [d|] eqn:Hx; [|discriminate].
  rewrite (IH _ H), orb_false_r.
  destruct (Ascii.eqb_spec x c) as [->|]; [congruence|reflexivity].
Qed.

Lemma numeral_without_colon s v :
  Numeral.signed_decimal s = Some v -> strings.has_byte ":" s = false.
Proof.
  assert (Hu : forall t u, Numeral.unsigned_decimal t = Some u ->
                           strings.has_byte ":" t = false).
  { intros t u. unfold Numeral.unsigned_decimal. destruct t; [discriminate|].
    apply digits_without. reflexivity. }
  unfold Numeral.signed_decimal. destruct s as [|c s]; [discriminate|].
  destruct (Ascii.eqb_spec c "+") as [->|Hp].
  { intros H. cbn [strings.has_byte]. rewrite (Hu _ _ H). reflexivity. }
  destruct (Ascii.eqb_spec c "-") as [->|Hm].
  { destruct (Numeral.unsigned_decimal s) as [u|] eqn:E; [|discriminate].
    intros _. cbn [strings.has_byte]. rewrite (Hu _ _ E). reflexivity. }
  apply Hu.
Qed.

Lemma Split_length_cons x s c :
  List.length (strings.Split (String.String x s) c)
  = if Ascii.eqb x c then S (List.length (strings.Split s c))
    else List.length (strings.Split s c).
Proof.
  cbn [strings.Split]. destruct (Ascii.eqb x c); [reflexivity|].
  destruct (Split_not_empty s c) as (p & ps & ->). reflexivity.
Qed.

Lemma Split_length_after a s c :
  (List.length (strings.Split s c) <= List.length (strings.Split (a ++ s) c))%nat.
Proof.
  induction a as [|x a IH]; [apply Nat.le_refl|].
  change (String.String x a ++ s)%string with (String.String x (a ++ s)).
  rewrite Split_length_cons. destruct (Ascii.eqb x c); lia.
Qed.

Section Accessors.
Context {T : http.TextProto}.

(** ** [Host] and [Port] *)

Lemma Host_without_colon (r : http.Request) : strings.has_byte ":" (Host r) = false.
Proof.
  unfold Host. destruct (String.eqb (http.Host r) ""); cbn [negb]; [reflexivity|].
  destruct (Split_not_empty (http.Host r) ":") as (p & ps & E).
  pose proof (Split_first_no_sep (http.Host r) ":") as H.
  rewrite E in *. exact H.
Qed.

(** X15.  [Host] is what the field [Host] of the request holds before its
    first colon (all of it when it holds none), and ["localhost"] when
    the field is empty; it never holds a colon.  The branch that returns
    the field as it is cannot be reached, [strings.Split] returning one
    piece at least. *)
Theorem Host_before_the_colon (r : http.Request) :
  strings.has_byte ":" (Host r) = false
  /\ (http.Host r = EmptyString -> Host r = "localhost")
  /\ (forall h rest,
        http.Host r = (h ++ rest)%string -> http.Host r <> EmptyString ->
        strings.has_byte ":" h = false ->
        rest = EmptyString \/ (exists port, rest = String.String ":" port) ->
        Host r = h)
  /\ (0 < List.length (strings.Split (http.Host r) ":"))%nat.
Proof.
  assert (Hlen : forall s, (0 <? List.length (strings.Split s ":"))%nat = true).
  { intros s. destruct (Split_not_empty s ":") as (p & ps & ->). reflexivity. }
  split; [|split; [|split]].
  - apply Host_without_colon.
  - intros E. unfold Host. rewrite E. reflexivity.
  - intros h rest E Hne Hh Hrest. unfold Host.
    destruct (String.eqb_spec (http.Host r) ""); [contradiction|]. cbn [negb].
    rewrite Hlen, E. apply Split_first; assumption.
  - apply Nat.ltb_lt. apply Hlen.
Qed.

Lemma Split_two s c a b :
  s = (a ++ String.String c b)%string ->
  strings.has_byte c a = false -> strings.has_byte c b = false ->
  strings.Split s c = [a; b].
Proof.
  intros -> Ha Hb. rewrite (Split_at_sep a b c Ha), (Split_without_sep b c Hb).
  reflexivity.
Qed.

(** X16.  [Port] is 80 unless the field [Host] of the request holds one colon
    and no more; then it is what [strconv.Atoi] returns for what follows
    the colon, its error dropped: the number when that is a numeral in
    the range of [int], and 0, not 80, when nothing follows the colon.  A
    host with two colons or more, such as an IPv6 address with a port,
    gives 80.  Of a field [host:port] made of a host without a colon and
    the numeral of a port, [Host] returns the host and [Port] the
    port. *)
Theorem Port_after_the_colon (r : http.Request) :
  (forall h p,
      http.Host r = (h ++ ":" ++ p)%string ->
      strings.has_byte ":" h = false -> strings.has_byte ":" p = false ->
      Port r = fst (strconv.Atoi p))
  /\ (forall h,
        http.Host r = (h ++ ":")%string -> strings.has_byte ":" h = false ->
        Port r = 0)
  /\ (strings.has_byte ":" (http.Host r) = false -> Port r = 80)
  /\ (forall h p q,
        http.Host r = (h ++ ":" ++ p ++ ":" ++ q)%string -> Port r = 80)
  /\ (forall h port,
        http.Host r = (h ++ ":" ++ Numeral.FormatInt port)%string ->
        strings.has_byte ":" h = false -> 0 <= port < 2 ^ 31 ->
        Host r = h /\ Port r = port).
Proof.
  assert (Hone : forall h p,
    http.Host r = (h ++ ":" ++ p)%string ->
    strings.has_byte ":" h = false -> strings.has_byte ":" p = false ->
    Port r = fst (strconv.Atoi p)).
  { intros h p E Hh Hp. unfold Port.
    rewrite (Split_two (http.Host r) ":" h p E Hh Hp). reflexivity. }
  split; [exact Hone|]. split; [|split; [|split]].
  - intros h E Hh. rewrite (Hone h "" E Hh eq_refl).
    unfold strconv.Atoi, strconv.ParseInt, Int.wrap, Int.size.
    destruct intSize; reflexivity.
  - intros Hno. unfold Port. rewrite (Split_without_sep _ _ Hno). reflexivity.
  - intros h p q E. unfold Port. rewrite E.
    assert (Hlen : (3 <= List.length (strings.Split (h ++ ":" ++ p ++ ":" ++ q) ":"))%nat).
    { pose proof (Split_length_after h (":" ++ p ++ ":" ++ q) ":") as H1.
      change (":" ++ p ++ ":" ++ q)%string
        with (String.String ":" (p ++ String.String ":" q)) in H1.
      rewrite Split_length_cons, Ascii.eqb_refl in H1.
      pose proof (Split_length_after p (String.String ":" q) ":") as H2.
      rewrite Split_length_cons, Ascii.eqb_refl in H2.
      destruct (Split_not_empty q ":") as (x & xs & Eq). rewrite Eq in H2.
      cbn [List.length] in H2.
      change (h ++ ":" ++ p ++ ":" ++ q)%string
        with (h ++ String.String ":" (p ++ String.String ":" q))%string.
      lia. }
    destruct (Nat.eqb_spec (List.length (strings.Split (h ++ ":" ++ p ++ ":" ++ q) ":")) 2);
      [lia|reflexivity].
  - intros h port E Hh Hport.
    pose proof (signed_decimal_FormatInt port) as Hnum.
    split.
    + unfold Host. rewrite E.
      destruct (String.eqb_spec (h ++ ":" ++ Numeral.FormatInt port) "") as [E0|_].
      { destruct h; discriminate E0. }
      cbn [negb].
      rewrite (Split_two (h ++ ":" ++ Numeral.FormatInt port) ":" h
                 (Numeral.FormatInt port) eq_refl Hh (numeral_without_colon _ _ Hnum)).
      reflexivity.
    + rewrite (Hone h _ E Hh (numeral_without_colon _ _ Hnum)).
      rewrite (Atoi_numeral _ _ Hnum).
      assert (Hb : Int.min <= port <= Int.max).
      { destruct Int_bounds as [-> ->]. destruct Int_size_cases as [-> | ->]; cbn; lia. }
      destruct (Z.ltb_spec port Int.min); [lia|].
      destruct (Z.ltb_spec Int.max port); [lia|]. reflexivity.
Qed.

(** ** [SubDomains] *)

(** X17.  Of a host [sub.domain.tld], [SubDomains] returns [sub], which may
    hold dots itself; of a host with fewer than two dots it returns the
    empty string.  The last two labels are dropped whatever they are: of
    the dotted address [192.168.0.1] it returns [192.168]. *)
Theorem SubDomains_drops_two_labels (r : http.Request) :
  (forall sub domain tld,
      Host r = (sub ++ "." ++ domain ++ "." ++ tld)%string ->
      strings.has_byte "." domain = false -> strings.has_byte "." tld = false ->
      SubDomains r = sub)
  /\ (forall domain tld,
        Host r = (domain ++ "." ++ tld)%string ->
        strings.has_byte "." domain = false -> strings.has_byte "." tld = false ->
        SubDomains r = EmptyString)
  /\ (strings.has_byte "." (Host r) = false -> SubDomains r = EmptyString).
Proof.
  split; [|split].
  - intros sub domain tld E Hd Ht. unfold SubDomains. rewrite E.
    change (sub ++ "." ++ domain ++ "." ++ tld)%string
      with (sub ++ String.String "." (domain ++ String.String "." tld))%string.
    assert (Hs : strings.Split (sub ++ String.String "." (domain ++ String.String "." tld)) "."
                 = strings.Split sub "." ++ [domain; tld]).
    { replace (sub ++ String.String "." (domain ++ String.String "." tld))%string
        with ((sub ++ String.String "." domain) ++ String.String "." tld)%string
        by (rewrite append_assoc; reflexivity).
      rewrite (Split_last_piece _ tld "." Ht), (Split_last_piece sub domain "." Hd).
      rewrite <- app_assoc. reflexivity. }
    rewrite Hs. rewrite length_app. cbn [List.length].
    destruct (Split_not_empty sub ".") as (p & ps & Ep).
    assert (Hlen : (3 <=? List.length (strings.Split sub ".") + 2)%nat = true).
    { apply Nat.leb_le. rewrite Ep. cbn [List.length]. lia. }
    rewrite Hlen.
    replace (List.length (strings.Split sub ".") + 2 - 2)%nat
      with (List.length (strings.Split sub ".") + 0)%nat by lia.
    rewrite firstn_app_2. cbn [firstn]. rewrite app_nil_r.
    apply (Join_Split sub ".").
  - intros domain tld E Hd Ht. unfold SubDomains. rewrite E.
    rewrite (Split_two (domain ++ "." ++ tld) "." domain tld eq_refl Hd Ht).
    reflexivity.
  - intros Hno. unfold SubDomains. rewrite (Split_without_sep _ _ Hno). reflexivity.
Qed.

(** ** [Header], [Proxy] and [IP] *)

(** The keys the accessors pass to [Header] are in canonical form. *)
Lemma Header_canonical (r : http.Request) key :
  http.is_canonical key = true -> Header r key = url.Get (http.Header_ r) key.
Proof.
  intros Hk. unfold Header, http.Get, url.Get. rewrite (http.canonical_key key Hk).
  reflexivity.
Qed.

(** X18.  [Proxy] is empty when the request has no header [X-Forwarded-For]
    or an empty one; otherwise it is the pieces of the first value of
    that header between its commas: one piece at least, none holding a
    comma, none trimmed, and joined with commas they give the header
    back. *)
Theorem Proxy_splits_the_header (r : http.Request) :
  Header r "X-Forwarded-For" = url.Get (http.Header_ r) "X-Forwarded-For"
  /\ (Header r "X-Forwarded-For" = EmptyString -> Proxy r = [])
  /\ (Header r "X-Forwarded-For" <> EmptyString ->
      Proxy r <> []
      /\ strings.Join (Proxy r) "," = Header r "X-Forwarded-For"
      /\ Forall (fun ip => strings.has_byte "," ip = false) (Proxy r)).
Proof.
  split; [apply Header_canonical; reflexivity|]. split.
  - intros E. unfold Proxy. rewrite E. reflexivity.
  - intros Hne. unfold Proxy.
    destruct (String.eqb_spec (Header r "X-Forwarded-For") ""); [contradiction|].
    cbn [negb]. split; [|split].
    + destruct (Split_not_empty (Header r "X-Forwarded-For") ",") as (p & ps & ->).
      discriminate.
    + apply (Join_Split _ ",").
    + apply Split_pieces.
Qed.

(** X19.  [IP] never holds a colon.  When the header [X-Forwarded-For] starts
    with an address, [IP] is that address, without the port if it has
    one; without such a header it is what [RemoteAddr] holds before its
    first colon, unless that is a lone opening bracket, as for the IPv6
    address [[::1]:80], and then it is [127.0.0.1]. *)
Theorem IP_of_the_client (r : http.Request) :
  strings.has_byte ":" (IP r) = false
  /\ (forall a rest,
        Header r "X-Forwarded-For" = (a ++ rest)%string -> a <> EmptyString ->
        strings.has_byte ":" a = false -> strings.has_byte "," a = false ->
        rest = EmptyString
        \/ (exists tail, rest = String.String "," tail)
        \/ (exists tail, rest = String.String ":" tail) ->
        IP r = a)
  /\ (forall a rest,
        Header r "X-Forwarded-For" = EmptyString ->
        http.RemoteAddr r = (a ++ rest)%string -> strings.has_byte ":" a = false ->
        rest = EmptyString \/ (exists port, rest = String.String ":" port) ->
        IP r = if String.eqb a "[" then "127.0.0.1" else a).
Proof.
  assert (Hlen : forall s c, (0 <? List.length (strings.Split s c))%nat = true).
  { intros s c. destruct (Split_not_empty s c) as (p & ps & ->). reflexivity. }
  split; [|split].
  - unfold IP.
    destruct ((0 <? List.length (Proxy r))%nat
              && negb (String.eqb (at_index (Proxy r) 0) "")).
    + apply Split_first_no_sep.
    + rewrite Hlen.
      destruct (negb (String.eqb (at_index (strings.Split (http.RemoteAddr r) ":") 0) "["));
        [apply Split_first_no_sep|reflexivity].
  - intros a rest E Ha Hcolon Hcomma Hrest. unfold IP, Proxy.
    destruct (String.eqb_spec (Header r "X-Forwarded-For") "") as [E0|_].
    { rewrite E in E0. destruct a; [contradiction|discriminate E0]. }
    cbn [negb]. rewrite Hlen. cbn [andb]. rewrite E.
    assert (Hfirst : exists more,
      at_index (strings.Split (a ++ rest) ",") 0 = (a ++ more)%string
      /\ (more = EmptyString \/ exists tail, more = String.String ":" tail)).
    { destruct Hrest as [->|[(tail & ->)|(tail & ->)]].
      - exists EmptyString. rewrite append_empty, (Split_without_sep a "," Hcomma).
        split; [reflexivity|left; reflexivity].
      - exists EmptyString. rewrite (Split_at_sep a tail "," Hcomma).
        split; [rewrite append_empty; reflexivity|left; reflexivity].
      - rewrite (Split_first_after a _ "," Hcomma).
        exists (at_index (strings.Split (String.String ":" tail) ",") 0).
        split; [reflexivity|]. right.
        cbn [strings.Split]. change (Ascii.eqb ":" ",") with false. cbv iota.
        destruct (Split_not_empty tail ",") as (p & ps & ->). cbn [at_index nth]. eauto. }
    destruct Hfirst as (more & -> & Hmore).
    destruct (String.eqb_spec (a ++ more) "") as [E0|_].
    { destruct a; [contradiction|discriminate E0]. }
    cbn [negb]. apply Split_first; assumption.
  - intros a rest E Eaddr Ha Hrest. unfold IP, Proxy. rewrite E.
    change (negb (String.eqb "" "")) with false. cbv iota.
    change (0 <? List.length (@nil string))%nat with false. cbn [andb].
    rewrite Hlen. rewrite Eaddr, (Split_first a rest ":" Ha Hrest).
    destruct (String.eqb a "["); reflexivity.
Qed.

End Accessors.

(** * The field [Data]: [SetData] and [GetData] *)

Section DataStore.
Variable Key : Type.
Variable key_eqb : Key -> Key -> bool.
Variable hashable : Key -> bool.
Hypothesis key_eqb_sym : forall a b, key_eqb a b = key_eqb b a.
Hypothesis key_eqb_trans :
  forall a b c, key_eqb a b = true -> key_eqb b c = true -> key_eqb a c = true.

Lemma lookup_assign (m : DataStore.Data Key) k v k' :
  DataStore.lookup key_eqb (DataStore.assign key_eqb m k v) k'
  = if key_eqb k k' then Some v else DataStore.lookup key_eqb m k'.
Proof.
  induction m as [|[k0 v0] m IH]; cbn [DataStore.assign DataStore.lookup]; [reflexivity|].
  destruct (key_eqb k0 k) eqn:E0; cbn [DataStore.lookup].
  - destruct (key_eqb k0 k') eqn:E1.
    + rewrite key_eqb_sym in E0. rewrite (key_eqb_trans _ _ _ E0 E1). reflexivity.
    + destruct (key_eqb k k') eqn:E2; [|reflexivity].
      rewrite (key_eqb_trans _ _ _ E0 E2) in E1. discriminate.
  - rewrite IH. destruct (key_eqb k0 k') eqn:E1; [|reflexivity].
    destruct (key_eqb k k') eqn:E2; [|reflexivity].
    rewrite key_eqb_sym in E2. rewrite (key_eqb_trans _ _ _ E1 E2) in E0. discriminate.
Qed.

(** X21.  After [SetData(key, val)], [GetData] returns [val] for every key
    equal to [key] and what it returned before for every other key;
    before any [SetData] it returns nil.  Either call panics on a key
    that cannot be hashed and on no other, and [SetData] then leaves the
    map alone.  A value stored under a key that differs from itself (one
    holding a NaN) is never found again. *)
Theorem GetData_after_SetData (m : DataStore.Data Key) (key : Key) (val : iface) :
  (hashable key = true ->
   exists m',
     DataStore.SetData key_eqb hashable m key val = Done m'
     /\ (forall key', hashable key' = true ->
           DataStore.GetData key_eqb hashable m' key'
           = if key_eqb key key' then Done val
             else DataStore.GetData key_eqb hashable m key'))
  /\ (hashable key = false ->
      DataStore.SetData key_eqb hashable m key val
      = Panicked "runtime error: hash of unhashable type"
      /\ DataStore.GetData key_eqb hashable m key
         = Panicked "runtime error: hash of unhashable type")
  /\ (hashable key = true -> DataStore.GetData key_eqb hashable [] key = Done None)
  /\ (hashable key = true -> key_eqb key key = false ->
      DataStore.GetData key_eqb hashable m key = Done None).
Proof.
  split; [|split; [|split]].
  - intros Hk. exists (DataStore.assign key_eqb m key val).
    unfold DataStore.SetData, DataStore.GetData. rewrite Hk. split; [reflexivity|].
    intros key' Hk'. rewrite Hk'. cbn [negb]. rewrite lookup_assign.
    destruct (key_eqb key key'); reflexivity.
  - intros Hk. unfold DataStore.SetData, DataStore.GetData. rewrite Hk. split; reflexivity.
  - intros Hk. unfold DataStore.GetData. rewrite Hk. reflexivity.
  - intros Hk Hnan. unfold DataStore.GetData. rewrite Hk. cbn [negb].
    assert (Hnone : DataStore.lookup key_eqb m key = None).
    { induction m as [|[k0 v0] m' IH]; [reflexivity|]. cbn [DataStore.lookup].
      destruct (key_eqb k0 key) eqn:E; [|exact IH].
      pose proof E as E'. rewrite key_eqb_sym in E'.
      rewrite (key_eqb_trans _ _ _ E' E) in Hnan. discriminate. }
    rewrite Hnone. reflexivity.
Qed.
End DataStore.

(** * [Bind]: its errors, and composites of a form that is not parsed *)

Lemma bind_valid key t input input' v :
  bind key t input = (input', Done v) -> IsValid v = true.
Proof.
  intros H. apply bind_exported in H. apply exported_inv in H as (t' & d & a & ->).
  reflexivity.
Qed.

(** X3.  [Bind] returns two errors and no other: the one for a destination
    that is no pointer and the one for a pointer that cannot be set, both
    before it reads the request and with the destination and the input
    as they were.  The third error of the source, for an empty reflect
    value, is never returned: [bind] returns a valid value whenever it
    returns.  When [Bind] returns nil the destination is the pointer it
    was, to a variable of the same type. *)
Theorem Bind_returns_two_errors (dest : iface) (key : string)
    (input input' : BeegoInput) (err : error) (dest' : iface) :
  Bind dest key input = (input', Done (err, dest')) ->
  err <> Some "beego: reflect value is empty"
  /\ ((err = Some ("beego: non-pointer passed to Bind: " ++ key)%string
       /\ Kind_ (ValueOf dest) <> Ptr /\ dest' = dest /\ input' = input)
      \/ (err = Some ("beego: non-settable variable passed to Bind: " ++ key)%string
          /\ Kind_ (ValueOf dest) = Ptr /\ dest' = dest /\ input' = input)
      \/ (err = None
          /\ exists pn t old d,
               dest = Some (TPtr pn t, DPtr (Some old))
               /\ dest' = Some (TPtr pn t, DPtr (Some d)))).
Proof.
  unfold Bind. destruct (Kind_eq_dec (Kind_ (ValueOf dest)) Ptr) as [Hk|Hk]; cbn [negb].
  2:{ intros H. apply ret_inv in H as (-> & [= -> ->]).
      split; [cbn; discriminate|]. left. auto. }
  intros H. apply mbind_inv in H as (i1 & value & Hvalue & H).
  apply lift_inv in Hvalue as (-> & Hvalue).
  destruct (CanSet value) eqn:Hset; cbn [negb] in H.
  2:{ apply ret_inv in H as (-> & [= -> ->]).
      split; [cbn; discriminate|]. right. left. auto. }
  apply mbind_inv in H as (i2 & typ & Htyp & H).
  apply lift_inv in Htyp as (-> & Htyp).
  apply mbind_inv in H as (i3 & rv & Hrv & H).
  rewrite (bind_valid _ _ _ _ _ Hrv) in H. cbn [negb] in H.
  apply mbind_inv in H as (i4 & value' & Hvalue' & H).
  apply ret_inv in H as (-> & [= -> ->]).
  split; [discriminate|]. right. right. split; [reflexivity|].
  destruct dest as [[t0 d0]|]; [|discriminate Hk]. cbn [ValueOf] in *.
  destruct t0; try discriminate Hvalue; try discriminate Hk.
  destruct d0 as [| | | | | |[old|]| | | | | |]; cbn [Elem] in Hvalue;
    injection Hvalue as <-; try discriminate Hset.
  cbn [assign_pointee]. eauto 6.
Qed.

Lemma Request_Form_unparsed input :
  Form (Request_ input) = None -> Request_Form input = (input, Done []).
Proof. intros H. unfold Request_Form. rewrite H. reflexivity. Qed.

(** X6.  The composite binders read the form as it is and do not parse it:
    on an input whose form is not parsed yet, [Bind] into a slice, a
    struct or a map stores the empty slice, the zero struct and the empty
    map and returns nil, whatever the request holds, and leaves the form
    unparsed.  (The scalar binders go through [Query], which parses
    it.) *)
Theorem Bind_composite_before_ParseForm (input : BeegoInput) (key pn : string)
    (old : data) :
  Form (Request_ input) = None ->
  (forall n e,
      Bind (Some (TPtr pn (TSlice n e), DPtr (Some old))) key input
      = (input, Done (None, Some (TPtr pn (TSlice n e), DPtr (Some (DSlice (Some [])))))))
  /\ (forall n fs,
      Bind (Some (TPtr pn (TStruct n fs), DPtr (Some old))) key input
      = (input,
         Done (None, Some (TPtr pn (TStruct n fs), DPtr (Some (zero (TStruct n fs)))))))
  /\ (forall n k e,
      Bind (Some (TPtr pn (TMap n k e), DPtr (Some old))) key input
      = (input, Done (None, Some (TPtr pn (TMap n k e), DPtr (Some (DMap (Some [])))))))
  /\ (forall n fs sn,
      Bind (Some (TPtr pn (TPtr n (TStruct sn fs)), DPtr (Some old))) key input
      = (input,
         Done (None,
               Some (TPtr pn (TPtr n (TStruct sn fs)),
                     DPtr (Some (DPtr (Some (zero (TStruct sn fs))))))))).
Proof.
  intros Hf. split; [|split; [|split]].
  - intros n e. apply (Bind_of_value _ _ _ _ _ _ _ false). cbn [bind].
    rewrite (mbind_done _ _ _ _ _ (Request_Form_unparsed input Hf)).
    unfold bindSlice_with. cbn [foldM]. rewrite mbind_ret.
    cbn [maxIndex numNoIndex sliceValues].
    rewrite (Int_add_small (-1) 1) by lia. rewrite (Int_add_small (-1 + 1) 0) by lia.
    rewrite MakeSlice_ok by lia. reflexivity.
  - intros n fs. apply (Bind_of_value _ _ _ _ _ _ _ true). cbn [bind].
    rewrite (mbind_done _ _ _ _ _ (Request_Form_unparsed input Hf)). reflexivity.
  - intros n k e. apply (Bind_of_value _ _ _ _ _ _ _ false). cbn [bind].
    rewrite (mbind_done _ _ _ _ _ (Request_Form_unparsed input Hf)). reflexivity.
  - intros n fs sn. rewrite Bind_pointer. cbn [bind]. unfold bindPoint_with.
    rewrite !mbind_assoc.
    rewrite (mbind_done _ _ _ _ _ (Request_Form_unparsed input Hf)).
    cbn [bindStruct_with foldM]. unfold bindStruct_with. cbn [foldM].
    unfold mbind, lift, ret. cbn [Elem New Addr result IsValid negb].
    unfold Set_. cbn [mustBeAssignable mustBeExported obind].
    unfold assignTo, directlyAssignable, identical_underlying.
    destruct (rtype_eqb (TPtr n (TStruct sn fs)) (TPtr "" (TStruct sn fs))) eqn:E;
      [reflexivity|].
    unfold hasName. cbn [type_name String.eqb negb andb kind_of orb chan_assignable unnamed].
    rewrite andb_false_r. cbn [orb].
    destruct (Kind_eq_dec Ptr Ptr); [|congruence]. cbn [negb].
    rewrite rtype_eqb_refl. reflexivity.
Qed.

(** X14.  An entry of the form that holds no value makes the struct binder
    and the map binder panic, where they index the values with 0: the
    struct binder when the entry names an exported field that is not
    bound yet, the map binder once the key is bound. *)
Theorem entry_without_value_panics (key : string) (input : BeegoInput) :
  (forall n fs fieldName acc ds i f,
      result acc = mkValue (TStruct n fs) (DStruct ds) true false ->
      existsb (String.eqb fieldName) (fieldValues acc) = false ->
      field_by_name fs fieldName = Some (i, f) -> PkgPath f = EmptyString ->
      bindStruct_entry (field_binders bindValue fs) key (TStruct n fs) acc
        ((key ++ "." ++ fieldName)%string, []) input
      = (input, Panicked "runtime error: index out of range"))
  /\ (forall K V literal result input' k,
      bindValue literal K input = (input', Done k) ->
      bindMap_entry (fun l => bindValue l K) (fun l => bindValue l V) key result
        ((key ++ "[" ++ literal ++ "]")%string, []) input
      = (input', Panicked "runtime error: index out of range")).
Proof.
  split.
  - intros n fs fieldName acc ds i f Hshape Hseen Hfield Hpkg.
    rewrite (struct_entry_sets n fs key fieldName [] acc ds Hshape input i f
               Hseen Hfield Hpkg).
    reflexivity.
  - intros K V literal result input' k Hk. rewrite map_entry_bracketed.
    rewrite (mbind_done _ _ _ _ _ Hk). reflexivity.
Qed.

(** * A slice of structs: the sub-keys *)

Lemma HasPrefix_narrow s p x :
  strings.HasPrefix s (p ++ x) = true -> strings.HasPrefix s p = true.
Proof.
  intros H. apply HasPrefix_split in H. rewrite H, append_assoc.
  apply HasPrefix_append.
Qed.

Lemma with_prefix_narrow p x (form : url.Values) :
  url.with_prefix (p ++ x) form = url.with_prefix (p ++ x) (url.with_prefix p form).
Proof.
  unfold url.with_prefix. induction form as [|e form IH]; [reflexivity|].
  cbn [filter]. destruct (strings.HasPrefix (fst e) (p ++ x)) eqn:E.
  - rewrite (HasPrefix_narrow _ _ _ E). cbn [filter]. rewrite E, IH. reflexivity.
  - destruct (strings.HasPrefix (fst e) p); [cbn [filter]; rewrite E|]; exact IH.
Qed.

(** [bind] against a struct type when the form holds one key under the
    prefix and a dot. *)
Lemma bind_struct_single_field input (form : url.Values) key fieldName v0 rest
    sn fs i f bv d :
  Form (Request_ input) = Some form ->
  url.with_prefix (key ++ ".") form = [((key ++ "." ++ fieldName)%string, v0 :: rest)] ->
  field_by_name fs fieldName = Some (i, f) -> PkgPath f = EmptyString ->
  bindValue v0 (Typ f) input = (input, Done bv) ->
  assignTo "reflect.Set" bv (Typ f) = Done d ->
  bind key (TStruct sn fs) input
  = (input,
     Done (mkValue (TStruct sn fs)
             (DStruct (list_set (map (fun g => zero (Typ g)) fs) i d)) true false)).
Proof.
  intros Hf Hform Hfield Hpkg Hbind Hassign.
  rewrite bind_struct.
  rewrite (mbind_done _ _ _ _ _ (Request_Form_parsed input form Hf)).
  rewrite bindStruct_with_prefix, Hform, bindStruct_unfold. cbn [foldM].
  rewrite mbind_assoc.
  rewrite (mbind_done _ _ _ _ _
             (struct_entry_bound sn fs key fieldName v0 rest
                (mkStructScan (mkValue (TStruct sn fs) (zero (TStruct sn fs)) true false) [])
                (map (fun g => zero (Typ g)) fs) input input i f bv d
                eq_refl eq_refl Hfield Hpkg Hbind Hassign)).
  reflexivity.
Qed.

(** X13.  The elements of a slice of structs are bound through sub-keys:
    when the form holds the one key [key[N].Field] under [key[], the
    slice bound has [N] zero structs and then a struct whose field
    [Field] holds the value of that key, bound by literal against the
    type of the field, its other fields being zero. *)
Theorem bindSlice_of_structs (input : BeegoInput) (form : url.Values)
    (key tok fieldName v0 n sn : string) (rest : list string)
    (fs : list (StructField rtype)) (N : Z) (i : nat) (f : StructField rtype)
    (bv : Value) (d : data) :
  Form (Request_ input) = Some form ->
  url.with_prefix (key ++ "[") form
  = [((key ++ "[" ++ tok ++ "]" ++ "." ++ fieldName)%string, v0 :: rest)] ->
  strings.has_byte "]" tok = false -> tok <> EmptyString ->
  fst (strconv.Atoi tok) = N -> 0 <= N < 2 ^ 31 - 1 ->
  field_by_name fs fieldName = Some (i, f) -> PkgPath f = EmptyString ->
  bindValue v0 (Typ f) input = (input, Done bv) ->
  assignTo "reflect.Set" bv (Typ f) = Done d ->
  bindSlice form key (TSlice n (TStruct sn fs)) input
  = (input,
     Done (mkValue (TSlice n (TStruct sn fs))
             (DSlice (Some (repeat (zero (TStruct sn fs)) (Z.to_nat N)
                            ++ [DStruct (list_set (map (fun g => zero (Typ g)) fs) i d)])))
             false false)).
Proof.
  intros Hf Hform Hno Hne HN Hrange Hfield Hpkg Hbind Hassign.
  apply (slice_of_single_index input form key tok ("." ++ fieldName) n (v0 :: rest)
           (TStruct sn fs) N _ true Hform Hno Hne HN Hrange).
  apply (bind_struct_single_field input form (key ++ "[" ++ tok ++ "]") fieldName v0 rest
           sn fs i f bv d Hf); try assumption.
  replace ((key ++ "[" ++ tok ++ "]") ++ ".")%string
    with ((key ++ "[") ++ (tok ++ "]" ++ "."))%string
    by (rewrite !append_assoc; reflexivity).
  rewrite with_prefix_narrow, Hform. unfold url.with_prefix. cbn [filter fst].
  assert (Hp : strings.HasPrefix (key ++ "[" ++ tok ++ "]" ++ "." ++ fieldName)
                 ((key ++ "[") ++ tok ++ "]" ++ ".") = true).
  { replace (key ++ "[" ++ tok ++ "]" ++ "." ++ fieldName)%string
      with (((key ++ "[") ++ tok ++ "]" ++ ".") ++ fieldName)%string
      by (rewrite !append_assoc; reflexivity).
    apply HasPrefix_append. }
  rewrite Hp. rewrite !append_assoc. reflexivity.
Qed.

(** * Slices: values without an index, and two keys for one index *)

Lemma place_all_unindexed n e (ds : list data) a : forall l input,
  foldM bindSlice_place (map (fun d => mkSliceValue (-1) (mkValue e d a false)) ds)
    (mkValue (TSlice n e) (DSlice (Some l)) false false) input
  = (input, Done (mkValue (TSlice n e) (DSlice (Some (l ++ ds))) false false)).
Proof.
  induction ds as [|d ds IH]; intros l input; cbn [map foldM].
  - rewrite app_nil_r. reflexivity.
  - rewrite (mbind_done _ _ _ _ _ (place_unindexed n e l d a input)).
    rewrite IH, <- app_assoc. reflexivity.
Qed.

(** X11.  When the form holds the key [key[]] and no other key under [key[],
    the slice of strings bound holds the values under that key, all of
    them, in their order, and nothing else. *)
Theorem bindSlice_unindexed_values (input : BeegoInput) (form : url.Values)
    (key n : string) (vals : list string) :
  url.with_prefix (key ++ "[") form = [((key ++ "[]")%string, vals)] ->
  Z.of_nat (List.length vals) < 2 ^ 31 ->
  bindSlice form key (TSlice n string_type) input
  = (input,
     Done (mkValue (TSlice n string_type) (DSlice (Some (map DString vals))) false false)).
Proof.
  intros Hform Hlen. cbn [bindSlice].
  rewrite (bindSlice_after_scan _ _ form key (TSlice n string_type) input
             (mkScan (-1) (Int.add 0 (Z.of_nat (List.length vals)))
                (map (fun v => mkSliceValue (-1) (mkValue string_type (DString v) false false))
                   vals))).
  2:{ rewrite Hform. cbn [foldM].
      rewrite (mbind_done _ _ _ _ _
                 (scan_string_unindexed key vals (mkScan (-1) 0 []) input)).
      reflexivity. }
  cbn [maxIndex numNoIndex sliceValues].
  rewrite (Int_add_small 0 _) by lia.
  rewrite (Int_add_small (-1) 1) by lia. rewrite (Int_add_small (-1 + 1) _) by lia.
  rewrite MakeSlice_ok by lia. rewrite mbind_lift_done.
  change (Z.to_nat (-1 + 1)) with 0%nat. cbn [repeat].
  rewrite <- (map_map DString
                (fun d => mkSliceValue (-1) (mkValue string_type d false false)) vals).
  apply (place_all_unindexed n string_type (map DString vals) false []).
Qed.

Lemma list_set_last {A} (l : list A) x y :
  list_set (l ++ [x]) (List.length l) y = l ++ [y].
Proof. induction l as [|z l IH]; [reflexivity|]. cbn. rewrite IH. reflexivity. Qed.

(** X12.  Two keys of the form can name one index, as [a[1]] and [a[01]] do.
    The element of the slice is then the value of the key that the loop
    over the form meets last: as Go does not fix the order of that loop,
    either value can be the one bound. *)
Theorem bindSlice_same_index_last_wins (input : BeegoInput) (form : url.Values)
    (key tok1 tok2 rest1 rest2 n : string) (vals1 vals2 : list string)
    (e : rtype) (N : Z) (d1 d2 : data) (a1 a2 : bool) :
  url.with_prefix (key ++ "[") form
  = [((key ++ "[" ++ tok1 ++ "]" ++ rest1)%string, vals1);
     ((key ++ "[" ++ tok2 ++ "]" ++ rest2)%string, vals2)] ->
  strings.has_byte "]" tok1 = false -> tok1 <> EmptyString ->
  strings.has_byte "]" tok2 = false -> tok2 <> EmptyString ->
  fst (strconv.Atoi tok1) = N -> fst (strconv.Atoi tok2) = N -> 0 <= N < 2 ^ 31 - 1 ->
  bind (key ++ "[" ++ tok1 ++ "]")%string e input = (input, Done (mkValue e d1 a1 false)) ->
  bind (key ++ "[" ++ tok2 ++ "]")%string e input = (input, Done (mkValue e d2 a2 false)) ->
  bindSlice form key (TSlice n e) input
  = (input,
     Done (mkValue (TSlice n e)
             (DSlice (Some (repeat (zero e) (Z.to_nat N) ++ [d2]))) false false)).
Proof.
  intros Hform Hno1 Hne1 Hno2 Hne2 HN1 HN2 Hrange Hb1 Hb2. cbn [bindSlice].
  rewrite (bindSlice_after_scan _ _ form key (TSlice n e) input
             (mkScan N 0 [mkSliceValue N (mkValue e d1 a1 false);
                          mkSliceValue N (mkValue e d2 a2 false)])).
  2:{ rewrite Hform. cbn [foldM].
      assert (H1 :
        bindSlice_entry (fun k => bind k e) (fun v => bindValue v e) key (mkScan (-1) 0 [])
          ((key ++ "[" ++ tok1 ++ "]" ++ rest1)%string, vals1) input
        = (input, Done (mkScan N 0 [mkSliceValue N (mkValue e d1 a1 false)]))).
      { rewrite (entry_indexed _ _ key tok1 rest1 Hno1 (mkScan (-1) 0 []) vals1 input Hne1)
          by lia.
        rewrite (mbind_done _ _ _ _ _ Hb1), HN1.
        cbn [maxIndex numNoIndex sliceValues app]. rewrite Z.max_r by lia. reflexivity. }
      assert (H2 :
        bindSlice_entry (fun k => bind k e) (fun v => bindValue v e) key
          (mkScan N 0 [mkSliceValue N (mkValue e d1 a1 false)])
          ((key ++ "[" ++ tok2 ++ "]" ++ rest2)%string, vals2) input
        = (input, Done (mkScan N 0 [mkSliceValue N (mkValue e d1 a1 false);
                                    mkSliceValue N (mkValue e d2 a2 false)]))).
      { rewrite (entry_indexed _ _ key tok2 rest2 Hno2 _ vals2 input Hne2) by lia.
        rewrite (mbind_done _ _ _ _ _ Hb2), HN2.
        cbn [maxIndex numNoIndex sliceValues app]. rewrite Z.max_l by lia. reflexivity. }
      rewrite (mbind_done _ _ _ _ _ H1). rewrite (mbind_done _ _ _ _ _ H2).
      reflexivity. }
  cbn [maxIndex numNoIndex sliceValues].
  rewrite (Int_add_small N 1) by lia. rewrite (Int_add_small (N + 1) 0) by lia.
  rewrite MakeSlice_ok by lia. rewrite mbind_lift_done. cbn [foldM].
  erewrite mbind_done;
    [|apply place_indexed; rewrite repeat_length; lia].
  replace (Z.to_nat (N + 1)) with (S (Z.to_nat N)) by lia.
  rewrite list_set_repeat_last.
  erewrite mbind_done;
    [|apply place_indexed; rewrite length_app, repeat_length; cbn [List.length]; lia].
  unfold ret.
  rewrite <- (repeat_length (zero e) (Z.to_nat N)) at 2.
  rewrite list_set_last. reflexivity.
Qed.

Section Scheme.
Context {T : http.TextProto}.

(** X20.  [IsSecure] follows the scheme of the URL when the URL has one: a
    request over TLS whose URL says [http] is not secure, and one without
    TLS whose URL says [https] is.  Without a scheme in the URL it is
    secure when it came over TLS.  [Site] is [Scheme], [://] and [Host],
    so it never holds a port. *)
Theorem IsSecure_follows_the_scheme (r : http.Request) :
  (IsSecure r = true
   <-> http.URL_Scheme r = "https"
       \/ (http.URL_Scheme r = EmptyString /\ http.TLS r = true))
  /\ (http.URL_Scheme r = EmptyString -> Scheme r = "http" \/ Scheme r = "https")
  /\ Site r = (Scheme r ++ "://" ++ Host r)%string
  /\ strings.has_byte ":" (Host r) = false.
Proof.
  split; [|split; [|split]].
  - unfold IsSecure, Scheme.
    destruct (String.eqb_spec (http.URL_Scheme r) "") as [E|E]; cbn [negb].
    + rewrite E. destruct (http.TLS r); cbn [negb]; split.
      * intros _. right. auto.
      * reflexivity.
      * discriminate.
      * intros [H|[_ H]]; discriminate.
    + rewrite String.eqb_eq. split; [auto|]. intros [H|[H _]]; [exact H|contradiction].
  - intros E. unfold Scheme. rewrite E. cbn [String.eqb negb].
    destruct (http.TLS r); auto.
  - reflexivity.
  - apply Host_without_colon.
Qed.
End Scheme.
End WithPlatform.
End Facts.

(** * The theorems at the request of the documentation *)

Module Closed.
Import reflect Binder Go13 Facts.

Lemma doc_form_wf : url.wf Doc.form.
Proof.
  unfold url.wf. cbn.
  repeat (constructor; [cbn; intuition discriminate|]). constructor.
Qed.

(** C1 at the request of the documentation. *)
Lemma Bind_slices_witness :
  Bind (Doc.pointer_to (TSlice "" int_type) (DSlice None)) "ol" Doc.input
  = (Doc.input,
     Done (None, Doc.pointer_to (TSlice "" int_type) (DSlice (Some [DInt 1; DInt 2]))))
  /\ Bind (Doc.pointer_to (TSlice "" string_type) (DSlice None)) "ul" Doc.input
     = (Doc.input,
        Done (None, Doc.pointer_to (TSlice "" string_type)
                      (DSlice (Some [DString "str"; DString "array"]))))
  /\ Bind (Doc.pointer_to (TSlice "" string_type) (DSlice None)) "a" Doc.input
     = (Doc.input,
        Done (None, Doc.pointer_to (TSlice "" string_type)
                      (DSlice (Some [DString "x"; DString "y"])))).
Proof.
  destruct (Bind_slices_of_the_documentation Doc.input Doc.form eq_refl doc_form_wf)
    as (Hol & Hul & Ha).
  split; [|split].
  - apply Hol; [apply Permutation_refl|reflexivity|reflexivity].
  - apply Hul. apply Permutation_refl.
  - apply Ha; [apply Permutation_refl|reflexivity].
Defined.

(** C2 at a destination that is an [int], not a pointer, and at a nil
    pointer. *)
Lemma Bind_invalid_destination_witness :
  (exists msg : string,
      (msg = "beego: non-pointer passed to Bind: id"
       \/ msg = "beego: non-settable variable passed to Bind: id")
      /\ forall input, Bind (Some (int_type, DInt 5)) "id" input
                       = (input, Done (Some msg, Some (int_type, DInt 5))))
  /\ (exists msg : string,
      (msg = "beego: non-pointer passed to Bind: id"
       \/ msg = "beego: non-settable variable passed to Bind: id")
      /\ forall input, Bind (Some (TPtr "" int_type, DPtr None)) "id" input
                       = (input, Done (Some msg, Some (TPtr "" int_type, DPtr None)))).
Proof.
  split.
  - apply (Bind_invalid_destination (Some (int_type, DInt 5)) "id").
    left. cbn. discriminate.
  - apply (Bind_invalid_destination (Some (TPtr "" int_type, DPtr None)) "id").
    right. exists zeroValue. split; reflexivity.
Defined.

(** C3 at a [complex128] and at an [interface{}]. *)
Lemma Bind_unsupported_kind_witness :
  Bind (Doc.pointer_to Doc.complex128_type (DComplex float64_zero float64_zero))
    "id" Doc.input
  = (Doc.input, Panicked "reflect.Set: value is not assignable to type")
  /\ Bind (Doc.pointer_to Doc.any_type (DIface None)) "id" Doc.input
     = (Doc.input,
        Done (None, Doc.pointer_to Doc.any_type (DIface (Some (int_type, DInt 0))))).
Proof.
  split.
  - destruct (Bind_unsupported_kind "" (DComplex float64_zero float64_zero) "id" Doc.input)
      as (_ & _ & Hcomplex & _).
    apply Hcomplex.
  - destruct (Bind_unsupported_kind "" (DIface None) "id" Doc.input)
      as (_ & _ & _ & Hany).
    apply Hany.
Defined.



(** C5 at a pointer to [int] and a key the request does not hold. *)
Lemma bindPoint_missing_key_witness :
  bindPoint "missing" (TPtr "" int_type) Doc.input
  = (Doc.input, Panicked "reflect.Value.Addr of unaddressable value")
  /\ Bind (Doc.pointer_to (TPtr "" int_type) (DPtr None)) "missing" Doc.input
     = (Doc.input, Panicked "reflect.Value.Addr of unaddressable value").
Proof.
  destruct (bindPoint_missing_key Doc.input "missing" "" "" (DPtr None)) as [Hmissing _].
  apply (Hmissing Doc.form int_type); reflexivity.
Defined.

(** C6 as stated fails.  The token [x] is no numeral, [strconv.Atoi]
    rejects it, and the entry [t[x]=w] is recorded at index 0 all the
    same.  And the entry [s[0].Name=v] is bound by key under [s[0]], not
    under [s[0].Name]: the element recorded is the struct with the field
    [Name] set, while binding by key under [s[0].Name] gives the zero
    struct. *)
Lemma bindSlice_entry_index_of_non_numeral :
  strconv.Atoi "x" = (0, Some strconv.ErrSyntax)
  /\ bindSlice_entry (fun k => bind k string_type) (fun v => bindValue v string_type)
       "t" (mkScan (-1) 0 []) ("t[x]", ["w"]) Doc.input
     = (Doc.input,
        Done (mkScan 0 0 [mkSliceValue 0 (mkValue string_type (DString "w") false false)]))
  /\ (let elem := TStruct "" [mkField "Name" "" string_type] in
      bindSlice_entry (fun k => bind k elem) (fun v => bindValue v elem)
        "s" (mkScan (-1) 0 []) ("s[0].Name", ["v"]) Doc.input
      = (Doc.input,
         Done (mkScan 0 0 [mkSliceValue 0 (mkValue elem (DStruct [DString "v"]) true false)]))
      /\ bind "s[0].Name" elem Doc.input
         = (Doc.input, Done (mkValue elem (DStruct [DString ""]) true false))).
Proof.
  split; [reflexivity|]. split; [reflexivity|]. split; reflexivity.
Qed.

(** C6, amended, on the entries [a[0]=x] and [a[]=y] of the request of
    the documentation. *)
Lemma bindSlice_entry_classifies_witness :
  bindSlice_entry (fun k => bind k string_type) (fun v => bindValue v string_type)
    "a" (mkScan (-1) 0 []) ("a[0]", ["x"]) Doc.input
  = (Doc.input,
     Done (mkScan 0 0 [mkSliceValue 0 (mkValue string_type (DString "x") false false)]))
  /\ bindSlice_entry (fun k => bind k string_type) (fun v => bindValue v string_type)
       "a" (mkScan (-1) 0 []) ("a[]", ["y"]) Doc.input
     = (Doc.input,
        Done (mkScan (-1) 1
                [mkSliceValue (-1) (mkValue string_type (DString "y") false false)])).
Proof.
  split.
  - destruct (bindSlice_entry_classifies string_type "a" (mkScan (-1) 0 []) ["x"] Doc.input)
      as (Hindexed & _).
    assert (Hn : 0 <= fst (strconv.Atoi "0")) by (vm_compute; discriminate).
    assert (Ht : "0" <> EmptyString) by discriminate.
    exact (eq_trans (Hindexed "0" "" eq_refl Ht Hn) eq_refl).
  - destruct (bindSlice_entry_classifies string_type "a" (mkScan (-1) 0 []) ["y"] Doc.input)
      as (_ & Hunindexed & _).
    exact (eq_trans (Hunindexed "" "" eq_refl (or_introl eq_refl)) eq_refl).
Defined.


(** C8 at the request of the documentation, whose form holds [m[a]=1]
    and [m[b]=2], the destination being a nil [map[string]int]; and the
    whole loop on a form with four entries, three of them read, into a
    [map[float64]string]: the literals [0] and [-0] are bound to equal
    keys, and the later entry leaves its element and its key. *)
Lemma bindMap_inserts_entries_witness :
  (exists m,
    Bind (Doc.pointer_to (TMap "" string_type int_type) (DMap None)) "m" Doc.input
    = (Doc.input,
       Done (None, Doc.pointer_to (TMap "" string_type int_type) (DMap (Some m))))
    /\ Permutation m [(DString "a", DInt 1); (DString "b", DInt 2)])
  /\ bindMap [("m[0]", ["a"]); ("n", ["x"]); ("m[-0]", ["b"]); ("m[1]", ["c"; "d"])] "m"
       (TMap "" (TFloat "float64" K64) string_type) Doc.input
     = (Doc.input,
        Done (mkValue (TMap "" (TFloat "float64" K64) string_type)
                (DMap (Some [(DFloat (S754_zero true), DString "b");
                             (DFloat (S754_finite false 4503599627370496 (-52)),
                              DString "c")]))
                false false)).
Proof.
  destruct (@bindMap_inserts_entries platform) as (_ & _ & _ & _ & Hloop & _ & _ & Hdoc).
  split.
  - apply (Hdoc Doc.input Doc.form "" "" "int" KInt (DMap None) eq_refl).
    apply Permutation_refl.
  - refine (eq_trans
              (Hloop _ "m" "" (TFloat "float64" K64) string_type Doc.input
                 [(DFloat (S754_zero false), DString "a");
                  (DFloat (S754_zero true), DString "b");
                  (DFloat (S754_finite false 4503599627370496 (-52)), DString "c")] _)
              eq_refl).
    repeat apply Forall2_cons; [| | |apply Forall2_nil].
    + exists "a", [],
        (mkValue (TFloat "float64" K64) (@DFloat platform (S754_zero false)) true false),
        (mkValue string_type (DString "a") false false).
      repeat (split; [reflexivity|]). reflexivity.
    + exists "b", [],
        (mkValue (TFloat "float64" K64) (@DFloat platform (S754_zero true)) true false),
        (mkValue string_type (DString "b") false false).
      repeat (split; [reflexivity|]). reflexivity.
    + exists "c", ["d"],
        (mkValue (TFloat "float64" K64)
           (@DFloat platform (S754_finite false 4503599627370496 (-52))) true false),
        (mkValue string_type (DString "c") false false).
      repeat (split; [reflexivity|]). reflexivity.
Defined.

(** C10 at an [int] and at an [int8], with a key the request does not
    hold. *)
Lemma Bind_missing_key_signed_witness :
  Bind (Doc.pointer_to int_type (DInt 5)) "missing" Doc.input
  = (Doc.input, Done (None, Doc.pointer_to int_type (DInt 0)))
  /\ Bind (Doc.pointer_to Doc.int8_type (DInt 5)) "missing" Doc.input
     = (Doc.input, Panicked "reflect.Set: value is not assignable to type").
Proof.
  destruct (Bind_missing_key_signed Doc.input Doc.form "missing" "" "int8" KInt8 (DInt 5)
              eq_refl eq_refl eq_refl) as [Hint Hint8].
  split; [exact Hint|]. apply Hint8; discriminate.
Defined.

End Closed.

(** * The further theorems at concrete requests *)

Module Examples.
Import reflect Binder Go13 Go13net Accessors Effects Facts.

(** The request of the documentation with the route parameter [id=7]. *)
Definition routed : BeegoInput :=
  mkInput [("id", "7")] (mkRequest (Some Doc.form) Doc.form).

(** The request of the documentation before [ParseForm]. *)
Definition unparsed : BeegoInput := mkInput [] (mkRequest None Doc.form).

(** A request to [aa.bb.example.com:8080] that came through two
    proxies. *)
Definition request : http.Request :=
  http.mkHttp "GET" "HTTP/1.1" "/path?x=1" "/path" "" false
    "aa.bb.example.com:8080" "[::1]:51234"
    [("X-Forwarded-For", ["10.0.0.1:99, 10.0.0.2"])].

(** [Query] on the route parameter [id], which hides the form value 123,
    and on the form of a request that is not parsed yet. *)
Lemma Query_route_parameter_first_witness :
  Query "id" routed = (routed, Done "7")
  /\ Query "id" unparsed = (Doc.input, Done "123").
Proof.
  split.
  - destruct (Query_route_parameter_first "id" routed) as (Hroute & _).
    apply Hroute. discriminate.
  - destruct (Query_route_parameter_first "id" unparsed) as (_ & Hform & _).
    apply Hform. reflexivity.
Defined.

(** [Bind] leaves the parsed request of the documentation as it is. *)
Lemma Bind_only_parses_the_form_witness :
  fst (Bind (Doc.pointer_to (TSlice "" int_type) (DSlice None)) "ol" Doc.input) = Doc.input.
Proof.
  destruct (Bind_only_parses_the_form
              (Doc.pointer_to (TSlice "" int_type) (DSlice None)) "ol")
    as (_ & _ & Hparsed & _).
  apply Hparsed. discriminate.
Defined.

(** [Bind] of [id] into an [int8] with the route parameter [id=7]. *)
Lemma Bind_integer_found_witness :
  Bind (Doc.pointer_to Doc.int8_type (DInt 0)) "id" routed
  = (routed, Done (None, Doc.pointer_to Doc.int8_type (DInt 7))).
Proof.
  destruct (Bind_integer_found routed routed "id" "7" "" (DInt 0) eq_refl)
    as (Hint & _); [discriminate|].
  apply (Hint "int8" KInt8 7); [reflexivity|lia].
Defined.

(** [Bind] of [isok=true] into a [bool], and into a variable of a type
    [type Flag bool]. *)
Lemma Bind_string_and_bool_found_witness :
  Bind (Doc.pointer_to bool_type (DBool false)) "isok" Doc.input
  = (Doc.input, Done (None, Doc.pointer_to bool_type (DBool true)))
  /\ Bind (Doc.pointer_to (TBool "main.Flag") (DBool false)) "isok" Doc.input
     = (Doc.input, Panicked "reflect.Set: value is not assignable to type").
Proof.
  destruct (Bind_string_and_bool_found Doc.input Doc.input "isok" "true" "" (DBool false)
              eq_refl) as (_ & Hbool & _ & Hnamed); [discriminate|].
  split; [exact Hbool|]. apply Hnamed; discriminate.
Defined.

(** The pointer binder on [id=123] and a pointer to [int]. *)
Lemma bindPoint_of_number_or_struct_witness :
  bindPoint "id" (TPtr "" int_type) Doc.input
  = (Doc.input, Done (mkValue (TPtr "" int_type) (DPtr (Some (DInt 123))) false false)).
Proof.
  destruct (bindPoint_of_number_or_struct "id" Doc.input) as (Hnumber & _).
  apply (Hnumber Doc.input "123" "" "int" KInt 123);
    [reflexivity|discriminate|reflexivity|lia].
Defined.

(** [ol[2]=5] alone gives the slice [[0, 0, 5]]. *)
Lemma bindSlice_single_index_witness :
  let form := [("ol[2]", ["5"])] in
  let input := mkInput [] (mkRequest (Some form) form) in
  bindSlice form "ol" (TSlice "" int_type) input
  = (input,
     Done (mkValue (TSlice "" int_type) (DSlice (Some [DInt 0; DInt 0; DInt 5]))
             false false)).
Proof.
  cbv zeta.
  refine (proj1 (bindSlice_single_index _ [("ol[2]", ["5"])] "ol" "2" "" "" ["5"]
                   int_type 2 (DInt 5) true _ _ _ _ _ _));
    try reflexivity; try discriminate.
  lia.
Defined.

(** An index of twenty digits. *)
Lemma bindSlice_index_out_of_range_witness :
  let form := [("ol[99999999999999999999]", ["5"])] in
  let input := mkInput [] (mkRequest (Some form) form) in
  bindSlice form "ol" (TSlice "" int_type) input
  = (input, Panicked "reflect.MakeSlice: negative len").
Proof.
  cbv zeta.
  apply (bindSlice_index_out_of_range _ [("ol[99999999999999999999]", ["5"])]
           "ol" "99999999999999999999" "" "" ["5"] int_type 99999999999999999999
           (mkValue int_type (DInt 5) true false));
    try reflexivity.
  vm_compute. discriminate.
Defined.

(** [s[0].Name=v] of the request of the documentation. *)
Lemma bindSlice_of_structs_witness :
  let elem := TStruct "" [mkField "Name" "" string_type] in
  bindSlice Doc.form "s" (TSlice "" elem) Doc.input
  = (Doc.input,
     Done (mkValue (TSlice "" elem) (DSlice (Some [DStruct [DString "v"]])) false false)).
Proof.
  cbv zeta.
  apply (bindSlice_of_structs Doc.input Doc.form "s" "0" "Name" "v" "" "" []
           [mkField "Name" "" string_type] 0 0%nat (mkField "Name" "" string_type)
           (mkValue string_type (DString "v") false false) (DString "v"));
    try reflexivity; try discriminate.
  lia.
Defined.

(** [Bind] into an [int] that is passed by value. *)
Lemma Bind_returns_two_errors_witness :
  Some "beego: non-pointer passed to Bind: id" <> Some "beego: reflect value is empty"
  /\ ((Some "beego: non-pointer passed to Bind: id"
       = Some ("beego: non-pointer passed to Bind: " ++ "id")%string
       /\ Kind_ (ValueOf (Some (int_type, DInt 5))) <> Ptr
       /\ Some (int_type, DInt 5) = Some (int_type, DInt 5)
       /\ Doc.input = Doc.input)
      \/ (Some "beego: non-pointer passed to Bind: id"
          = Some ("beego: non-settable variable passed to Bind: " ++ "id")%string
          /\ Kind_ (ValueOf (Some (int_type, DInt 5))) = Ptr
          /\ Some (int_type, DInt 5) = Some (int_type, DInt 5)
          /\ Doc.input = Doc.input)
      \/ (Some "beego: non-pointer passed to Bind: id" = None
          /\ exists pn t old d,
               Some (int_type, DInt 5) = Some (TPtr pn t, DPtr (Some old))
               /\ Some (int_type, DInt 5) = Some (TPtr pn t, DPtr (Some d)))).
Proof.
  exact (Bind_returns_two_errors (Some (int_type, DInt 5)) "id" Doc.input Doc.input
           (Some "beego: non-pointer passed to Bind: id") (Some (int_type, DInt 5))
           eq_refl).
Defined.

(** [Bind] of [ol] before the form is parsed. *)
Lemma Bind_composite_before_ParseForm_witness :
  Bind (Doc.pointer_to (TSlice "" int_type) (DSlice None)) "ol" unparsed
  = (unparsed, Done (None, Doc.pointer_to (TSlice "" int_type) (DSlice (Some [])))).
Proof.
  destruct (Bind_composite_before_ParseForm unparsed "ol" "" (DSlice None) eq_refl)
    as (Hslice & _).
  apply Hslice.
Defined.

(** A [Data] keyed by strings. *)
Lemma GetData_after_SetData_witness :
  DataStore.GetData String.eqb (fun _ => true) [("user", Some (int_type, DInt 1))] "user"
  = Done (Some (int_type, DInt 1))
  /\ DataStore.GetData String.eqb (fun _ => true) [] "user" = Done None.
Proof.
  assert (Htrans : forall a b c : string,
             String.eqb a b = true -> String.eqb b c = true -> String.eqb a c = true).
  { intros a b c Hab Hbc. apply String.eqb_eq in Hab, Hbc. subst.
    apply String.eqb_refl. }
  destruct (GetData_after_SetData string String.eqb (fun _ => true)
              String.eqb_sym Htrans [] "user" (Some (int_type, DInt 1)))
    as (Hset & _ & Hfresh & _).
  destruct (Hset eq_refl) as (m' & Hm' & Hget).
  injection Hm' as <-. split.
  - exact (Hget "user" eq_refl).
  - exact (Hfresh eq_refl).
Defined.

(** [Host], [Port], [SubDomains], [Proxy] and [IP] of the request. *)
Lemma Host_before_the_colon_witness : Host request = "aa.bb.example.com".
Proof.
  destruct (Host_before_the_colon request) as (_ & _ & Hhost & _).
  apply (Hhost "aa.bb.example.com" ":8080"); try reflexivity; try discriminate.
  right. exists "8080". reflexivity.
Defined.

Lemma Port_after_the_colon_witness :
  Host request = "aa.bb.example.com" /\ Port request = 8080.
Proof.
  destruct (Port_after_the_colon request) as (_ & _ & _ & _ & Hboth).
  apply (Hboth "aa.bb.example.com" 8080); try reflexivity.
  lia.
Defined.

Lemma SubDomains_drops_two_labels_witness : SubDomains request = "aa.bb".
Proof.
  destruct (SubDomains_drops_two_labels request) as (Hsub & _).
  apply (Hsub "aa.bb" "example" "com"); reflexivity.
Defined.

Lemma Proxy_splits_the_header_witness :
  Proxy request <> []
  /\ strings.Join (Proxy request) "," = "10.0.0.1:99, 10.0.0.2"
  /\ Forall (fun ip => strings.has_byte "," ip = false) (Proxy request).
Proof.
  destruct (Proxy_splits_the_header request) as (_ & _ & Hsplit).
  apply Hsplit. discriminate.
Defined.

Lemma IP_of_the_client_witness : IP request = "10.0.0.1".
Proof.
  destruct (IP_of_the_client request) as (_ & Hproxy & _).
  apply (Hproxy "10.0.0.1" ":99, 10.0.0.2"); try reflexivity; try discriminate.
  right. right. exists "99, 10.0.0.2". reflexivity.
Defined.

(** [ul[]=str&ul[]=array] of the request of the documentation. *)
Lemma bindSlice_unindexed_values_witness :
  bindSlice Doc.form "ul" (TSlice "" string_type) Doc.input
  = (Doc.input,
     Done (mkValue (TSlice "" string_type)
             (DSlice (Some [DString "str"; DString "array"])) false false)).
Proof.
  apply (bindSlice_unindexed_values Doc.input Doc.form "ul" "" ["str"; "array"]).
  - reflexivity.
  - cbn. lia.
Defined.

(** [a[1]=x] and [a[01]=y], in the two orders in which the loop can meet
    them. *)
Lemma bindSlice_same_index_last_wins_witness :
  (let form := [("a[1]", ["x"]); ("a[01]", ["y"])] in
   let input := mkInput [] (mkRequest (Some form) form) in
   bindSlice form "a" (TSlice "" string_type) input
   = (input,
      Done (mkValue (TSlice "" string_type) (DSlice (Some [DString ""; DString "y"]))
              false false)))
  /\ (let form := [("a[01]", ["y"]); ("a[1]", ["x"])] in
      let input := mkInput [] (mkRequest (Some form) form) in
      bindSlice form "a" (TSlice "" string_type) input
      = (input,
         Done (mkValue (TSlice "" string_type) (DSlice (Some [DString ""; DString "x"]))
                 false false))).
Proof.
  split; cbv zeta.
  - apply (bindSlice_same_index_last_wins _ [("a[1]", ["x"]); ("a[01]", ["y"])]
             "a" "1" "01" "" "" "" ["x"] ["y"] string_type 1 (DString "x") (DString "y")
             false false); try reflexivity; try discriminate.
    lia.
  - apply (bindSlice_same_index_last_wins _ [("a[01]", ["y"]); ("a[1]", ["x"])]
             "a" "01" "1" "" "" "" ["y"] ["x"] string_type 1 (DString "y") (DString "x")
             false false); try reflexivity; try discriminate.
    lia.
Defined.

(** A request over TLS whose URL has no scheme. *)
Lemma IsSecure_follows_the_scheme_witness :
  IsSecure (http.mkHttp "GET" "HTTP/1.1" "/" "/" "" true "example.com" "10.0.0.1:1" [])
  = true.
Proof.
  destruct (IsSecure_follows_the_scheme
              (http.mkHttp "GET" "HTTP/1.1" "/" "/" "" true "example.com" "10.0.0.1:1" []))
    as (Hsecure & _).
  apply Hsecure. right. split; reflexivity.
Defined.

End Examples.
